(** * CrewLink-server: the session protocol engine

    A shallow embedding of [connection.ts], [room.ts] and the WebSocket
    handlers of [index.ts]: the wire codec ([Connection.send] and the head
    of the ['message'] handler), the room and connection registries, the
    per-socket handlers and the liveness sweep.

    JavaScript objects that are shared and mutated ([Room], [Connection])
    live in two stores addressed by reference; the closure variables of a
    socket ([code], [connectTimeout], [connection]) are a record per
    socket.  A handler returns the new server state together with the
    effects it had on sockets, or the exception it threw. *)

From Stdlib Require Import ZArith Lia List String Ascii.
From Stdlib.Strings Require Import Byte.
From stdpp Require Import base option list gmap strings pretty.

Set Warnings "-register-all".
Local Open Scope Z_scope.

(** ** JavaScript values

    What [JSON.parse] can return, plus [undefined].  Numbers are the
    integers (player and client ids are integers on the wire). *)

Inductive value : Type :=
  | VUndefined
  | VNull
  | VBool (b : bool)
  | VNum (n : Z)
  | VStr (s : string)
  | VArr (elems : list value)
  | VObj (props : list (string * value)).

(** The exceptions the modelled code can raise. *)
Inductive js_error : Type :=
  | RangeError    (* Buffer.writeUInt8 / writeUInt16BE out of range *)
  | SyntaxError   (* JSON.parse *)
  | TypeError.    (* property access on undefined or null *)

(** [v instanceof Object]: arrays and objects, no primitive. *)
Definition instanceof_Object (v : value) : bool :=
  match v with
  | VArr _ | VObj _ => true
  | _ => false
  end.

(** [if (v)]: JavaScript truthiness. *)
Definition truthy (v : value) : bool :=
  match v with
  | VUndefined | VNull => false
  | VBool b => b
  | VNum n => negb (n =? 0)
  | VStr s => negb (String.eqb s EmptyString)
  | VArr _ | VObj _ => true
  end.

(** [a === b].  Two arrays or objects are equal only when they are the same
    reference; every value compared by the handlers comes from a different
    [JSON.parse] call than the stored value it is compared with, so for
    them the answer is [false]. *)
Definition strict_eq (a b : value) : bool :=
  match a, b with
  | VUndefined, VUndefined => true
  | VNull, VNull => true
  | VBool x, VBool y => Bool.eqb x y
  | VNum x, VNum y => x =? y
  | VStr x, VStr y => String.eqb x y
  | _, _ => false
  end.

(** [v != null]: false exactly for [null] and [undefined]. *)
Definition loose_neq_null (v : value) : bool :=
  match v with
  | VUndefined | VNull => false
  | _ => true
  end.

(** *** The properties of a plain object

    A [VObj] lists the properties in the order in which [for ... in],
    [Object.keys] and [JSON.stringify] visit them: first the keys that are
    array indices, ascending, then the other keys in the order in which
    they were added. *)

(** The number a string of decimal digits writes, from [acc] on. *)
Fixpoint digits_value (acc : N) (s : string) : option N :=
  match s with
  | EmptyString => Some acc
  | String c s' =>
      let n := N_of_ascii c in
      if ((48 <=? n) && (n <=? 57))%N
      then digits_value (10 * acc + (n - 48))%N s'
      else None
  end.

(** An array index is the canonical decimal text of an integer from 0 to
    2^32 - 2: digits only, no leading zero. *)
Definition array_index (k : string) : option N :=
  match k with
  | EmptyString => None
  | String c rest =>
      if Ascii.eqb c "0" && negb (String.eqb rest EmptyString) then None
      else n ← digits_value 0 k; if (n <? 4294967295)%N then Some n else None
  end.

Definition is_array_index (k : string) : bool :=
  match array_index k with
  | Some _ => true
  | None => false
  end.

(** A new key [k] is placed ahead of the key [k'] that is already there. *)
Definition comes_before (k k' : string) : bool :=
  match array_index k, array_index k' with
  | Some n, Some n' => (n <? n')%N
  | Some _, None => true
  | None, _ => false
  end.

(** The order of the keys of an object: no key has a later key that would
    have been placed ahead of it. *)
Fixpoint js_ordered (ks : list string) : bool :=
  match ks with
  | [] => true
  | k :: rest => forallb (fun k' => negb (comes_before k' k)) rest && js_ordered rest
  end.

Definition has_key (k : string) (props : list (string * value)) : bool :=
  existsb (fun p => String.eqb p.1 k) props.

(** An existing property changes its value where it stands. *)
Fixpoint overwrite (k : string) (v : value) (props : list (string * value))
  : list (string * value) :=
  match props with
  | [] => []
  | (k', v') :: rest =>
      if String.eqb k' k then (k, v) :: rest else (k', v') :: overwrite k v rest
  end.

(** A new property goes ahead of the first key it comes before, and last
    when there is none. *)
Fixpoint add_prop (k : string) (v : value) (props : list (string * value))
  : list (string * value) :=
  match props with
  | [] => [(k, v)]
  | (k', v') :: rest =>
      if comes_before k k' then (k, v) :: (k', v') :: rest
      else (k', v') :: add_prop k v rest
  end.

(** [obj[k] = v] on a plain object. *)
Definition set_prop (k : string) (v : value) (props : list (string * value))
  : list (string * value) :=
  if has_key k props then overwrite k v props else add_prop k v props.

(** ** Bytes of a [Buffer] *)

Definition byte_of_Z (z : Z) : byte := default x00 (Byte.of_N (Z.to_N z)).
Definition Z_of_byte (b : byte) : Z := Z.of_N (Byte.to_N b).

(** [buf.readUInt8(i)] and [buf.readUInt16BE(i)], for offsets in range. *)
Definition readUInt8 (buf : list byte) (i : nat) : Z :=
  Z_of_byte (nth i buf x00).
Definition readUInt16BE (buf : list byte) (i : nat) : Z :=
  Z.lor (Z.shiftl (readUInt8 buf i) 8) (readUInt8 buf (S i)).

(** The two bytes [buf.writeUInt16BE(v, 1)] stores. *)
Definition writeUInt16BE (v : Z) : list byte :=
  [byte_of_Z (Z.shiftr v 8); byte_of_Z (Z.land v 255)].

(** ** What the core takes from outside

    The event codes of [events.ts], the runtime's JSON and the id
    generator are collaborators of the protocol engine, not part of it. *)

(** The members of the [Events] enumeration that the sources name. *)
Inductive Events : Type :=
  | Authentication | Join | Leave | SetClient | SetClients | Signal.

Class Platform : Type := {
  (** the numeric value of each member of the [Events] enumeration *)
  Events_code : Events -> Z;
  (** [Buffer.from(JSON.stringify(v))] *)
  JSON_stringify : value -> list byte;
  (** [JSON.parse(buf.toString('utf8'))]; [None] is a SyntaxError *)
  JSON_parse : list byte -> option value;
  (** the n-th id [snowflake.generate()] hands out *)
  snowflake_generate : nat -> string;
}.

(** ** Wire codec *)

Section Codec.

Context `{Platform}.

(** [Connection.send], lines 47-55: what gets serialized.  No argument:
    nothing.  Otherwise the first argument alone when it is an object,
    else the array of all the arguments. *)
Definition send_data (data : list value) : option value :=
  match data with
  | [] => None
  | d0 :: _ => Some (if instanceof_Object d0 then d0 else VArr data)
  end.

(** [Connection.send], lines 47-66: the buffer handed to [socket.send],
    or the RangeError of [writeUInt8] / [writeUInt16BE]. *)
Definition send_buf (event : Z) (data : list value) : js_error + list byte :=
  let dataBuf := JSON_stringify <$> send_data data in
  if negb ((0 <=? event) && (event <=? 255)) then inl RangeError else
  let len := from_option (fun b => Z.of_nat (length b)) 0 dataBuf in
  if negb (len <=? 65535) then inl RangeError else
  let buf := byte_of_Z event :: writeUInt16BE len in
  inr (from_option (fun b => buf ++ b) buf dataBuf).

(** What the head of the ['message'] handler makes of a buffer. *)
Inductive decoded : Type :=
  | TooShort                         (* socket.terminate() *)
  | ParseFailed                      (* JSON.parse threw *)
  | Frame (type : Z) (data : value).

(** Head of the ['message'] handler, lines 397-409: the length test, the
    two header fields and, when the declared length is positive, the
    payload parsed from the bytes after the header. *)
Definition decode (buf : list byte) : decoded :=
  if (length buf <? 3)%nat then TooShort else
  let type := readUInt8 buf 0 in
  let len := readUInt16BE buf 1 in
  if 0 <? len then
    match JSON_parse (take (Z.to_nat len) (drop 3 buf)) with
    | Some v => Frame type v
    | None => ParseFailed
    end
  else Frame type VNull.

End Codec.

(** ** The server state

    A [Connection] or a [Room] is named by its reference, the index at
    which it was allocated in its store.  Logging calls change neither the
    state nor any socket and are left out. *)

(** [class Connection].  [id] is assigned right after the only [new
    Connection]; [playerId] and [clientId] start [undefined]; [room] is
    [None] while it is [undefined] or [null]; [isAlive] is never
    initialised, so it starts [undefined] ([None]). *)
Record Connection : Type := mkConnection {
  socket : nat;
  id : string;
  playerId : value;
  clientId : value;
  room : option nat;
  isAlive : option bool;
}.

(** [class Room]: its code and the references of its members. *)
Record Room : Type := mkRoom {
  code : string;
  connections : list nat;
}.

(** The variables the ['connection'] callback closes over, per socket. *)
Record Socket : Type := mkSocket {
  sock_code : option string;     (* let code: string | null = null *)
  connectTimeout : bool;         (* the 5 s timer is armed *)
  connection : option nat;       (* let connection: Connection *)
}.

Record Server : Type := mkServer {
  rooms : gmap string nat;       (* const rooms = new Map<string, Room>() *)
  all_connections : list nat;    (* const connections: Connection[] = [] *)
  connectionCount : Z;
  room_store : list Room;
  conn_store : list Connection;
  sockets : list Socket;
  generated : nat;               (* calls made to snowflake.generate() *)
}.

Definition initial : Server :=
  mkServer ∅ [] 0 [] [] [] 0.

(** What a handler does to the sockets. *)
Inductive effect : Type :=
  | SocketSend (sock : nat) (buf : list byte)
  | SocketTerminate (sock : nat)
  | SocketPing (sock : nat).

(** How a handler ends: it returns, or it throws with the state as the
    throw left it.  [Unmodelled] marks what has no counterpart here: a
    reference outside its store, or an argument whose use depends on
    JavaScript coercions that are not embedded. *)
Inductive outcome (A : Type) : Type :=
  | Ok (a : A) (s : Server) (fx : list effect)
  | Throw (e : js_error) (s : Server) (fx : list effect)
  | Unmodelled.
Arguments Ok {A} a s fx.
Arguments Throw {A} e s fx.
Arguments Unmodelled {A}.

Definition M (A : Type) : Type := Server -> outcome A.

Definition ret {A} (a : A) : M A := fun s => Ok a s [].

(** The effects that came before are put in front of a later outcome. *)
Definition after {A} (fx : list effect) (o : outcome A) : outcome A :=
  match o with
  | Ok a s fx' => Ok a s (fx ++ fx')
  | Throw e s fx' => Throw e s (fx ++ fx')
  | Unmodelled => Unmodelled
  end.

Definition bind {A B} (m : M A) (k : A -> M B) : M B := fun s =>
  match m s with
  | Ok a s1 fx1 => after fx1 (k a s1)
  | Throw e s1 fx1 => Throw e s1 fx1
  | Unmodelled => Unmodelled
  end.

#[global] Instance M_ret : MRet M := @ret.
#[global] Instance M_bind : MBind M := fun A B k m => bind m k.

Definition get : M Server := fun s => Ok s s [].
Definition modify (f : Server -> Server) : M unit := fun s => Ok tt (f s) [].
Definition emit (e : effect) : M unit := fun s => Ok tt s [e].
Definition throw {A} (e : js_error) : M A := fun s => Throw e s [].
Definition unmodelled {A} : M A := fun _ => Unmodelled.
Definition lift {A} (o : option A) : M A := from_option mret unmodelled o.

Fixpoint mapM {A B} (f : A -> M B) (l : list A) : M (list B) :=
  match l with
  | [] => mret []
  | x :: l' => y ← f x; ys ← mapM f l'; mret (y :: ys)
  end.

Fixpoint forEach {A} (f : A -> M unit) (l : list A) : M unit :=
  match l with
  | [] => mret tt
  | x :: l' => f x;; forEach f l'
  end.

(** *** Reading and writing the stores *)

Definition the_connection (c : nat) : M Connection :=
  s ← get; lift (conn_store s !! c).
Definition the_room (r : nat) : M Room :=
  s ← get; lift (room_store s !! r).
Definition the_socket (k : nat) : M Socket :=
  s ← get; lift (sockets s !! k).

Definition update_connection (c : nat) (f : Connection -> Connection) : M unit :=
  modify (fun s => mkServer (rooms s) (all_connections s) (connectionCount s)
                     (room_store s) (alter f c (conn_store s)) (sockets s)
                     (generated s)).
Definition update_room (r : nat) (f : Room -> Room) : M unit :=
  modify (fun s => mkServer (rooms s) (all_connections s) (connectionCount s)
                     (alter f r (room_store s)) (conn_store s) (sockets s)
                     (generated s)).
Definition update_socket (k : nat) (f : Socket -> Socket) : M unit :=
  modify (fun s => mkServer (rooms s) (all_connections s) (connectionCount s)
                     (room_store s) (conn_store s) (alter f k (sockets s))
                     (generated s)).
Definition update_rooms (f : gmap string nat -> gmap string nat) : M unit :=
  modify (fun s => mkServer (f (rooms s)) (all_connections s) (connectionCount s)
                     (room_store s) (conn_store s) (sockets s) (generated s)).
Definition update_all_connections (f : list nat -> list nat) : M unit :=
  modify (fun s => mkServer (rooms s) (f (all_connections s)) (connectionCount s)
                     (room_store s) (conn_store s) (sockets s) (generated s)).
Definition update_connectionCount (f : Z -> Z) : M unit :=
  modify (fun s => mkServer (rooms s) (all_connections s) (f (connectionCount s))
                     (room_store s) (conn_store s) (sockets s) (generated s)).

Definition set_room (r : option nat) (c : Connection) : Connection :=
  mkConnection (socket c) (id c) (playerId c) (clientId c) r (isAlive c).
Definition set_playerId (v : value) (c : Connection) : Connection :=
  mkConnection (socket c) (id c) v (clientId c) (room c) (isAlive c).
Definition set_clientId (v : value) (c : Connection) : Connection :=
  mkConnection (socket c) (id c) (playerId c) v (room c) (isAlive c).
Definition set_isAlive (b : bool) (c : Connection) : Connection :=
  mkConnection (socket c) (id c) (playerId c) (clientId c) (room c) (Some b).

(** [array.indexOf(x)] followed by [splice(index, 1)] when found: the
    first occurrence goes. *)
Fixpoint remove_first (x : nat) (l : list nat) : list nat :=
  match l with
  | [] => []
  | y :: l' => if Nat.eqb y x then l' else y :: remove_first x l'
  end.

(** ** [Room] and [Connection] methods, and the handlers of [index.ts] *)

Section Engine.

Context `{Platform}.

(** [Connection.send]: build the frame and hand it to the socket. *)
Definition Connection_send (c : nat) (event : Events) (data : list value)
  : M unit :=
  this ← the_connection c;
  match send_buf (Events_code event) data with
  | inl e => throw e
  | inr buf => emit (SocketSend (socket this) buf)
  end.

(** [this.connections.filter(test)]: the members that pass, each with
    the object it refers to. *)
Definition Room_filter (r : nat) (test : Connection -> bool)
  : M (list (nat * Connection)) :=
  this ← the_room r;
  members ← mapM (fun c => x ← the_connection c; mret (c, x))
                 (connections this);
  mret (List.filter (fun m => test m.2) members).

(** [Room.broadcast] *)
Definition Room_broadcast (r : nat) (test : Connection -> bool)
    (event : Events) (args : list value) : M unit :=
  targets ← Room_filter r test;
  forEach (fun m => Connection_send m.1 event args) targets.

(** [Room.count] *)
Definition Room_count (r : nat) : M Z :=
  this ← the_room r; mret (Z.of_nat (length (connections this))).

(** [Room.find]: the first member whose id is [==] to the one asked
    for, both being strings. *)
Definition Room_find (r : nat) (peer : string) : M (option nat) :=
  found ← Room_filter r (fun s => String.eqb (id s) peer);
  mret (fst <$> head found).

(** [Room.add] *)
Definition Room_add (r : nat) (c : nat) : M unit :=
  update_room r (fun this => mkRoom (code this) (connections this ++ [c])).

(** [Room.remove] *)
Definition Room_remove (r : nat) (c : nat) : M unit :=
  update_room r (fun this => mkRoom (code this) (remove_first c (connections this))).

(** [Room.clients]: the object built from the members that pass [test]
    and have a truthy [playerId]. *)
Definition clients_of (members : list (nat * Connection)) : value :=
  VObj (fold_left
          (fun ids m =>
             let s := m.2 in
             if truthy (playerId s)
             then set_prop (id s)
                    (VObj [("id"%string, playerId s);
                           ("clientId"%string, clientId s)]) ids
             else ids)
          members []).

Definition Room_clients (r : nat) (test : Connection -> bool) : M value :=
  members ← Room_filter r test;
  mret (clients_of members).

(** [Connection.join] *)
Definition Connection_join (c : nat) (r : nat) (pid : value) : M unit :=
  update_connection c (set_room (Some r));;
  update_connection c (set_playerId pid);;
  Room_add r c;;
  this ← the_connection c;
  Room_broadcast r (fun x => negb (String.eqb (id x) (id this))) Join
    [VStr (id this); playerId this];;
  snapshot ← Room_clients r (fun x => negb (String.eqb (id x) (id this)));
  Connection_send c SetClients [snapshot].

(** [Connection.leave]: [this.room.remove(this)] throws when [this.room]
    is [undefined] or [null]. *)
Definition Connection_leave (c : nat) : M unit :=
  this ← the_connection c;
  match room this with
  | None => throw TypeError
  | Some r =>
      Room_remove r c;;
      update_connection c (set_room None)
  end.

(** [Connection.setId] *)
Definition Connection_setId (c : nat) (pid cid : value) : M unit :=
  update_connection c (set_playerId pid);;
  update_connection c (set_clientId cid);;
  this ← the_connection c;
  match room this with
  | Some r =>
      Room_broadcast r (fun x => negb (String.eqb (id x) (id this))) SetClient
        [VObj [("id"%string, playerId this); ("clientId"%string, clientId this)]]
  | None => mret tt
  end.

(** [wss.on('connection')]: a new socket and its closure variables; the
    result is the socket's number. *)
Definition on_connection : M nat :=
  update_connectionCount (fun n => n + 1);;
  s ← get;
  modify (fun s => mkServer (rooms s) (all_connections s) (connectionCount s)
                     (room_store s) (conn_store s)
                     (sockets s ++ [mkSocket None true None]) (generated s));;
  mret (length (sockets s)).

(** The 5 second timer of a socket fires. *)
Definition on_connectTimeout (k : nat) : M unit :=
  sock ← the_socket k;
  if connectTimeout sock then emit (SocketTerminate k) else mret tt.

(** [socket.on('authenticate')] *)
Definition on_authenticate (k : nat) (data : value) : M unit :=
  the_socket k;;
  s ← get;
  let new_id := snowflake_generate (generated s) in
  let c := length (conn_store s) in
  modify (fun s => mkServer (rooms s) (all_connections s ++ [c])
                     (connectionCount s) (room_store s)
                     (conn_store s ++ [mkConnection k new_id VUndefined VUndefined None None])
                     (alter (fun sock => mkSocket (sock_code sock) false (Some c)) k (sockets s))
                     (S (generated s)));;
  Connection_send c Authentication [VObj [("id"%string, VStr new_id)]].

(** The loop of the ['join'] handler: does a member of the room hold
    the asserted [clientId]? *)
Definition spoofs (cid : value) (members : list (nat * Connection)) : bool :=
  existsb (fun m => negb (strict_eq (clientId m.2) VNull)
                    && strict_eq (clientId m.2) cid) members.

(** [socket.on('join')] *)
Definition on_join (k : nat) (c : string) (pid cid : value) : M unit :=
  sock ← the_socket k;
  match connection sock with
  | None => emit (SocketTerminate k)
  | Some conn =>
      update_socket k (fun sock => mkSocket (Some c) (connectTimeout sock) (connection sock));;
      s ← get;
      r ← match rooms s !! c with
          | Some r => mret r
          | None =>
              let r := length (room_store s) in
              modify (fun s => mkServer (<[c := r]> (rooms s)) (all_connections s)
                                 (connectionCount s) (room_store s ++ [mkRoom c []])
                                 (conn_store s) (sockets s) (generated s));;
              mret r
          end;
      members ← Room_filter r (fun _ => true);
      if spoofs cid members
      then emit (SocketTerminate k)
      else Connection_join conn r pid
  end.

(** The tail shared by ['leave'] and ['close']:
    [if (room.count() < 1) rooms.delete(room.code)]. *)
Definition delete_if_empty (r : nat) : M unit :=
  n ← Room_count r;
  if n <? 1
  then this ← the_room r; update_rooms (delete (code this))
  else mret tt.

(** [socket.on('leave')] *)
Definition on_leave (k : nat) : M unit :=
  sock ← the_socket k;
  match connection sock with
  | None => mret tt
  | Some conn =>
      this ← the_connection conn;
      match room this with
      | None => mret tt
      | Some r => Connection_leave conn;; delete_if_empty r
      end
  end.

(** [socket.on('client')] *)
Definition on_client (k : nat) (pid cid : value) : M unit :=
  sock ← the_socket k;
  match connection sock with
  | None => mret tt
  | Some conn =>
      this ← the_connection conn;
      if loose_neq_null (clientId this) && negb (strict_eq (clientId this) cid)
      then emit (SocketTerminate k)
      else Connection_setId conn pid cid
  end.

(** [socket.on('signal')]: [connection.room.find(peer)] throws when the
    room is [undefined] or [null]. *)
Definition on_signal (k : nat) (peer : string) (data : value) : M unit :=
  sock ← the_socket k;
  match connection sock with
  | None => mret tt
  | Some conn =>
      this ← the_connection conn;
      match room this with
      | None => throw TypeError
      | Some r =>
          peerConnection ← Room_find r peer;
          match peerConnection with
          | Some p => Connection_send p Signal [VStr (id this); data]
          | None => mret tt
          end
      end
  end.

(** [socket.on('close')] *)
Definition on_close (k : nat) : M unit :=
  update_connectionCount (fun n => n - 1);;
  sock ← the_socket k;
  match connection sock with
  | None => mret tt
  | Some conn =>
      this ← the_connection conn;
      let room := room this in
      Connection_leave conn;;
      from_option delete_if_empty (throw TypeError) room;;
      update_all_connections (remove_first conn)
  end.

(** [socket.on('pong')]: assigning to a property of [undefined] throws. *)
Definition on_pong (k : nat) : M unit :=
  sock ← the_socket k;
  match connection sock with
  | None => throw TypeError
  | Some conn => update_connection conn (set_isAlive true)
  end.

(** The body of the 30 second interval, [ping]. *)
Definition ping_one (c : nat) : M unit :=
  this ← the_connection c;
  match isAlive this with
  | Some false => emit (SocketTerminate (socket this))
  | _ =>
      update_connection c (set_isAlive false);;
      emit (SocketPing (socket this))
  end.

Definition ping : M unit :=
  s ← get; forEach ping_one (all_connections s).

(** [data?.length < n] in the ['message'] handler.  [null] has no
    [length]: the comparison is [undefined < n], which is false, as it is
    for a number or a boolean.  A string or an object payload is not
    embedded. *)
Definition shorter_than (data : value) (n : Z) : M bool :=
  match data with
  | VArr elems => mret (Z.of_nat (length elems) <? n)
  | VUndefined | VNull | VBool _ | VNum _ => mret false
  | VStr _ | VObj _ => unmodelled
  end.

(** [data[i]]: throws on [null]. *)
Definition index (data : value) (i : nat) : M value :=
  match data with
  | VArr elems => mret (nth i elems VUndefined)
  | VUndefined | VNull => throw TypeError
  | VBool _ | VNum _ => mret VUndefined
  | VStr _ | VObj _ => unmodelled
  end.

(** An argument passed where the handler declares a [string]. *)
Definition as_string (v : value) : M string :=
  match v with
  | VStr s => mret s
  | _ => unmodelled
  end.

(** [socket.on('message')]: decode, then the [switch] on the event
    code, each case calling the handler that [socket.emit] names. *)
Definition on_message (k : nat) (buf : list byte) : M unit :=
  the_socket k;;
  match decode buf with
  | TooShort => emit (SocketTerminate k)
  | ParseFailed => throw SyntaxError
  | Frame type data =>
      if type =? Events_code Authentication then
        if negb (truthy data) then emit (SocketTerminate k)
        else on_authenticate k data
      else if type =? Events_code Join then
        short ← shorter_than data 3;
        if (short : bool) then emit (SocketTerminate k)
        else
          d0 ← index data 0; d1 ← index data 1; d2 ← index data 2;
          c ← as_string d0;
          on_join k c d1 d2
      else if type =? Events_code Leave then
        on_leave k
      else if type =? Events_code SetClient then
        short ← shorter_than data 2;
        if (short : bool) then emit (SocketTerminate k)
        else
          d0 ← index data 0; d1 ← index data 1;
          on_client k d0 d1
      else if type =? Events_code Signal then
        short ← shorter_than data 2;
        if (short : bool) then emit (SocketTerminate k)
        else
          d0 ← index data 0; d1 ← index data 1;
          peer ← as_string d0;
          on_signal k peer d1
      else emit (SocketTerminate k)
  end.

(** What can happen to the server, and the handler each event runs. *)
Inductive event : Type :=
  | EConnection
  | EConnectTimeout (k : nat)
  | EMessage (k : nat) (buf : list byte)
  | EAuthenticate (k : nat) (data : value)
  | EJoin (k : nat) (c : string) (pid cid : value)
  | ELeave (k : nat)
  | EClient (k : nat) (pid cid : value)
  | ESignal (k : nat) (peer : string) (data : value)
  | EClose (k : nat)
  | EPong (k : nat)
  | EPing.

Definition handle (e : event) : M unit :=
  match e with
  | EConnection => on_connection;; mret tt
  | EConnectTimeout k => on_connectTimeout k
  | EMessage k buf => on_message k buf
  | EAuthenticate k data => on_authenticate k data
  | EJoin k c pid cid => on_join k c pid cid
  | ELeave k => on_leave k
  | EClient k pid cid => on_client k pid cid
  | ESignal k peer data => on_signal k peer data
  | EClose k => on_close k
  | EPong k => on_pong k
  | EPing => ping
  end.

(** A run of events; an exception no handler catches ends it. *)
Definition run (es : list event) : M unit := forEach handle es.

End Engine.

(** ** Admission: [server.on('upgrade')]

    The user agent must match
    [/^CrewLink\/(\d+\.\d+\.\d+) \((\w+)\)$/] and carry a supported
    version.  A header is a string of one-byte characters. *)

(** [\d] *)
Definition regex_digit (c : ascii) : bool :=
  let n := N_of_ascii c in ((48 <=? n) && (n <=? 57))%N.

(** [\w]: a digit, a letter or the underscore. *)
Definition regex_word (c : ascii) : bool :=
  let n := N_of_ascii c in
  (((48 <=? n) && (n <=? 57)) || ((65 <=? n) && (n <=? 90))
   || ((97 <=? n) && (n <=? 122)) || (n =? 95))%N.

(** The longest run of characters that pass [p], and what follows it. *)
Fixpoint span (p : ascii -> bool) (s : string) : string * string :=
  match s with
  | String c s' =>
      if p c then let '(run, rest) := span p s' in (String c run, rest)
      else (EmptyString, s)
  | EmptyString => (EmptyString, EmptyString)
  end.

(** A greedy [p+].  In the pattern every [p+] is followed by a character
    that does not pass [p], so a shorter run never matches where the
    longest one does not. *)
Definition plus (p : ascii -> bool) (s : string) : option (string * string) :=
  match span p s with
  | (EmptyString, _) => None
  | (run, rest) => Some (run, rest)
  end.

(** The characters [lit], literally; the result is what follows them. *)
Fixpoint literal (lit s : string) : option string :=
  match lit with
  | EmptyString => Some s
  | String c lit' =>
      match s with
      | String d s' => if Ascii.eqb c d then literal lit' s' else None
      | EmptyString => None
      end
  end.

(** [regex.exec(userAgent)]: the two groups of a match. *)
Definition user_agent_exec (userAgent : string) : option (string * string) :=
  s ← literal "CrewLink/" userAgent;
  '(major, s) ← plus regex_digit s;
  s ← literal "." s;
  '(minor, s) ← plus regex_digit s;
  s ← literal "." s;
  '(patch, s) ← plus regex_digit s;
  s ← literal " (" s;
  '(platform, s) ← plus regex_word s;
  s ← literal ")" s;
  match s with
  | EmptyString => Some ((major ++ "." ++ minor ++ "." ++ patch)%string, platform)
  | _ => None
  end.

(** [new Set(['1.2.0'])] *)
Definition supportedCrewLinkVersions : list string := ["1.2.0"%string].

(** What the handler does with the request: it hands the socket to the
    ['connection'] handler, or closes it with a code and a reason. *)
Inductive admission : Type :=
  | EmitConnection
  | CloseSocket (code : Z) (reason : string).

(** The reason of a refusal. *)
Definition unsupported : string :=
  ("The voice server does not support your version of CrewLink."
   ++ String "010" "Supported versions: "
   ++ String.concat "," supportedCrewLinkVersions)%string.

(** [server.on('upgrade')]; a request without the header has
    [undefined] for user agent, which [exec] reads as the text
    [undefined]. *)
Definition on_upgrade (userAgent : option string) : admission :=
  match user_agent_exec (default "undefined"%string userAgent) with
  | None => CloseSocket 4000 unsupported
  | Some (version, _) =>
      if existsb (String.eqb version) supportedCrewLinkVersions
      then EmitConnection
      else CloseSocket 4000 unsupported
  end.

(** ** A reference platform

    Used to run the handlers on concrete inputs: event codes numbered from
    0 in the order of the enumeration, ids numbered from 1, and compact
    JSON as [JSON.stringify] prints it, for integers and for strings of
    ASCII characters.  The parser reads such text: no white space, no
    fraction or exponent, [\u00XX] as the only escape by code; an integer
    is kept as written, however large. *)

Module Reference.

Local Open Scope string_scope.

Definition dquote : ascii := "034"%char.
Definition backslash : ascii := "092"%char.

Definition hex_digit (n : N) : ascii :=
  ascii_of_N (if (n <? 10)%N then 48 + n else 87 + n).

(** One character inside a JSON string literal. *)
Definition escape_char (c : ascii) : string :=
  let n := N_of_ascii c in
  if Ascii.eqb c dquote then String backslash (String dquote EmptyString)
  else if Ascii.eqb c backslash then String backslash (String backslash EmptyString)
  else if (n =? 8)%N then String backslash "b"
  else if (n =? 9)%N then String backslash "t"
  else if (n =? 10)%N then String backslash "n"
  else if (n =? 12)%N then String backslash "f"
  else if (n =? 13)%N then String backslash "r"
  else if (n <? 32)%N then
    String backslash
      ("u00" ++ String (hex_digit (n / 16)) (String (hex_digit (n mod 16)) EmptyString))
  else String c EmptyString.

Fixpoint escape (s : string) : string :=
  match s with
  | EmptyString => EmptyString
  | String c s' => escape_char c ++ escape s'
  end.

Definition quote (s : string) : string :=
  String dquote (escape s ++ String dquote EmptyString).

Definition number (n : Z) : string :=
  pretty n.

(** [JSON.stringify]: inside an array [undefined] prints as [null],
    inside an object a property whose value is [undefined] is left out. *)
Fixpoint stringify (v : value) : string :=
  match v with
  | VUndefined | VNull => "null"
  | VBool true => "true"
  | VBool false => "false"
  | VNum n => number n
  | VStr s => quote s
  | VArr elems => "[" ++ String.concat "," (List.map stringify elems) ++ "]"
  | VObj props =>
      "{" ++ String.concat ","
               (omap (fun p => match p.2 with
                               | VUndefined => None
                               | _ => Some (quote p.1 ++ ":" ++ stringify p.2)
                               end) props)
          ++ "}"
  end.

(** *** Parsing *)

Definition is_digit (c : ascii) : bool :=
  let n := N_of_ascii c in ((48 <=? n) && (n <=? 57))%N.

Fixpoint parse_digits (acc : Z) (s : list ascii) : Z * list ascii :=
  match s with
  | c :: s' =>
      if is_digit c
      then parse_digits (10 * acc + (Z.of_N (N_of_ascii c) - 48)) s'
      else (acc, s)
  | [] => (acc, [])
  end.

Definition unhex (c : ascii) : option N :=
  let n := N_of_ascii c in
  if is_digit c then Some (n - 48)%N
  else if ((97 <=? n) && (n <=? 102))%N then Some (n - 87)%N
  else if ((65 <=? n) && (n <=? 70))%N then Some (n - 55)%N
  else None.

(** The characters of a string literal, after its opening quote. *)
Fixpoint parse_chars (s : list ascii) : option (string * list ascii) :=
  match s with
  | [] => None
  | c :: s' =>
      if Ascii.eqb c dquote then Some (EmptyString, s')
      else if Ascii.eqb c backslash then
        match s' with
        | "u"%char :: "0"%char :: "0"%char :: h :: l :: s'' =>
            hi ← unhex h; lo ← unhex l;
            '(str, rest) ← parse_chars s'';
            Some (String (ascii_of_N (16 * hi + lo)) str, rest)
        | e :: s'' =>
            c' ← (if Ascii.eqb e dquote then Some dquote
                  else if Ascii.eqb e backslash then Some backslash
                  else match e with
                       | "/"%char => Some "/"%char
                       | "b"%char => Some "008"%char
                       | "t"%char => Some "009"%char
                       | "n"%char => Some "010"%char
                       | "f"%char => Some "012"%char
                       | "r"%char => Some "013"%char
                       | _ => None
                       end);
            '(str, rest) ← parse_chars s'';
            Some (String c' str, rest)
        | [] => None
        end
      else
        '(str, rest) ← parse_chars s';
        Some (String c str, rest)
  end.

Fixpoint parse_value (fuel : nat) (s : list ascii) : option (value * list ascii) :=
  match fuel with
  | O => None
  | S fuel =>
      match s with
      | "n"%char :: "u"%char :: "l"%char :: "l"%char :: r => Some (VNull, r)
      | "t"%char :: "r"%char :: "u"%char :: "e"%char :: r => Some (VBool true, r)
      | "f"%char :: "a"%char :: "l"%char :: "s"%char :: "e"%char :: r =>
          Some (VBool false, r)
      | "["%char :: "]"%char :: r => Some (VArr [], r)
      | "["%char :: r =>
          '(elems, r') ← parse_elements fuel r; Some (VArr elems, r')
      | "{"%char :: "}"%char :: r => Some (VObj [], r)
      | "{"%char :: r =>
          '(props, r') ← parse_members fuel r;
          Some (VObj (fold_left (fun o p => set_prop p.1 p.2 o) props []), r')
      | "-"%char :: c :: r =>
          if is_digit c
          then let '(n, r') := parse_digits 0 (c :: r) in Some (VNum (- n), r')
          else None
      | c :: r =>
          if Ascii.eqb c dquote then
            '(str, r') ← parse_chars r; Some (VStr str, r')
          else if is_digit c then
            let '(n, r') := parse_digits 0 (c :: r) in Some (VNum n, r')
          else None
      | [] => None
      end
  end
with parse_elements (fuel : nat) (s : list ascii)
  : option (list value * list ascii) :=
  match fuel with
  | O => None
  | S fuel =>
      '(v, r) ← parse_value fuel s;
      match r with
      | ","%char :: r' =>
          '(vs, r'') ← parse_elements fuel r'; Some (v :: vs, r'')
      | "]"%char :: r' => Some ([v], r')
      | _ => None
      end
  end
with parse_members (fuel : nat) (s : list ascii)
  : option (list (string * value) * list ascii) :=
  match fuel with
  | O => None
  | S fuel =>
      match s with
      | q :: s' =>
          if Ascii.eqb q dquote then
            '(k, r) ← parse_chars s';
            match r with
            | ":"%char :: r0 =>
                '(v, r1) ← parse_value fuel r0;
                match r1 with
                | ","%char :: r2 =>
                    '(ps, r3) ← parse_members fuel r2; Some ((k, v) :: ps, r3)
                | "}"%char :: r2 => Some ([(k, v)], r2)
                | _ => None
                end
            | _ => None
            end
          else None
      | [] => None
      end
  end.

Definition parse (buf : list byte) : option value :=
  let s := ascii_of_byte <$> buf in
  '(v, rest) ← parse_value (S (length s)) s;
  match rest with
  | [] => Some v
  | _ => None
  end.

(** *** What round-trips *)

Abbreviation chars := list_ascii_of_string.

(** The text after a number does not go on with a digit. *)
Definition no_digit_ahead (rest : list ascii) : Prop :=
  match rest with
  | c :: _ => is_digit c = false
  | [] => True
  end.

(** Values that [JSON.parse] can produce and [JSON.stringify] prints in
    full: no [undefined] anywhere, no key twice in an object, and the keys
    of an object in the order in which the object lists them. *)
Fixpoint is_json (v : value) : bool :=
  match v with
  | VUndefined => false
  | VNull | VBool _ | VNum _ | VStr _ => true
  | VArr elems => forallb is_json elems
  | VObj props =>
      bool_decide (NoDup props.*1) && js_ordered props.*1
      && forallb (fun p => is_json p.2) props
  end.

(** The fuel that parsing the text of a value takes. *)
Fixpoint weight (v : value) : nat :=
  match v with
  | VArr elems => S (list_sum (List.map (fun x => S (weight x)) elems))
  | VObj props => S (list_sum (List.map (fun p => S (weight p.2)) props))
  | _ => 1
  end.

(** The parser reads the text of [v] back, whatever follows it. *)
Definition parses (v : value) : Prop :=
  is_json v = true ->
  forall fuel rest, (weight v <= fuel)%nat -> no_digit_ahead rest ->
    parse_value fuel (chars (stringify v) ++ rest) = Some (v, rest).

(** The text of one property of an object. *)
Definition member (p : string * value) : string :=
  (quote p.1 ++ ":" ++ stringify p.2)%string.

Definition code_of (e : Events) : Z :=
  match e with
  | Authentication => 0
  | Join => 1
  | Leave => 2
  | SetClient => 3
  | SetClients => 4
  | Signal => 5
  end.

#[local] Instance platform : Platform := {|
  Events_code := code_of;
  JSON_stringify := fun v => list_byte_of_string (stringify v);
  JSON_parse := parse;
  snowflake_generate := fun n => number (Z.of_nat (S n));
|}.

End Reference.

(** * What the properties are stated with *)

Section Vocabulary.

Context `{Platform}.

(** The round trip as the specification words it: the frame built for
    a payload decodes to the event code and that payload. *)
Definition round_trips (ev : Z) (payload : value) : Prop :=
  exists frame, send_buf ev [payload] = inr frame /\ decode frame = Frame ev payload.

End Vocabulary.

(** The socket is terminated in the course of an outcome. *)
Definition terminates {A} (o : outcome A) (k : nat) : Prop :=
  match o with
  | Ok _ _ fx | Throw _ _ fx => SocketTerminate k ∈ fx
  | Unmodelled => False
  end.

(** The state a run ends in. *)
Definition state_of (o : outcome unit) : Server :=
  match o with
  | Ok _ s _ | Throw _ s _ => s
  | Unmodelled => initial
  end.

(** The state the server is in after the events [es], from the start. *)
Definition state_after `{Platform} (es : list event) : Server :=
  state_of (run es initial).

(** Connection [c] is in the member list of the room registered under
    [code]. *)
Definition in_room (s : Server) (c : nat) (code : string) : Prop :=
  exists r rm,
    rooms s !! code = Some r /\ room_store s !! r = Some rm /\ c ∈ connections rm.

(** No connection is in the member lists of two registered rooms. *)
Definition one_room (s : Server) : Prop :=
  forall c code1 code2, in_room s c code1 -> in_room s c code2 -> code1 = code2.

(** [c.isAlive === false] *)
Definition evicts (x : Connection) : bool :=
  match isAlive x with
  | Some false => true
  | _ => false
  end.

(** What one pass of the sweep does to the socket of a connection. *)
Definition ping_effect (x : Connection) : effect :=
  if evicts x then SocketTerminate (socket x) else SocketPing (socket x).

(** The effects of a pass over [refs], in the order of the pass. *)
Definition ping_effects (s : Server) (refs : list nat) : list effect :=
  omap (fun c => ping_effect <$> conn_store s !! c) refs.

(** A pong from one of the sockets [ks] reaches connection [c]. *)
Definition answered (s : Server) (ks : list nat) (c : nat) : bool :=
  existsb (fun k => match sockets s !! k with
                    | Some sock => bool_decide (connection sock = Some c)
                    | None => false
                    end) ks.

(** ** States that a run reaches

    The references kept in the registry, in the member lists and in the
    sockets' closures point into the connection store, and the registry
    holds no connection twice. *)

(** [c] refers to a connection that has been allocated. *)
Definition valid (s : Server) (c : nat) : Prop :=
  (c < length (conn_store s))%nat.

(** The state is well formed. *)
Record wf (s : Server) : Prop := mk_wf {
  wf_nodup : NoDup (all_connections s);
  wf_registry : Forall (valid s) (all_connections s);
  wf_members : Forall (fun rm => Forall (valid s) (connections rm)) (room_store s);
  wf_sockets :
    Forall (fun sock => forall c, connection sock = Some c -> valid s c) (sockets s);
}.

(** Well formed, and [c] is one of the connections: what holds between
    the moment a handler reads its socket's connection and the moment it
    stores the reference somewhere. *)
Definition wf_with (c : nat) (s : Server) : Prop := wf s /\ valid s c.

(** When [m] returns from a state with [P], the result and the new state
    have [Q]. *)
Definition hoare {A} (P : Server -> Prop) (m : M A) (Q : A -> Server -> Prop)
  : Prop :=
  forall s a s' fx, P s -> m s = Ok a s' fx -> Q a s'.

(** [m] keeps [P]. *)
Definition preserves {A} (P : Server -> Prop) (m : M A) : Prop :=
  hoare P m (fun _ => P).

(** ** More of the state

    What the handlers read and keep, beyond the references. *)

(** The objects a list of references names, each with its reference. *)
Definition members_of (s : Server) (refs : list nat) : list (nat * Connection) :=
  omap (fun c => pair c <$> conn_store s !! c) refs.

(** [(c) => c.id !== id], the test of every broadcast. *)
Definition other_than (i : string) (x : Connection) : bool :=
  negb (String.eqb (id x) i).

(** The frame goes to the socket of each of the members, in order. *)
Definition sends_to (members : list (nat * Connection)) (buf : list byte)
  : list effect :=
  (fun m => SocketSend (socket m.2) buf) <$> members.

(** The entry of a member in the object [Room.clients] builds. *)
Definition client_entry (m : nat * Connection) : string * value :=
  (id m.2, VObj [("id"%string, playerId m.2); ("clientId"%string, clientId m.2)]).

(** The members [Room.clients] lists: they pass the test and have a truthy
    [playerId]. *)
Definition listed (test : Connection -> bool) (members : list (nat * Connection))
  : list (nat * Connection) :=
  List.filter (fun m => truthy (playerId m.2)) (List.filter (fun m => test m.2) members).

(** Every connection carries the id the generator handed out for it. *)
Definition ids_ok `{Platform} (s : Server) : Prop :=
  generated s = length (conn_store s) /\
  forall c x, conn_store s !! c = Some x -> id x = snowflake_generate c.

(** The timer of a socket is armed exactly while the socket has no
    connection. *)
Definition timers_ok (s : Server) : Prop :=
  Forall (fun sock => connectTimeout sock
                      = match connection sock with None => true | Some _ => false end)
         (sockets s).

(** The room map and the rooms agree: a registered room carries the code
    it is registered under and has a member, a room with a member is
    registered, and the room a connection refers to has the connection
    among its members. *)
Record rooms_ok (s : Server) : Prop := mk_rooms_ok {
  registered_room : forall c r, rooms s !! c = Some r ->
    exists rm, room_store s !! r = Some rm /\ code rm = c /\ connections rm <> [];
  occupied_room : forall r rm, room_store s !! r = Some rm ->
    connections rm <> [] -> rooms s !! code rm = Some r;
  back_reference : forall c x r, conn_store s !! c = Some x -> room x = Some r ->
    exists rm, room_store s !! r = Some rm /\ c ∈ connections rm;
}.

(** The sockets accepted less the sockets closed, among the events. *)
Fixpoint open_sockets (es : list event) : Z :=
  match es with
  | [] => 0
  | EConnection :: es' => open_sockets es' + 1
  | EClose _ :: es' => open_sockets es' - 1
  | _ :: es' => open_sockets es'
  end.

(** The connection a socket refers to is allocated and was created for
    that socket. *)
Definition owner_ok (s : Server) : Prop :=
  forall k sock c, sockets s !! k = Some sock -> connection sock = Some c ->
    exists x, conn_store s !! c = Some x /\ socket x = k.

(** How often connection [c] is in the member list of room [r]. *)
Definition occurrences (s : Server) (c r : nat) : nat :=
  count_occ Nat.eq_dec (from_option connections [] (room_store s !! r)) c.

(** [c.room] is room [r]. *)
Definition is_in (s : Server) (c r : nat) : bool :=
  bool_decide (conn_store s !! c ≫= room = Some r).

(** The occurrences of [c] in the member list of [r] that [c.room] does
    not account for: [Connection.leave] will not take them out. *)
Definition ghosts (s : Server) (c r : nat) : nat :=
  (occurrences s c r - (if is_in s c r then 1 else 0))%nat.

(** The socket an event is for. *)
Definition socket_of (e : event) : option nat :=
  match e with
  | EConnection | EPing => None
  | EConnectTimeout k | EMessage k _ | EAuthenticate k _ | EJoin k _ _ _
  | ELeave k | EClient k _ _ | ESignal k _ _ | EClose k | EPong k => Some k
  end.

(** The event is a frame, as opposed to the events the server emits to
    itself and the ones the socket library raises. *)
Definition is_message (e : event) : bool :=
  match e with
  | EMessage _ _ => true
  | _ => false
  end.

(** The socket has a connection, and the connection is in no room. *)
Definition roomless (s : Server) (k : nat) : bool :=
  match sockets s !! k with
  | Some sock =>
      match connection sock with
      | Some conn =>
          match conn_store s !! conn with
          | Some x => bool_decide (room x = None)
          | None => false
          end
      | None => false
      end
  | None => false
  end.

(** The socket has no connection. *)
Definition unauthenticated (s : Server) (k : nat) : bool :=
  match sockets s !! k with
  | Some sock => bool_decide (connection sock = None)
  | None => false
  end.

(** The events whose handler reads a property of [undefined] or [null]:
    [connection.room.find], [this.room.remove] and [connection.isAlive]. *)
Definition type_error (s : Server) (e : event) : bool :=
  match e with
  | ESignal k _ _ | EClose k => roomless s k
  | EPong k => unauthenticated s k
  | _ => false
  end.

(** The outcome is a return, or the RangeError of a frame that cannot be
    built. *)
Definition range_or_ok {A} (o : outcome A) : Prop :=
  match o with
  | Ok _ _ _ => True
  | Throw e _ _ => e = RangeError
  | Unmodelled => False
  end.

(** ** Runs on the reference platform *)

Section ScenarioStates.

#[local] Existing Instance Reference.platform.

(** One socket has authenticated, joined room ABCD as player 0 and set its
    client id to 100; a second socket has authenticated. *)
Definition lobby_events : list event :=
  [EConnection; EAuthenticate 0 (VObj []);
   EJoin 0 "ABCD" (VNum 0) (VNum 100);
   EClient 0 (VNum 0) (VNum 100);
   EConnection; EAuthenticate 1 (VObj [])].

Definition lobby : Server := state_after lobby_events.

(** A socket that has connected and not authenticated. *)
Definition fresh : Server := state_after [EConnection].

(** The frame a client sends for SetClient(1, 100). *)
Definition setclient_frame : list byte :=
  byte_of_Z 3 :: writeUInt16BE 7 ++ list_byte_of_string "[1,100]".

(** One socket authenticates and sends two Joins, for rooms A and B. *)
Definition two_joins : list event :=
  [EConnection; EAuthenticate 0 (VObj []);
   EJoin 0 "A" (VNum 1) (VNum 100); EJoin 0 "B" (VNum 1) (VNum 100)].

(** Two sockets are in room ABCD, as players 1 and 2 with client ids 100
    and 200; a third socket has authenticated. *)
Definition party_events : list event :=
  [EConnection; EAuthenticate 0 (VObj []);
   EJoin 0 "ABCD" (VNum 1) (VNum 100); EClient 0 (VNum 1) (VNum 100);
   EConnection; EAuthenticate 1 (VObj []);
   EJoin 1 "ABCD" (VNum 2) (VNum 200); EClient 1 (VNum 2) (VNum 200);
   EConnection; EAuthenticate 2 (VObj [])].

Definition party : Server := state_after party_events.

(** Two sockets authenticate in one order and enter room ABCD in the
    other: the member list has the connection with id 2 ahead of the one
    with id 1. *)
Definition crossed_events : list event :=
  [EConnection; EAuthenticate 0 (VObj []);
   EConnection; EAuthenticate 1 (VObj []);
   EJoin 1 "ABCD" (VNum 2) (VNum 200); EClient 1 (VNum 2) (VNum 200);
   EJoin 0 "ABCD" (VNum 1) (VNum 100); EClient 0 (VNum 1) (VNum 100)].

Definition crossed : Server := state_after crossed_events.

End ScenarioStates.

(** * Properties *)

(** ** Bytes *)

Lemma Z_of_byte_of_Z (z : Z) : 0 <= z <= 255 -> Z_of_byte (byte_of_Z z) = z.
Proof.
  intros Hz. unfold Z_of_byte, byte_of_Z.
  destruct (Byte.of_N (Z.to_N z)) as [b|] eqn:Hb.
  - cbn. apply Byte.to_of_N in Hb. rewrite Hb. lia.
  - apply Byte.of_N_None_iff in Hb. lia.
Qed.

Lemma uint16_split (v : Z) :
  Z.lor (Z.shiftl (Z.shiftr v 8) 8) (Z.land v 255) = v.
Proof.
  apply Z.bits_inj'. intros n Hn.
  rewrite Z.lor_spec, Z.land_spec.
  change 255 with (Z.ones 8).
  destruct (Z.ltb_spec n 8) as [Hlt|Hge].
  - rewrite Z.shiftl_spec_low by lia.
    rewrite Z.ones_spec_low by lia. cbn. now rewrite andb_true_r.
  - rewrite Z.shiftl_spec by lia. rewrite Z.shiftr_spec by lia.
    rewrite Z.ones_spec_high by lia. rewrite andb_false_r, orb_false_r.
    f_equal. lia.
Qed.

Lemma uint16_high (v : Z) : 0 <= v <= 65535 -> 0 <= Z.shiftr v 8 <= 255.
Proof.
  intros Hv. rewrite Z.shiftr_div_pow2 by lia. change (2 ^ 8) with 256.
  split; [apply Z.div_pos; lia|].
  assert (v / 256 < 256) by (apply Z.div_lt_upper_bound; lia). lia.
Qed.

Lemma uint16_low (v : Z) : 0 <= Z.land v 255 <= 255.
Proof.
  assert (Hland : Z.land v 255 = v mod 2 ^ 8) by (apply (Z.land_ones v 8); lia).
  rewrite Hland. change (2 ^ 8) with 256.
  pose proof (Z.mod_pos_bound v 256 ltac:(lia)). lia.
Qed.

(** What [writeUInt16BE] stores, [readUInt16BE] reads back. *)
Lemma readUInt16BE_header (b0 : byte) (v : Z) (rest : list byte) :
  0 <= v <= 65535 ->
  readUInt16BE (b0 :: writeUInt16BE v ++ rest) 1 = v.
Proof.
  intros Hv. unfold readUInt16BE, readUInt8, writeUInt16BE. cbn [nth app].
  rewrite !Z_of_byte_of_Z by auto using uint16_high, uint16_low.
  apply uint16_split.
Qed.

(** ** The wire codec *)

Section CodecProperties.

Context `{Platform}.

(** The frame [send] builds when there is something to serialize. *)
Lemma send_buf_payload (ev : Z) (data : list value) (w : value) :
  0 <= ev <= 255 ->
  send_data data = Some w ->
  Z.of_nat (length (JSON_stringify w)) <= 65535 ->
  send_buf ev data =
    inr (byte_of_Z ev
           :: writeUInt16BE (Z.of_nat (length (JSON_stringify w)))
           ++ JSON_stringify w).
Proof.
  intros Hev Hw Hlen. unfold send_buf. rewrite Hw. cbn.
  destruct (Z.leb_spec 0 ev); [|lia].
  destruct (Z.leb_spec ev 255); [|lia]. cbn.
  destruct (Z.leb_spec (Z.of_nat (length (JSON_stringify w))) 65535); [|lia].
  reflexivity.
Qed.


(** Decoding a frame whose length field matches its payload. *)
Lemma decode_frame (ev : Z) (payload : list byte) :
  0 <= ev <= 255 ->
  Z.of_nat (length payload) <= 65535 ->
  decode (byte_of_Z ev :: writeUInt16BE (Z.of_nat (length payload)) ++ payload)
  = match payload with
    | [] => Frame ev VNull
    | _ => match JSON_parse payload with
           | Some v => Frame ev v
           | None => ParseFailed
           end
    end.
Proof.
  intros Hev Hlen. unfold decode.
  rewrite readUInt16BE_header by lia.
  replace (readUInt8 _ 0) with ev
    by (unfold readUInt8; cbn; now rewrite Z_of_byte_of_Z).
  cbn [length writeUInt16BE app Nat.ltb Nat.leb drop].
  destruct payload as [|b payload]; [reflexivity|].
  destruct (Z.ltb_spec 0 (Z.of_nat (length (b :: payload))));
    [|cbn [length] in *; lia].
  rewrite Nat2Z.id, firstn_all. reflexivity.
Qed.

(** A buffer of fewer than three bytes is not decoded. *)
Lemma decode_short (buf : list byte) :
  (length buf < 3)%nat -> decode buf = TooShort.
Proof.
  intros Hlen. unfold decode.
  destruct (Nat.ltb_spec (length buf) 3); [reflexivity|lia].
Qed.


(** C8, corrected: what [send] serializes is decided by its first
    argument.  When the first argument is an object or an array, that
    argument alone is the payload, whatever follows it; otherwise the
    payload is the array of all the arguments in order.  So a single
    object argument is serialized directly, and several arguments are
    serialized together exactly when the first is not an object. *)
Theorem send_serializes (ev : Z) (d0 : value) (rest : list value) :
  0 <= ev <= 255 ->
  let w := if instanceof_Object d0 then d0 else VArr (d0 :: rest) in
  Z.of_nat (length (JSON_stringify w)) <= 65535 ->
  send_buf ev (d0 :: rest) =
    inr (byte_of_Z ev
           :: writeUInt16BE (Z.of_nat (length (JSON_stringify w)))
           ++ JSON_stringify w).
Proof.
  intros Hev w Hlen. now apply send_buf_payload.
Qed.

End CodecProperties.

Section CodecExamples.

#[local] Existing Instance Reference.platform.



(** C8 fails when the first of several arguments is an object:
    [send(3, {a: 1}, 2)] serializes [{a: 1}] alone. *)
Lemma send_drops_after_object :
  let o := VObj [("a"%string, VNum 1)] in
  send_buf 3 [o; VNum 2]
    = inr (byte_of_Z 3 :: writeUInt16BE 7 ++ JSON_stringify o) /\
  JSON_stringify o <> JSON_stringify (VArr [o; VNum 2]) /\
  send_data [o; VNum 2] <> Some (VArr [o; VNum 2]).
Proof.
  split; [reflexivity|]. split; vm_compute; discriminate.
Qed.

Lemma send_serializes_witness :
  send_buf 1 [VStr "7"; VNum 2]
  = inr (byte_of_Z 1 :: writeUInt16BE 7 ++ JSON_stringify (VArr [VStr "7"; VNum 2])).
Proof.
  assert (Hev : 0 <= 1 <= 255) by lia.
  assert (Hlen : Z.of_nat (length (JSON_stringify (VArr [VStr "7"; VNum 2]))) <= 65535)
    by (vm_compute; discriminate).
  exact (send_serializes 1 (VStr "7") [VNum 2] Hev Hlen).
Defined.

End CodecExamples.

(** ** The properties of an object *)

Lemma comes_before_asym (k k' : string) :
  comes_before k k' = true -> comes_before k' k = false.
Proof.
  unfold comes_before.
  destruct (array_index k) as [n|], (array_index k') as [n'|]; try easy.
  intros Hlt%N.ltb_lt. apply N.ltb_ge. lia.
Qed.

Lemma comes_before_behind (k k' x : string) :
  comes_before k k' = true -> comes_before x k' = false -> comes_before x k = false.
Proof.
  unfold comes_before.
  destruct (array_index k) as [n|], (array_index k') as [n'|],
    (array_index x) as [m|]; try easy.
  intros Hlt%N.ltb_lt Hge%N.ltb_ge. apply N.ltb_ge. lia.
Qed.

Lemma comes_before_named (k k' : string) :
  is_array_index k = false -> comes_before k k' = false.
Proof.
  unfold is_array_index, comes_before. now destruct (array_index k).
Qed.

Lemma js_ordered_cons (k : string) (ks : list string) :
  js_ordered (k :: ks) = true
  <-> Forall (fun k' => comes_before k' k = false) ks /\ js_ordered ks = true.
Proof.
  cbn [js_ordered]. rewrite andb_true_iff, forallb_forall, Forall_forall.
  split; intros [Hk Hks]; (split; [|exact Hks]); intros x Hx.
  - apply negb_true_iff, Hk. now apply list_elem_of_In.
  - apply negb_true_iff, Hk. now apply list_elem_of_In.
Qed.

Lemma js_ordered_app_cons (ks ks' : list string) (k : string) :
  js_ordered (ks ++ k :: ks') = true -> Forall (fun k' => comes_before k k' = false) ks.
Proof.
  induction ks as [|x ks IH]; [constructor|].
  cbn [app]. intros [Hx Hks]%js_ordered_cons. constructor; [|now apply IH].
  rewrite Forall_forall in Hx. apply Hx. apply elem_of_app. right. constructor.
Qed.

Lemma has_key_false (k : string) (props : list (string * value)) :
  k ∉ props.*1 -> has_key k props = false.
Proof.
  induction props as [|[k' v'] props IH]; [reflexivity|].
  cbn. intros [Hne Hk]%not_elem_of_cons.
  destruct (String.eqb_spec k' k) as [->|_]; [contradiction|]. now apply IH.
Qed.

Lemma set_prop_new (k : string) (v : value) (props : list (string * value)) :
  k ∉ props.*1 -> set_prop k v props = add_prop k v props.
Proof.
  intros Hk. unfold set_prop. now rewrite has_key_false.
Qed.

Lemma add_prop_last (k : string) (v : value) (props : list (string * value)) :
  Forall (fun k' => comes_before k k' = false) props.*1 ->
  add_prop k v props = props ++ [(k, v)].
Proof.
  induction props as [|[k' v'] props IH]; [reflexivity|].
  cbn. intros [Hk' Hrest]%Forall_cons. rewrite Hk'. now rewrite IH.
Qed.

Lemma add_prop_perm (k : string) (v : value) (props : list (string * value)) :
  add_prop k v props ≡ₚ props ++ [(k, v)].
Proof.
  induction props as [|[k' v'] props IH]; [reflexivity|].
  cbn [add_prop]. destruct (comes_before k k').
  - change ((k, v) :: (k', v') :: props) with ([(k, v)] ++ (k', v') :: props).
    apply Permutation_app_comm.
  - cbn [app]. now rewrite IH.
Qed.

Lemma add_prop_ordered (k : string) (v : value) (props : list (string * value)) :
  js_ordered props.*1 = true -> js_ordered (add_prop k v props).*1 = true.
Proof.
  induction props as [|[k' v'] props IH]; [reflexivity|].
  cbn [add_prop fmap list_fmap fst]. intros Hord.
  pose proof Hord as [Hk' Hrest]%js_ordered_cons.
  destruct (comes_before k k') eqn:Hk.
  - cbn [fmap list_fmap fst]. apply js_ordered_cons. split; [|exact Hord].
    constructor; [now apply comes_before_asym|].
    eapply Forall_impl; [exact Hk'|]. intros x Hx. cbn beta in Hx.
    now apply (comes_before_behind k k' x).
  - cbn [fmap list_fmap fst]. apply js_ordered_cons. split; [|now apply IH].
    assert (Hkeys : (add_prop k v props).*1 ≡ₚ k :: props.*1).
    { rewrite add_prop_perm, fmap_app. cbn. now rewrite Permutation_app_comm. }
    rewrite Hkeys. now constructor.
Qed.

Lemma add_prop_named (k : string) (v : value) (props : list (string * value)) :
  List.filter (fun p => negb (is_array_index p.1)) (add_prop k v props)
  = List.filter (fun p => negb (is_array_index p.1)) props
    ++ (if is_array_index k then [] else [(k, v)]).
Proof.
  destruct (is_array_index k) eqn:Hk.
  - rewrite app_nil_r. induction props as [|[k' v'] props IH].
    + cbn. now rewrite Hk.
    + cbn [add_prop]. destruct (comes_before k k').
      * cbn [List.filter fst]. now rewrite Hk.
      * cbn [List.filter fst]. now rewrite IH.
  - rewrite add_prop_last.
    + rewrite List.filter_app. cbn. now rewrite Hk.
    + apply Forall_forall. intros k' _. now apply comes_before_named.
Qed.

(** Setting new keys one after the other gives the same properties, in
    the order of enumeration; the keys that are no array indices keep the
    order in which they were set. *)
Lemma fold_set_prop_enumerates (entries acc : list (string * value)) :
  NoDup (acc.*1 ++ entries.*1) -> js_ordered acc.*1 = true ->
  let props := fold_left (fun o p => set_prop p.1 p.2 o) entries acc in
  props ≡ₚ acc ++ entries /\
  js_ordered props.*1 = true /\
  (List.filter (fun p => negb (is_array_index p.1)) props
   = List.filter (fun p => negb (is_array_index p.1)) (acc ++ entries)).
Proof.
  revert acc. induction entries as [|[k v] entries IH]; intros acc Hnd Hord.
  - cbn. now rewrite app_nil_r.
  - cbn [fold_left fst snd].
    assert (Hk : k ∉ acc.*1).
    { cbn in Hnd. apply NoDup_app in Hnd as (_ & Hdisj & _).
      intros Hk. apply (Hdisj k Hk). constructor. }
    rewrite set_prop_new by exact Hk.
    assert (Hperm : add_prop k v acc ≡ₚ acc ++ [(k, v)]) by apply add_prop_perm.
    destruct (IH (add_prop k v acc)) as (Hp & Ho & Hn).
    + rewrite Hperm, fmap_app. cbn. now rewrite <- app_assoc.
    + now apply add_prop_ordered.
    + split; [|split; [exact Ho|]].
      * rewrite Hp, Hperm. now rewrite <- app_assoc.
      * rewrite Hn, !List.filter_app, add_prop_named. cbn [List.filter fst].
        rewrite <- app_assoc. now destruct (is_array_index k).
Qed.

(** ** The reference JSON

    On the reference platform the parser reads back what the printer
    wrote, for every value without [undefined], without a repeated key
    and with the keys of every object in the order of enumeration, so
    the round trip of the codec needs no assumption there. *)

Module ReferenceJSON.

Import Reference.



Lemma chars_app (s1 s2 : string) : chars (s1 ++ s2)%string = chars s1 ++ chars s2.
Proof.
  induction s1 as [|c s1 IH]; [reflexivity|].
  change (String c s1 ++ s2)%string with (String c (s1 ++ s2)%string).
  cbn [list_ascii_of_string app]. now rewrite IH.
Qed.

Lemma parse_digits_stop (acc : Z) (rest : list ascii) :
  no_digit_ahead rest -> parse_digits acc rest = (acc, rest).
Proof. destruct rest as [|c rest]; cbn; [reflexivity|]. now intros ->. Qed.

Lemma pretty_N_char_digit (d : N) :
  (d < 10)%N ->
  is_digit (pretty_N_char d) = true /\
  Z.of_N (N_of_ascii (pretty_N_char d)) - 48 = Z.of_N d.
Proof.
  intros Hd.
  assert (d = 0 \/ d = 1 \/ d = 2 \/ d = 3 \/ d = 4 \/ d = 5 \/ d = 6
          \/ d = 7 \/ d = 8 \/ d = 9)%N as Hcases by lia.
  repeat destruct Hcases as [->|Hcases]; try subst d; split; reflexivity.
Qed.

Lemma parse_digits_go (x : N) :
  exists p, forall (s : string) (acc : Z) (rest : list ascii),
    parse_digits acc (chars (pretty_N_go x s) ++ rest)
    = parse_digits (acc * p + Z.of_N x) (chars s ++ rest).
Proof.
  induction (N.lt_wf_0 x) as [x _ IH].
  assert (x = 0 \/ 0 < x)%N as [->|Hpos] by lia.
  - exists 1. intros s acc rest. rewrite pretty_N_go_0. f_equal. lia.
  - destruct (IH (x `div` 10)%N) as [p Hp]; [now apply N.div_lt|].
    exists (10 * p). intros s acc rest.
    rewrite pretty_N_go_step, Hp by assumption. cbn [list_ascii_of_string app parse_digits].
    destruct (pretty_N_char_digit (x `mod` 10)%N) as [-> ->];
      [now apply N.mod_lt|].
    f_equal.
    assert (Hx : Z.of_N x = 10 * Z.of_N (x `div` 10) + Z.of_N (x `mod` 10)).
    { rewrite (N.div_mod x 10) at 1 by discriminate.
      now rewrite N2Z.inj_add, N2Z.inj_mul. }
    rewrite Hx. ring.
Qed.

Lemma pretty_N_go_head (x : N) (s : string) :
  (0 < x)%N ->
  exists c r, chars (pretty_N_go x s) = c :: r /\ is_digit c = true.
Proof.
  revert s. induction (N.lt_wf_0 x) as [x _ IH]. intros s Hpos.
  rewrite pretty_N_go_step by assumption.
  destruct (N.eq_0_gt_0_cases (x `div` 10)) as [->|Hdiv].
  - rewrite pretty_N_go_0. eexists _, _. split; [reflexivity|].
    apply pretty_N_char_digit. now apply N.mod_lt.
  - apply IH; [now apply N.div_lt|assumption].
Qed.

Lemma parse_value_digit (f : nat) (c : ascii) (r : list ascii) :
  is_digit c = true ->
  parse_value (S f) (c :: r)
  = let '(n, r') := parse_digits 0 (c :: r) in Some (VNum n, r').
Proof.
  destruct c as [[] [] [] [] [] [] [] []]; try discriminate; intros _; reflexivity.
Qed.

Lemma parse_value_minus (f : nat) (c : ascii) (r : list ascii) :
  is_digit c = true ->
  parse_value (S f) ("-"%char :: c :: r)
  = let '(n, r') := parse_digits 0 (c :: r) in Some (VNum (- n), r').
Proof. intros Hc. cbn. now rewrite Hc. Qed.

Lemma parse_positive (p : positive) (rest : list ascii) :
  no_digit_ahead rest ->
  exists c r,
    chars (pretty (Npos p)) = c :: r /\ is_digit c = true /\
    parse_digits 0 (c :: r ++ rest) = (Zpos p, rest).
Proof.
  intros Hrest. unfold pretty, pretty_N.
  destruct (decide (N.pos p = 0%N)) as [Hp|_]; [discriminate|].
  destruct (pretty_N_go_head (N.pos p) EmptyString) as (c & r & Hcr & Hc); [reflexivity|].
  exists c, r. split; [exact Hcr|]. split; [exact Hc|].
  destruct (parse_digits_go (N.pos p)) as [q Hq].
  change (c :: r ++ rest) with ((c :: r) ++ rest). rewrite <- Hcr, Hq.
  cbn [list_ascii_of_string app]. now rewrite parse_digits_stop.
Qed.

Lemma parse_number (f : nat) (n : Z) (rest : list ascii) :
  no_digit_ahead rest ->
  parse_value (S f) (chars (number n) ++ rest) = Some (VNum n, rest).
Proof.
  intros Hrest. unfold number. destruct n as [|p|p]; unfold pretty, pretty_Z.
  - change (chars "0") with ["0"%char]. cbn [app].
    rewrite parse_value_digit by reflexivity. cbn [parse_digits is_digit].
    cbn. now rewrite parse_digits_stop.
  - destruct (parse_positive p rest Hrest) as (c & r & Hcr & Hc & Hparse).
    change (pretty p) with (pretty (N.pos p)). rewrite Hcr. cbn [app].
    rewrite parse_value_digit by assumption. now rewrite Hparse.
  - destruct (parse_positive p rest Hrest) as (c & r & Hcr & Hc & Hparse).
    change (chars ("-" +:+ pretty p)) with ("-"%char :: chars (pretty (N.pos p))).
    rewrite Hcr. cbn [app].
    rewrite parse_value_minus by assumption. now rewrite Hparse.
Qed.

Lemma parse_chars_escape_char (c : ascii) (rest : list ascii) :
  parse_chars (chars (escape_char c) ++ rest)
  = '(str, r) ← parse_chars rest; Some (String c str, r).
Proof. destruct c as [[] [] [] [] [] [] [] []]; reflexivity. Qed.

Lemma parse_chars_escape (s : string) (rest : list ascii) :
  parse_chars (chars (escape s) ++ dquote :: rest) = Some (s, rest).
Proof.
  induction s as [|c s IH]; [reflexivity|].
  cbn [escape]. rewrite chars_app, <- app_assoc, parse_chars_escape_char, IH.
  reflexivity.
Qed.

Lemma chars_quote (s : string) :
  chars (quote s) = dquote :: chars (escape s) ++ [dquote].
Proof. unfold quote. cbn [list_ascii_of_string]. now rewrite chars_app. Qed.

Lemma parse_string (f : nat) (s : string) (rest : list ascii) :
  parse_value (S f) (chars (quote s) ++ rest) = Some (VStr s, rest).
Proof.
  rewrite chars_quote. cbn [app]. rewrite <- app_assoc. cbn [app].
  change (parse_value (S f) (dquote :: ?x)) with
    ('(str, r') ← parse_chars x; Some (VStr str, r')).
  now rewrite parse_chars_escape.
Qed.

Lemma value_nested_ind (P : value -> Prop) :
  P VUndefined -> P VNull -> (forall b, P (VBool b)) -> (forall n, P (VNum n)) ->
  (forall s, P (VStr s)) ->
  (forall elems, Forall P elems -> P (VArr elems)) ->
  (forall props, Forall (fun p => P p.2) props -> P (VObj props)) ->
  forall v, P v.
Proof.
  intros HU HN HB HZ HS HA HO. fix IH 1.
  intros [| |b|n|s|elems|props];
    [exact HU|exact HN|apply HB|apply HZ|apply HS| |].
  - apply HA. induction elems as [|x xs IHxs]; constructor; [apply IH|exact IHxs].
  - apply HO. induction props as [|[k x] ps IHps]; constructor; [apply IH|exact IHps].
Qed.

Lemma is_digit_not_bracket (c : ascii) :
  is_digit c = true -> Ascii.eqb c "]" = false.
Proof. destruct c as [[] [] [] [] [] [] [] []]; try discriminate; reflexivity. Qed.

(** The text of a value never starts with a closing bracket. *)
Lemma stringify_head (v : value) :
  exists c r, chars (stringify v) = c :: r /\ Ascii.eqb c "]" = false.
Proof.
  destruct v as [| |[|]|n|s|elems|props]; try (eexists _, _; split; reflexivity).
  cbn [stringify]. unfold number. destruct n as [|p|p]; unfold pretty, pretty_Z.
    + eexists _, _; split; reflexivity.
    + destruct (parse_positive p [] I) as (c & r & Hcr & Hc & _).
      exists c, r. split; [exact Hcr|now apply is_digit_not_bracket].
    + eexists _, _; split; reflexivity.
Qed.

Lemma parse_value_array (f : nat) (c : ascii) (r : list ascii) :
  Ascii.eqb c "]" = false ->
  parse_value (S f) ("["%char :: c :: r)
  = '(elems, r') ← parse_elements f (c :: r); Some (VArr elems, r').
Proof.
  destruct c as [[] [] [] [] [] [] [] []]; try discriminate; intros _; reflexivity.
Qed.

Lemma no_digit_ahead_bracket (rest : list ascii) : no_digit_ahead ("]"%char :: rest).
Proof. reflexivity. Qed.

Lemma no_digit_ahead_comma (rest : list ascii) : no_digit_ahead (","%char :: rest).
Proof. reflexivity. Qed.

Lemma no_digit_ahead_brace (rest : list ascii) : no_digit_ahead ("}"%char :: rest).
Proof. reflexivity. Qed.

Lemma parse_elements_spec (x : value) (xs : list value) :
  Forall parses (x :: xs) ->
  forallb is_json (x :: xs) = true ->
  forall fuel rest,
    (list_sum (List.map (fun x => S (weight x)) (x :: xs)) <= fuel)%nat ->
    parse_elements fuel
      (chars (String.concat "," (List.map stringify (x :: xs))) ++ "]"%char :: rest)
    = Some (x :: xs, rest).
Proof.
  revert x. induction xs as [|y ys IH]; intros x Hall Hjson fuel rest Hfuel.
  - apply Forall_cons in Hall as [Hx _]. cbn in Hjson, Hfuel.
    rewrite andb_true_r in Hjson.
    destruct fuel as [|fuel]; [lia|]. cbn [List.map String.concat parse_elements].
    rewrite (Hx Hjson) by (try apply no_digit_ahead_bracket; lia).
    reflexivity.
  - apply Forall_cons in Hall as [Hx Hall].
    cbn [forallb] in Hjson. apply andb_true_iff in Hjson as [Hjx Hjson].
    cbn [List.map list_sum fold_right] in Hfuel.
    destruct fuel as [|fuel]; [lia|].
    change (String.concat "," (List.map stringify (x :: y :: ys)))
      with (stringify x ++ "," ++ String.concat "," (List.map stringify (y :: ys)))%string.
    rewrite !chars_app, <- !app_assoc. cbn [parse_elements].
    rewrite (Hx Hjx) by (try apply no_digit_ahead_comma; lia).
    cbn [mbind option_bind list_ascii_of_string app].
    rewrite (IH y Hall Hjson) by (cbn [List.map list_sum fold_right]; lia).
    reflexivity.
Qed.

Lemma stringify_members (props : list (string * value)) :
  forallb (fun p => is_json p.2) props = true ->
  omap (fun p => match p.2 with
                 | VUndefined => None
                 | _ => Some (quote p.1 ++ ":" ++ stringify p.2)%string
                 end) props
  = List.map member props.
Proof.
  induction props as [|[k v] props IH]; [reflexivity|].
  cbn [forallb]. intros [Hv Hprops]%andb_true_iff. cbn [omap list_omap List.map].
  rewrite <- (IH Hprops). now destruct v.
Qed.

Lemma parse_members_step (f : nat) (k : string) (v : value) (tail : list ascii) :
  forall r1, parse_value f tail = Some (v, r1) ->
  parse_members (S f) (dquote :: chars (escape k) ++ dquote :: ":"%char :: tail)
  = match r1 with
    | ","%char :: r2 => '(ps, r3) ← parse_members f r2; Some ((k, v) :: ps, r3)
    | "}"%char :: r2 => Some ([(k, v)], r2)
    | _ => None
    end.
Proof.
  intros r1 Hv.
  change (parse_members (S f) (dquote :: ?x)) with
    ('(key, r) ← parse_chars x;
     match r with
     | ":"%char :: r0 =>
         '(v, r1) ← parse_value f r0;
         match r1 with
         | ","%char :: r2 => '(ps, r3) ← parse_members f r2; Some ((key, v) :: ps, r3)
         | "}"%char :: r2 => Some ([(key, v)], r2)
         | _ => None
         end
     | _ => None
     end).
  rewrite parse_chars_escape. cbn [mbind option_bind]. rewrite Hv. reflexivity.
Qed.

Lemma parse_members_spec (p : string * value) (ps : list (string * value)) :
  Forall (fun p => parses p.2) (p :: ps) ->
  forallb (fun p => is_json p.2) (p :: ps) = true ->
  forall fuel rest,
    (list_sum (List.map (fun p => S (weight p.2)) (p :: ps)) <= fuel)%nat ->
    parse_members fuel
      (chars (String.concat "," (List.map member (p :: ps))) ++ "}"%char :: rest)
    = Some (p :: ps, rest).
Proof.
  revert p. induction ps as [|q qs IH]; intros [k v] Hall Hjson fuel rest Hfuel.
  - apply Forall_cons in Hall as [Hv _]. cbn in Hjson, Hfuel, Hv.
    rewrite andb_true_r in Hjson.
    destruct fuel as [|fuel]; [lia|]. cbn [List.map String.concat].
    unfold member. cbn [fst snd]. rewrite !chars_app, chars_quote.
    cbn [app list_ascii_of_string]. rewrite <- !app_assoc. cbn [app].
    rewrite (parse_members_step fuel k v _ ("}"%char :: rest));
      [reflexivity|].
    apply (Hv Hjson); [lia|apply no_digit_ahead_brace].
  - apply Forall_cons in Hall as [Hv Hall].
    cbn [forallb] in Hjson. apply andb_true_iff in Hjson as [Hjv Hjson].
    cbn [List.map list_sum fold_right snd] in Hfuel. cbn [snd] in Hv, Hjv.
    destruct fuel as [|fuel]; [lia|].
    change (String.concat "," (List.map member ((k, v) :: q :: qs)))
      with (member (k, v) ++ "," ++ String.concat "," (List.map member (q :: qs)))%string.
    unfold member at 1. cbn [fst snd].
    rewrite !chars_app, chars_quote.
    cbn [app list_ascii_of_string]. rewrite <- !app_assoc. cbn [app].
    rewrite (parse_members_step fuel k v _
               (","%char :: chars (String.concat "," (List.map member (q :: qs)))
                ++ "}"%char :: rest));
      [|apply (Hv Hjv); [lia|apply no_digit_ahead_comma]].
    rewrite (IH q Hall Hjson) by (cbn [List.map list_sum fold_right]; lia).
    reflexivity.
Qed.

Lemma set_prop_fresh (k : string) (v : value) (acc : list (string * value)) :
  k ∉ acc.*1 -> Forall (fun k' => comes_before k k' = false) acc.*1 ->
  set_prop k v acc = acc ++ [(k, v)].
Proof.
  intros Hk Hlast. rewrite set_prop_new by exact Hk. now apply add_prop_last.
Qed.

Lemma fold_set_prop (props acc : list (string * value)) :
  NoDup (acc.*1 ++ props.*1) -> js_ordered (acc.*1 ++ props.*1) = true ->
  fold_left (fun o p => set_prop p.1 p.2 o) props acc = acc ++ props.
Proof.
  revert acc. induction props as [|[k v] props IH]; intros acc Hnd Hord.
  - now rewrite app_nil_r.
  - cbn [fold_left fst snd]. rewrite set_prop_fresh.
    + rewrite IH; [now rewrite <- app_assoc| |].
      * rewrite fmap_app. cbn. now rewrite <- app_assoc.
      * rewrite fmap_app. cbn. now rewrite <- app_assoc.
    + cbn in Hnd. apply NoDup_app in Hnd as (_ & Hdisj & _).
      intros Hk. apply (Hdisj k Hk). constructor.
    + cbn in Hord. now apply js_ordered_app_cons in Hord.
Qed.

Lemma parse_value_object (f : nat) (r : list ascii) :
  parse_value (S f) ("{"%char :: dquote :: r)
  = '(props, r') ← parse_members f (dquote :: r);
    Some (VObj (fold_left (fun o p => set_prop p.1 p.2 o) props []), r').
Proof. reflexivity. Qed.

Lemma chars_member_head (p : string * value) (ps : list (string * value)) :
  exists r, chars (String.concat "," (List.map member (p :: ps))) = dquote :: r.
Proof.
  destruct ps as [|q qs].
  - cbn [List.map String.concat]. unfold member. rewrite chars_app, chars_quote.
    eexists. reflexivity.
  - change (String.concat "," (List.map member (p :: q :: qs)))
      with (member p ++ "," ++ String.concat "," (List.map member (q :: qs)))%string.
    unfold member at 1. rewrite !chars_app, chars_quote. eexists. reflexivity.
Qed.

(** The reference parser reads back what the reference printer wrote. *)
Lemma parse_stringify (v : value) : parses v.
Proof.
  induction v as [| |b|n|s|elems IH|props IH] using value_nested_ind;
    intros Hjson fuel rest Hfuel Hrest;
    (destruct fuel as [|fuel]; [cbn in Hfuel; lia|]).
  - discriminate.
  - reflexivity.
  - now destruct b.
  - now apply parse_number.
  - apply parse_string.
  - cbn [stringify is_json weight] in *.
    change ("[" ++ ?x)%string with (String "[" x). cbn [list_ascii_of_string app].
    rewrite chars_app. destruct elems as [|x xs]; [reflexivity|].
    destruct (stringify_head x) as (c & r & Hcr & Hc).
    assert (Hbody : exists r', chars (String.concat "," (List.map stringify (x :: xs)))
                               = c :: r').
    { destruct xs as [|y ys].
      - exists r. exact Hcr.
      - change (String.concat "," (List.map stringify (x :: y :: ys)))
          with (stringify x ++ "," ++ String.concat "," (List.map stringify (y :: ys)))%string.
        rewrite chars_app, Hcr. now eexists. }
    destruct Hbody as [r' Hr'].
    pose proof (parse_elements_spec x xs IH Hjson fuel rest ltac:(lia)) as Hparse.
    rewrite <- app_assoc. cbn [list_ascii_of_string app].
    rewrite Hr' in *. cbn [app] in *.
    rewrite parse_value_array by assumption. now rewrite Hparse.
  - cbn [stringify is_json weight] in *.
    apply andb_true_iff in Hjson as [[Hnd Hord]%andb_true_iff Hjson].
    apply bool_decide_eq_true in Hnd.
    rewrite stringify_members by assumption.
    change ("{" ++ ?x)%string with (String "{" x). cbn [list_ascii_of_string app].
    rewrite chars_app. destruct props as [|p ps]; [reflexivity|].
    destruct (chars_member_head p ps) as [r Hr].
    pose proof (parse_members_spec p ps IH Hjson fuel rest ltac:(lia)) as Hparse.
    rewrite <- app_assoc. cbn [list_ascii_of_string app].
    rewrite Hr in *. cbn [app] in *.
    rewrite parse_value_object, Hparse. cbn [mbind option_bind].
    now rewrite (fold_set_prop (p :: ps) []).
Qed.

Lemma length_chars_app (s1 s2 : string) :
  length (chars (s1 ++ s2)%string) = (length (chars s1) + length (chars s2))%nat.
Proof. now rewrite chars_app, length_app. Qed.

Lemma stringify_nonempty (v : value) : (1 <= length (chars (stringify v)))%nat.
Proof. destruct (stringify_head v) as (c & r & -> & _). cbn. lia. Qed.

(** Joined with commas, texts that are each as long as a measure are
    together as long as the measures and the separators. *)
Lemma concat_measure {A} (text : A -> string) (measure : A -> nat) (l : list A) :
  Forall (fun a => measure a <= length (chars (text a)))%nat l ->
  (list_sum (List.map (fun a => S (measure a)) l)
   <= S (length (chars (String.concat "," (List.map text l)))))%nat.
Proof.
  induction 1 as [|a l Ha Hl IH]; [cbn; lia|].
  destruct l as [|b l].
  - cbn [List.map String.concat list_sum fold_right]. lia.
  - change (String.concat "," (List.map text (a :: b :: l)))
      with (text a ++ "," ++ String.concat "," (List.map text (b :: l)))%string.
    rewrite !length_chars_app.
    change (List.map (fun a => S (measure a)) (a :: b :: l))
      with (S (measure a) :: List.map (fun a => S (measure a)) (b :: l)).
    cbn [list_sum fold_right list_ascii_of_string length]. 
    change (fold_right Init.Nat.add 0%nat (List.map (fun a => S (measure a)) (b :: l)))
      with (list_sum (List.map (fun a => S (measure a)) (b :: l))).
    lia.
Qed.

Lemma size_le_length (v : value) :
  is_json v = true -> (weight v <= length (chars (stringify v)))%nat.
Proof.
  induction v as [| |b|n|s|elems IH|props IH] using value_nested_ind; intros Hjson;
    try apply stringify_nonempty.
  - cbn [stringify weight is_json] in *.
    change ("[" ++ ?x)%string with (String "[" x).
    cbn [list_ascii_of_string length]. rewrite length_chars_app.
    cbn [list_ascii_of_string length].
    pose proof (concat_measure stringify weight elems) as Hsum.
    rewrite forallb_forall in Hjson.
    assert (Hall : Forall (fun a => weight a <= length (chars (stringify a)))%nat elems).
    { rewrite Forall_forall in IH |- *. intros x Hx. apply IH; [exact Hx|].
      apply Hjson. now apply list_elem_of_In. }
    specialize (Hsum Hall). lia.
  - cbn [stringify weight is_json] in *.
    apply andb_true_iff in Hjson as [_ Hjson].
    rewrite stringify_members by assumption.
    change ("{" ++ ?x)%string with (String "{" x).
    cbn [list_ascii_of_string length]. rewrite length_chars_app.
    cbn [list_ascii_of_string length].
    pose proof (concat_measure member (fun p => weight p.2) props) as Hsum.
    rewrite forallb_forall in Hjson.
    assert (Hall : Forall (fun p => weight p.2 <= length (chars (member p)))%nat props).
    { rewrite Forall_forall in IH |- *. intros p Hp. unfold member.
      rewrite !length_chars_app.
      specialize (IH p Hp (Hjson p ltac:(now apply list_elem_of_In))). lia. }
    specialize (Hsum Hall). lia.
Qed.

Lemma ascii_of_list_byte_of_string (s : string) :
  ascii_of_byte <$> list_byte_of_string s = chars s.
Proof.
  induction s as [|c s IH]; [reflexivity|].
  cbn. rewrite ascii_of_byte_of_ascii. f_equal. exact IH.
Qed.

Theorem parse_stringify_json (v : value) :
  is_json v = true -> parse (list_byte_of_string (stringify v)) = Some v.
Proof.
  intros Hjson. unfold parse. rewrite ascii_of_list_byte_of_string.
  pose proof (parse_stringify v Hjson (S (length (chars (stringify v)))) []) as Hparse.
  rewrite app_nil_r in Hparse. rewrite Hparse; [reflexivity| |exact I].
  pose proof (size_le_length v Hjson). lia.
Qed.

(** On the reference platform every object or array without [undefined]
    and without a repeated key, with the keys of every object in the
    order of enumeration, whose text is at most 65535 bytes long, makes
    the round trip through [send] and the head of the ['message']
    handler. *)
Lemma reference_round_trip (ev : Z) (v : value) :
  0 <= ev <= 255 ->
  instanceof_Object v = true ->
  is_json v = true ->
  Z.of_nat (length (list_byte_of_string (stringify v))) <= 65535 ->
  @round_trips platform ev v.
Proof.
  intros Hev Hobj Hjson Hlen. unfold round_trips.
  eexists. split.
  - apply (@send_buf_payload platform ev [v] v); [exact Hev| |exact Hlen].
    cbn. now rewrite Hobj.
  - rewrite (@decode_frame platform) by assumption.
    change (@JSON_stringify platform v) with (list_byte_of_string (stringify v)).
    change (@JSON_parse platform) with parse.
    rewrite (parse_stringify_json v Hjson).
    destruct (list_byte_of_string (stringify v)) eqn:Htext; [|reflexivity].
    pose proof (stringify_nonempty v) as Hne.
    rewrite <- ascii_of_list_byte_of_string, Htext in Hne. cbn in Hne. lia.
Qed.

End ReferenceJSON.

(** ** Running the handlers *)

Lemma after_nil {A} (o : outcome A) : after [] o = o.
Proof. now destruct o. Qed.

Lemma mbind_run {A B} (m : M A) (k : A -> M B) (s : Server) :
  (m ≫= k) s =
    match m s with
    | Ok a s1 fx1 => after fx1 (k a s1)
    | Throw e s1 fx1 => Throw e s1 fx1
    | Unmodelled => Unmodelled
    end.
Proof. reflexivity. Qed.

Lemma mbind_Ok {A B} (m : M A) (k : A -> M B) (s s1 : Server) (a : A) fx1 :
  m s = Ok a s1 fx1 -> (m ≫= k) s = after fx1 (k a s1).
Proof. intros Hm. now rewrite mbind_run, Hm. Qed.

Lemma mbind_pure {A B} (m : M A) (k : A -> M B) (s : Server) (a : A) :
  m s = Ok a s [] -> (m ≫= k) s = k a s.
Proof. intros Hm. rewrite (mbind_Ok _ _ _ _ _ _ Hm). apply after_nil. Qed.

Lemma mbind_assoc {A B C} (m : M A) (f : A -> M B) (g : B -> M C) (s : Server) :
  ((m ≫= f) ≫= g) s = (m ≫= (fun a => f a ≫= g)) s.
Proof.
  rewrite !mbind_run. destruct (m s) as [a s1 fx1| |]; [|reflexivity..].
  rewrite mbind_run. destruct (f a s1) as [b s2 fx2| |]; [|reflexivity..].
  cbn. destruct (g b s2); cbn; now rewrite ?app_assoc.
Qed.

Lemma modify_bind {B} (f : Server -> Server) (k : unit -> M B) (s : Server) :
  (modify f ≫= k) s = k tt (f s).
Proof. rewrite mbind_run. apply after_nil. Qed.

Lemma get_bind {B} (k : Server -> M B) (s : Server) : (get ≫= k) s = k s s.
Proof. now apply mbind_pure. Qed.

Lemma mret_bind {A B} (a : A) (k : A -> M B) (s : Server) :
  (mret a ≫= k) s = k a s.
Proof. now apply mbind_pure. Qed.

Lemma emit_bind {B} (e : effect) (k : unit -> M B) (s : Server) :
  (emit e ≫= k) s = after [e] (k tt s).
Proof. reflexivity. Qed.

Lemma throw_bind {A B} (e : js_error) (k : A -> M B) (s : Server) :
  (throw e ≫= k) s = Throw e s [].
Proof. reflexivity. Qed.

Lemma the_socket_run (k : nat) (s : Server) (sock : Socket) :
  sockets s !! k = Some sock -> the_socket k s = Ok sock s [].
Proof. intros Hk. unfold the_socket. rewrite mbind_run. cbn. now rewrite Hk. Qed.

Lemma the_connection_run (c : nat) (s : Server) (x : Connection) :
  conn_store s !! c = Some x -> the_connection c s = Ok x s [].
Proof. intros Hc. unfold the_connection. rewrite mbind_run. cbn. now rewrite Hc. Qed.

Lemma the_room_run (r : nat) (s : Server) (x : Room) :
  room_store s !! r = Some x -> the_room r s = Ok x s [].
Proof. intros Hr. unfold the_room. rewrite mbind_run. cbn. now rewrite Hr. Qed.

(** Loading the members of a list of valid references changes nothing. *)
Lemma load_members_run (s : Server) (refs : list nat) :
  Forall (fun c => is_Some (conn_store s !! c)) refs ->
  exists members,
    mapM (fun c => x ← the_connection c; mret (c, x)) refs s = Ok members s [] /\
    members.*1 = refs /\
    Forall (fun m => conn_store s !! m.1 = Some m.2) members.
Proof.
  induction 1 as [|c refs [x Hx] _ (members & Hrun & Hfst & Hall)].
  - exists []. repeat split; constructor.
  - exists ((c, x) :: members). cbn [mapM]. split.
    + rewrite (mbind_pure _ _ s (c, x)).
      * rewrite (mbind_pure _ _ s members Hrun). reflexivity.
      * rewrite (mbind_pure _ _ s x (the_connection_run _ _ _ Hx)). reflexivity.
    + split; [cbn; now f_equal|]. constructor; [exact Hx|exact Hall].
Qed.

Lemma Room_filter_run (s : Server) (r : nat) (x : Room) (test : Connection -> bool) :
  room_store s !! r = Some x ->
  Forall (fun c => is_Some (conn_store s !! c)) (connections x) ->
  exists members,
    Room_filter r test s = Ok (List.filter (fun m => test m.2) members) s [] /\
    members.*1 = connections x /\
    Forall (fun m => conn_store s !! m.1 = Some m.2) members.
Proof.
  intros Hr Hrefs.
  destruct (load_members_run s _ Hrefs) as (members & Hrun & Hfst & Hall).
  exists members. split; [|now split].
  unfold Room_filter.
  rewrite (mbind_pure _ _ s x (the_room_run _ _ _ Hr)).
  rewrite (mbind_pure _ _ s members Hrun). reflexivity.
Qed.

(** ** The handlers *)

Lemma strict_eq_refl (v : value) :
  instanceof_Object v = false -> strict_eq v v = true.
Proof.
  destruct v; cbn; try discriminate; intros _; auto using Z.eqb_refl, String.eqb_refl.
  now destruct b.
Qed.

Lemma strict_eq_null (v : value) : v <> VNull -> strict_eq v VNull = false.
Proof. destruct v; cbn; congruence. Qed.

Lemma filter_all {A} (l : list A) : List.filter (fun _ => true) l = l.
Proof. induction l as [|a l IH]; [reflexivity|]. cbn. now rewrite IH. Qed.

Lemma spoofs_holder (X : value) (members : list (nat * Connection)) (m : nat)
    (holder : Connection) (s : Server) :
  instanceof_Object X = false -> X <> VNull ->
  Forall (fun p => conn_store s !! p.1 = Some p.2) members ->
  m ∈ members.*1 ->
  conn_store s !! m = Some holder -> clientId holder = X ->
  spoofs X members = true.
Proof.
  intros Hprim Hnull Hall Hin Hm HX.
  apply list_elem_of_fmap in Hin as ([m' x] & -> & Hin).
  unfold spoofs. apply existsb_exists. exists (m', x). split.
  - now apply list_elem_of_In.
  - rewrite Forall_forall in Hall. specialize (Hall _ Hin). cbn in *.
    assert (x = holder) as -> by congruence.
    rewrite HX, strict_eq_null, strict_eq_refl by assumption. reflexivity.
Qed.

Section Handlers.

Context `{Platform}.

(** C1: in a room that has a member holding the client id [X], a
    primitive other than [null], a Join on any socket that asserts [X] as
    its client id ends with that socket terminated (a socket that has not
    authenticated is terminated as well); the map of rooms, every room's
    member list, every connection (so the room of the holder of [X]) and
    the connection registry are as they were. *)
Theorem join_rejects_spoof (s : Server) (k : nat) (sock : Socket) (c : string)
    (r : nat) (rm : Room) (m : nat) (holder : Connection) (pid X : value) :
  sockets s !! k = Some sock ->
  rooms s !! c = Some r ->
  room_store s !! r = Some rm ->
  Forall (fun x => is_Some (conn_store s !! x)) (connections rm) ->
  m ∈ connections rm ->
  conn_store s !! m = Some holder ->
  clientId holder = X ->
  instanceof_Object X = false -> X <> VNull ->
  exists s',
    on_join k c pid X s = Ok tt s' [SocketTerminate k] /\
    rooms s' = rooms s /\
    room_store s' = room_store s /\
    conn_store s' = conn_store s /\
    all_connections s' = all_connections s.
Proof.
  intros Hk Hc Hr Hrefs Hm Hholder HX Hprim Hnull.
  unfold on_join. rewrite (mbind_pure _ _ s sock (the_socket_run _ _ _ Hk)).
  destruct (connection sock) as [conn|]; [|exists s; now repeat split].
  unfold update_socket. rewrite modify_bind.
  set (s1 := mkServer _ _ _ _ _ _ _).
  rewrite get_bind. change (rooms s1) with (rooms s). rewrite Hc, mret_bind.
  destruct (Room_filter_run s1 r rm (fun _ => true) Hr Hrefs)
    as (members & Hrun & Hfst & Hall).
  rewrite (mbind_pure _ _ s1 _ Hrun), filter_all.
  rewrite (spoofs_holder X members m holder s1); auto; [|now rewrite Hfst].
  exists s1. now repeat split.
Qed.

(** C6, corrected: on a socket that has not authenticated, a SetClient
    event is ignored, the socket is not terminated and nothing changes; a
    Join event terminates the socket. *)
Theorem client_before_authenticate (s : Server) (k : nat) (sock : Socket)
    (c : string) (pid cid : value) :
  sockets s !! k = Some sock ->
  connection sock = None ->
  on_client k pid cid s = Ok tt s [] /\
  on_join k c pid cid s = Ok tt s [SocketTerminate k].
Proof.
  intros Hk Hconn. unfold on_client, on_join.
  rewrite !(mbind_pure _ _ s sock (the_socket_run _ _ _ Hk)), Hconn.
  split; reflexivity.
Qed.

(** C10: a Signal from an authenticated connection that is in no room
    throws a TypeError at [connection.room.find], with nothing sent, the
    socket not terminated and the state untouched; when the connection is
    in a room and no member of the room has the id asked for, the handler
    returns with nothing sent and nothing changed. *)
Theorem signal_requires_room (s : Server) (k : nat) (sock : Socket) (conn : nat)
    (this : Connection) (peer : string) (data : value) :
  sockets s !! k = Some sock ->
  connection sock = Some conn ->
  conn_store s !! conn = Some this ->
  match room this with
  | None => on_signal k peer data s = Throw TypeError s []
  | Some r =>
      forall rm,
        room_store s !! r = Some rm ->
        Forall (fun m => exists x, conn_store s !! m = Some x /\ id x <> peer)
               (connections rm) ->
        on_signal k peer data s = Ok tt s []
  end.
Proof.
  intros Hk Hconn Hthis. unfold on_signal.
  rewrite (mbind_pure _ _ s sock (the_socket_run _ _ _ Hk)), Hconn.
  rewrite (mbind_pure _ _ s this (the_connection_run _ _ _ Hthis)).
  destruct (room this) as [r|]; [|reflexivity].
  intros rm Hr Habsent.
  assert (Hrefs : Forall (fun c => is_Some (conn_store s !! c)) (connections rm)).
  { eapply Forall_impl; [exact Habsent|]. intros m (x & Hx & _). now exists x. }
  unfold Room_find.
  destruct (Room_filter_run s r rm (fun x => String.eqb (id x) peer) Hr Hrefs)
    as (members & Hrun & Hfst & Hall).
  rewrite (mbind_pure _ _ s _ (mbind_pure _ _ s _ Hrun)).
  replace (List.filter _ members) with (@nil (nat * Connection)); [reflexivity|].
  symmetry. clear Hrun. revert Hfst Hall Habsent. generalize (connections rm).
  induction members as [|[m x] members IH]; intros refs Hfst Hall Habsent;
    [reflexivity|].
  destruct refs as [|m' refs]; [discriminate|]. cbn in Hfst.
  injection Hfst as -> Hfst.
  apply Forall_cons in Hall as [Hm Hall].
  apply Forall_cons in Habsent as [(x' & Hx' & Hid) Habsent].
  cbn in Hm. assert (x' = x) as -> by congruence.
  cbn. apply String.eqb_neq in Hid. rewrite Hid. eauto.
Qed.

(** C5 fails for a connection that is in no room: the ['close'] handler
    calls [connection.leave()] without the test the ['leave'] handler
    makes, [leave] throws a TypeError at [this.room.remove], and the
    handler never reaches the removal from the registry.  Only
    [connectionCount] has changed. *)
Theorem close_without_room (s : Server) (k : nat) (sock : Socket) (conn : nat)
    (this : Connection) :
  sockets s !! k = Some sock ->
  connection sock = Some conn ->
  conn_store s !! conn = Some this ->
  room this = None ->
  exists s',
    on_close k s = Throw TypeError s' [] /\
    all_connections s' = all_connections s /\
    conn_store s' = conn_store s /\
    room_store s' = room_store s /\
    rooms s' = rooms s /\
    connectionCount s' = connectionCount s - 1.
Proof.
  intros Hk Hconn Hthis Hroom. unfold on_close, update_connectionCount.
  rewrite modify_bind. set (s1 := mkServer _ _ _ _ _ _ _).
  rewrite (mbind_pure _ _ s1 sock (the_socket_run k s1 _ Hk)), Hconn.
  rewrite (mbind_pure _ _ s1 this (the_connection_run conn s1 _ Hthis)).
  unfold Connection_leave.
  rewrite mbind_run.
  rewrite (mbind_pure _ _ s1 this (the_connection_run conn s1 _ Hthis)), Hroom.
  exists s1. now repeat split.
Qed.

(** The ['close'] handler for a connection that is in a room: the
    connection leaves the room, the room is deleted from the map when that
    empties it, and the connection leaves the registry. *)
Lemma close_in_room (s : Server) (k : nat) (sock : Socket) (conn : nat)
    (this : Connection) (r : nat) (rm : Room) :
  sockets s !! k = Some sock ->
  connection sock = Some conn ->
  conn_store s !! conn = Some this ->
  room this = Some r ->
  room_store s !! r = Some rm ->
  exists s',
    on_close k s = Ok tt s' [] /\
    all_connections s' = remove_first conn (all_connections s) /\
    conn_store s' = alter (set_room None) conn (conn_store s) /\
    room_store s' =
      alter (fun rm => mkRoom (code rm) (remove_first conn (connections rm))) r
            (room_store s) /\
    rooms s' =
      (if Z.of_nat (length (remove_first conn (connections rm))) <? 1
       then delete (code rm) (rooms s) else rooms s) /\
    connectionCount s' = connectionCount s - 1.
Proof.
  intros Hk Hconn Hthis Hroom Hr. unfold on_close, update_connectionCount.
  rewrite modify_bind. set (s1 := mkServer _ _ _ _ _ _ _).
  rewrite (mbind_pure _ _ s1 sock (the_socket_run k s1 _ Hk)), Hconn.
  rewrite (mbind_pure _ _ s1 this (the_connection_run conn s1 _ Hthis)).
  unfold Connection_leave. rewrite mbind_assoc.
  rewrite (mbind_pure _ _ s1 this (the_connection_run conn s1 _ Hthis)), Hroom.
  unfold Room_remove, update_room, update_connection.
  rewrite mbind_assoc, !modify_bind.
  cbn [from_option]. unfold delete_if_empty, Room_count.
  set (s3 := mkServer _ _ _ _ _ _ _). rewrite !mbind_assoc.
  assert (Hr3 : room_store s3 !! r
                = Some (mkRoom (code rm) (remove_first conn (connections rm)))).
  { cbn. now rewrite list_lookup_alter_eq, Hr. }
  rewrite (mbind_pure _ _ s3 _ (the_room_run r s3 _ Hr3)), mret_bind.
  cbn [connections].
  destruct (Z.of_nat (length (remove_first conn (connections rm))) <? 1).
  - rewrite mbind_assoc, (mbind_pure _ _ s3 _ (the_room_run r s3 _ Hr3)).
    unfold update_rooms, update_all_connections. rewrite modify_bind.
    eexists. split; [reflexivity|]. now cbn.
  - rewrite mret_bind. unfold update_all_connections.
    eexists. split; [reflexivity|]. now cbn.
Qed.

(** [Room.clients] skips every member whose [playerId] is falsy, so a
    member whose [playerId] is 0 never shows in the snapshot. *)
Lemma clients_of_truthy (members : list (nat * Connection)) :
  clients_of members
  = clients_of (List.filter (fun m => truthy (playerId m.2)) members).
Proof.
  unfold clients_of. f_equal.
  match goal with |- fold_left ?f _ _ = _ => set (step := f) end.
  enough (Hgen : forall ids,
            fold_left step members ids
            = fold_left step (List.filter (fun m => truthy (playerId m.2)) members) ids)
    by apply Hgen.
  induction members as [|m members IH]; intros ids; [reflexivity|].
  cbn [fold_left List.filter].
  destruct (truthy (playerId m.2)) eqn:Hm; cbn [fold_left].
  - rewrite IH. reflexivity.
  - replace (step ids m) with ids by (unfold step; now rewrite Hm). apply IH.
Qed.

Lemma clients_of_player_zero (members : list (nat * Connection)) :
  Forall (fun m => playerId m.2 = VNum 0) members ->
  clients_of members = VObj [].
Proof.
  intros Hzero. rewrite clients_of_truthy.
  replace (List.filter _ members) with (@nil (nat * Connection)); [reflexivity|].
  induction Hzero as [|m members Hm _ IH]; [reflexivity|].
  cbn. now rewrite Hm.
Qed.

(** The message handler on a frame whose payload is an array with too few
    elements for a Join: the socket is terminated and nothing changes. *)
Lemma join_short_array (s : Server) (k : nat) (sock : Socket) (buf : list byte)
    (type : Z) (elems : list value) :
  sockets s !! k = Some sock ->
  decode buf = Frame type (VArr elems) ->
  type = Events_code Join ->
  type <> Events_code Authentication ->
  (length elems < 3)%nat ->
  on_message k buf s = Ok tt s [SocketTerminate k].
Proof.
  intros Hk Hdec Hjoin Hauth Hlen. unfold on_message.
  rewrite (mbind_pure _ _ s sock (the_socket_run _ _ _ Hk)), Hdec.
  destruct (Z.eqb_spec type (Events_code Authentication)); [contradiction|].
  destruct (Z.eqb_spec type (Events_code Join)); [|contradiction].
  cbn [shorter_than]. rewrite mret_bind.
  destruct (Z.ltb_spec (Z.of_nat (length elems)) 3); [reflexivity|lia].
Qed.

(** C4 fails for a Join frame without payload: the decoded data is
    [null], [data?.length < 3] compares [undefined] with 3 and is false,
    and [data[0]] throws a TypeError.  The socket is not terminated; no
    room is created or joined. *)
Theorem join_without_payload (s : Server) (k : nat) (sock : Socket)
    (buf : list byte) (type : Z) :
  sockets s !! k = Some sock ->
  decode buf = Frame type VNull ->
  type = Events_code Join ->
  type <> Events_code Authentication ->
  on_message k buf s = Throw TypeError s [] /\
  ~ terminates (on_message k buf s) k.
Proof.
  intros Hk Hdec Hjoin Hauth.
  assert (Hrun : on_message k buf s = Throw TypeError s []).
  { unfold on_message.
    rewrite (mbind_pure _ _ s sock (the_socket_run _ _ _ Hk)), Hdec.
    destruct (Z.eqb_spec type (Events_code Authentication)); [contradiction|].
    destruct (Z.eqb_spec type (Events_code Join)); [|contradiction].
    reflexivity. }
  split; [exact Hrun|]. rewrite Hrun. cbn. apply not_elem_of_nil.
Qed.

End Handlers.


(** ** The liveness sweep *)

Lemma ping_effects_cons (s : Server) (c : nat) (refs : list nat) (x : Connection) :
  conn_store s !! c = Some x ->
  ping_effects s (c :: refs) = ping_effect x :: ping_effects s refs.
Proof. intros Hx. unfold ping_effects. cbn. now rewrite Hx. Qed.

Lemma alter_fixed {A} (f : A -> A) (l : list A) (i : nat) (x : A) :
  l !! i = Some x -> f x = x -> alter f i l = l.
Proof.
  intros Hi Hf. apply list_eq. intros j. destruct (decide (i = j)) as [->|Hne].
  - rewrite list_lookup_alter_eq, Hi. cbn. now rewrite Hf.
  - now rewrite list_lookup_alter_ne.
Qed.

Lemma set_isAlive_evicted (x : Connection) :
  evicts x = true -> set_isAlive false x = x.
Proof.
  destruct x as [? ? ? ? ? [[|]|]]; cbn; try discriminate. reflexivity.
Qed.

Lemma ping_one_run (c : nat) (s : Server) (x : Connection) :
  conn_store s !! c = Some x ->
  exists s',
    ping_one c s = Ok tt s' [ping_effect x] /\
    conn_store s' = alter (set_isAlive false) c (conn_store s) /\
    all_connections s' = all_connections s /\
    sockets s' = sockets s.
Proof.
  intros Hc. unfold ping_one.
  rewrite (mbind_pure _ _ s x (the_connection_run _ _ _ Hc)).
  unfold ping_effect, evicts.
  destruct (isAlive x) as [[|]|] eqn:Halive.
  - eexists. split; [unfold update_connection; now rewrite modify_bind|]. now cbn.
  - exists s. split; [reflexivity|]. split; [|now split].
    symmetry. apply (alter_fixed _ _ _ x Hc).
    apply set_isAlive_evicted. unfold evicts. now rewrite Halive.
  - eexists. split; [unfold update_connection; now rewrite modify_bind|]. now cbn.
Qed.

Lemma omap_ext_in {A B} (f g : A -> option B) (l : list A) :
  (forall a, a ∈ l -> f a = g a) -> omap f l = omap g l.
Proof.
  induction l as [|a l IH]; intros Hfg; [reflexivity|]. cbn.
  rewrite (Hfg a) by constructor. rewrite IH; [reflexivity|].
  intros a' Ha'. apply Hfg. now constructor.
Qed.

(** A pass over distinct, valid references: every one of them gets the
    action its flag asks for, and ends with the flag [false]. *)
Lemma sweep_run (refs : list nat) (s : Server) :
  NoDup refs ->
  Forall (fun c => is_Some (conn_store s !! c)) refs ->
  exists s',
    forEach ping_one refs s = Ok tt s' (ping_effects s refs) /\
    (forall c, conn_store s' !! c =
               if bool_decide (c ∈ refs)
               then set_isAlive false <$> conn_store s !! c
               else conn_store s !! c) /\
    all_connections s' = all_connections s /\
    sockets s' = sockets s.
Proof.
  revert s. induction refs as [|c refs IH]; intros s Hnd Hvalid.
  - exists s. split; [reflexivity|]. split; [|now split].
    intros c. rewrite bool_decide_eq_false_2; [reflexivity|apply not_elem_of_nil].
  - apply NoDup_cons in Hnd as [Hc Hnd].
    apply Forall_cons in Hvalid as [[x Hx] Hvalid].
    destruct (ping_one_run c s x Hx) as (s1 & Hrun1 & Hstore1 & Hall1 & Hsock1).
    destruct (IH s1 Hnd) as (s' & Hrun & Hstore & Hall & Hsock).
    { eapply Forall_impl; [exact Hvalid|]. intros c' [x' Hx']. rewrite Hstore1.
      destruct (decide (c = c')) as [->|Hne].
      - rewrite list_lookup_alter_eq, Hx'. now eexists.
      - rewrite list_lookup_alter_ne by assumption. now exists x'. }
    exists s'. split.
    { rewrite (ping_effects_cons _ _ _ _ Hx).
      cbn [forEach]. rewrite (mbind_Ok _ _ _ _ _ _ Hrun1), Hrun.
      cbn [after app]. do 2 f_equal. symmetry.
      apply omap_ext_in. intros c' Hc'. rewrite Hstore1.
      rewrite list_lookup_alter_ne; [reflexivity|]. intros ->. contradiction. }
    split; [|split; congruence].
    intros c'. rewrite Hstore, Hstore1.
    destruct (decide (c = c')) as [->|Hne].
    + rewrite (bool_decide_eq_false_2 (c' ∈ refs)) by assumption.
      rewrite bool_decide_eq_true_2 by constructor.
      apply list_lookup_alter_eq.
    + rewrite list_lookup_alter_ne by assumption.
      destruct (decide (c' ∈ refs)) as [Hin|Hout].
      * rewrite !bool_decide_eq_true_2; [reflexivity| |assumption]. now constructor.
      * rewrite !bool_decide_eq_false_2; [reflexivity| |assumption].
        intros [Heq|Hin]%elem_of_cons; [congruence|contradiction].
Qed.

Lemma ping_effects_lookup (s : Server) (refs : list nat) (i c : nat) (x : Connection) :
  Forall (fun c => is_Some (conn_store s !! c)) refs ->
  refs !! i = Some c ->
  conn_store s !! c = Some x ->
  ping_effects s refs !! i = Some (ping_effect x).
Proof.
  intros Hvalid. revert i. induction Hvalid as [|c' refs [x' Hx'] _ IH]; intros i Hi Hc.
  - discriminate.
  - rewrite (ping_effects_cons _ _ _ _ Hx').
    destruct i as [|i]; cbn in *.
    + injection Hi as ->. congruence.
    + now apply IH.
Qed.

(** Which sockets a pass terminates. *)
Lemma ping_effects_terminate (s : Server) (refs : list nat) (k : nat) :
  SocketTerminate k ∈ ping_effects s refs <->
  exists c x, c ∈ refs /\ conn_store s !! c = Some x /\
              socket x = k /\ isAlive x = Some false.
Proof.
  unfold ping_effects. rewrite list_elem_of_omap. split.
  - intros (c & Hc & Hfx). destruct (conn_store s !! c) as [x|] eqn:Hx; [|discriminate].
    cbn in Hfx. injection Hfx as Hfx. unfold ping_effect, evicts in Hfx.
    destruct (isAlive x) as [[|]|] eqn:Halive; try discriminate.
    injection Hfx as Hk. now exists c, x.
  - intros (c & x & Hc & Hx & Hk & Halive). exists c. split; [assumption|].
    rewrite Hx. cbn. unfold ping_effect, evicts. now rewrite Halive, Hk.
Qed.

Lemma ping_run (s : Server) :
  NoDup (all_connections s) ->
  Forall (fun c => is_Some (conn_store s !! c)) (all_connections s) ->
  exists s',
    ping s = Ok tt s' (ping_effects s (all_connections s)) /\
    (forall c, conn_store s' !! c =
               if bool_decide (c ∈ all_connections s)
               then set_isAlive false <$> conn_store s !! c
               else conn_store s !! c) /\
    all_connections s' = all_connections s /\
    sockets s' = sockets s.
Proof.
  intros Hnd Hvalid. unfold ping. rewrite get_bind. now apply sweep_run.
Qed.

Lemma on_pong_run (k : nat) (s : Server) (sock : Socket) (c : nat) :
  sockets s !! k = Some sock ->
  connection sock = Some c ->
  exists s',
    on_pong k s = Ok tt s' [] /\
    conn_store s' = alter (set_isAlive true) c (conn_store s) /\
    all_connections s' = all_connections s /\
    sockets s' = sockets s.
Proof.
  intros Hk Hc. unfold on_pong.
  rewrite (mbind_pure _ _ s sock (the_socket_run _ _ _ Hk)), Hc.
  eexists. split; [reflexivity|]. now cbn.
Qed.

Lemma set_isAlive_twice (b : bool) (o : option Connection) :
  set_isAlive b <$> (set_isAlive b <$> o) = set_isAlive b <$> o.
Proof. now destruct o. Qed.

Section Liveness.

Context `{Platform}.

(** Pongs from authenticated sockets: the connections they reach are
    alive afterwards, the others are as they were. *)
Lemma pongs_run (ks : list nat) (s : Server) :
  Forall (fun k => exists sock c,
            sockets s !! k = Some sock /\ connection sock = Some c) ks ->
  exists s',
    run (EPong <$> ks) s = Ok tt s' [] /\
    (forall c, conn_store s' !! c =
               if answered s ks c
               then set_isAlive true <$> conn_store s !! c
               else conn_store s !! c) /\
    all_connections s' = all_connections s /\
    sockets s' = sockets s.
Proof.
  revert s. induction ks as [|k ks IH]; intros s Hks.
  - exists s. now repeat split.
  - apply Forall_cons in Hks as [(sock & ck & Hk & Hck) Hks].
    destruct (on_pong_run k s sock ck Hk Hck) as (s1 & Hrun1 & Hstore1 & Hall1 & Hsock1).
    destruct (IH s1) as (s' & Hrun & Hstore & Hall & Hsock).
    { now rewrite Hsock1. }
    exists s'. split.
    { unfold run in *. cbn [fmap list_fmap forEach handle].
      now rewrite (mbind_Ok _ _ _ _ _ _ Hrun1), after_nil. }
    split; [|split; congruence].
    intros c. rewrite Hstore, Hstore1. unfold answered. cbn [existsb].
    rewrite Hsock1, Hk, Hck.
    destruct (existsb _ ks).
    + rewrite orb_true_r. destruct (decide (ck = c)) as [->|Hne].
      * rewrite list_lookup_alter_eq. apply set_isAlive_twice.
      * now rewrite list_lookup_alter_ne.
    + rewrite orb_false_r. destruct (decide (ck = c)) as [->|Hne].
      * rewrite bool_decide_eq_true_2 by reflexivity. apply list_lookup_alter_eq.
      * rewrite bool_decide_eq_false_2 by congruence.
        now rewrite list_lookup_alter_ne.
Qed.

(** X30: what two sweeps do for one entry of the registry.  From a state
    whose registry holds distinct, valid connections, run a sweep, then
    pongs from any authenticated sockets, then the next sweep.  Both
    sweeps return.  On the turn of a registered connection the first
    sweep terminates its socket when its [isAlive] flag is [false] and
    probes it otherwise; a sweep terminates a socket only on account of a
    registered connection with that socket whose flag is [false].  On the
    turn of the connection the second sweep terminates its socket when no
    pong came in between from a socket that refers to this connection,
    and probes it when one did.  The registry and the sockets are then as
    they were, so the same holds of the sweeps that follow.  This is said
    of each entry on its own: when two entries have the same socket, the
    turn of one can terminate the socket that the turn of the other
    probes. *)
Theorem liveness_eviction (s : Server) (ks : list nat) (c : nat) (x : Connection) :
  NoDup (all_connections s) ->
  Forall (fun c => is_Some (conn_store s !! c)) (all_connections s) ->
  Forall (fun k => exists sock c,
            sockets s !! k = Some sock /\ connection sock = Some c) ks ->
  c ∈ all_connections s ->
  conn_store s !! c = Some x ->
  exists s1 fx1 s2 s3 fx3 i,
    ping s = Ok tt s1 fx1 /\
    run (EPong <$> ks) s1 = Ok tt s2 [] /\
    ping s2 = Ok tt s3 fx3 /\
    all_connections s2 = all_connections s /\
    all_connections s !! i = Some c /\
    fx1 !! i = Some (if evicts x then SocketTerminate (socket x)
                     else SocketPing (socket x)) /\
    (forall k, SocketTerminate k ∈ fx1 <->
               exists c' x', c' ∈ all_connections s /\
                             conn_store s !! c' = Some x' /\
                             socket x' = k /\ isAlive x' = Some false) /\
    fx3 !! i = Some (if answered s ks c then SocketPing (socket x)
                     else SocketTerminate (socket x)) /\
    all_connections s3 = all_connections s /\
    Forall (fun c => is_Some (conn_store s3 !! c)) (all_connections s3) /\
    sockets s3 = sockets s.
Proof.
  intros Hnd Hvalid Hks Hc Hx.
  destruct (ping_run s Hnd Hvalid) as (s1 & Hrun1 & Hstore1 & Hall1 & Hsock1).
  destruct (pongs_run ks s1) as (s2 & Hrun2 & Hstore2 & Hall2 & Hsock2).
  { now rewrite Hsock1. }
  assert (Hvalid2 : Forall (fun c => is_Some (conn_store s2 !! c)) (all_connections s2)).
  { rewrite Hall2, Hall1. eapply Forall_impl; [exact Hvalid|].
    intros c' [x' Hx']. rewrite Hstore2, Hstore1, Hx'.
    destruct (answered s1 ks c'), (bool_decide (c' ∈ all_connections s)); now eexists. }
  destruct (ping_run s2) as (s3 & Hrun3 & Hstore3 & Hall3 & Hsock3);
    [congruence|exact Hvalid2|].
  apply list_elem_of_lookup in Hc as Hi. destruct Hi as [i Hi].
  exists s1, (ping_effects s (all_connections s)), s2, s3,
    (ping_effects s2 (all_connections s2)), i.
  split; [exact Hrun1|]. split; [exact Hrun2|]. split; [exact Hrun3|].
  split; [congruence|]. split; [exact Hi|].
  split; [now apply ping_effects_lookup with (c := c)|].
  split; [apply ping_effects_terminate|].
  assert (Hx2 : conn_store s2 !! c =
                Some (if answered s ks c then set_isAlive true (set_isAlive false x)
                      else set_isAlive false x)).
  { rewrite Hstore2, Hstore1, Hx, bool_decide_eq_true_2 by assumption.
    unfold answered. rewrite Hsock1. now destruct (existsb _ ks). }
  split.
  { erewrite (ping_effects_lookup s2 _ i c); [|exact Hvalid2|congruence|exact Hx2].
    now destruct (answered s ks c). }
  split; [congruence|]. split; [|congruence].
  rewrite Hall3. eapply Forall_impl; [exact Hvalid2|].
  intros c' [x' Hx']. rewrite Hstore3, Hx'.
  destruct (bool_decide (c' ∈ all_connections s2)); now eexists.
Qed.

End Liveness.

(** ** A program logic for the handlers *)

Lemma hoare_bind {A B} (P : Server -> Prop) (R : A -> Server -> Prop)
    (Q : B -> Server -> Prop) (m : M A) (k : A -> M B) :
  hoare P m R -> (forall a, hoare (R a) (k a) Q) -> hoare P (m ≫= k) Q.
Proof.
  intros Hm Hk s b s' fx HP Hrun. rewrite mbind_run in Hrun.
  destruct (m s) as [a s1 fx1| |] eqn:Hms; [|discriminate..].
  destruct (k a s1) as [b' s2 fx2| |] eqn:Hks; [|discriminate..].
  cbn in Hrun. injection Hrun as -> -> _.
  eapply Hk; [|exact Hks]. eapply Hm; [exact HP|exact Hms].
Qed.

Lemma hoare_weaken {A} (P P' : Server -> Prop) (Q Q' : A -> Server -> Prop) (m : M A) :
  hoare P' m Q' -> (forall s, P s -> P' s) -> (forall a s, Q' a s -> Q a s) ->
  hoare P m Q.
Proof. intros Hm HP HQ s a s' fx Hs Hrun. eapply HQ, Hm; eauto. Qed.

Lemma hoare_mret {A} (P : Server -> Prop) (a : A) :
  hoare P (mret a) (fun a' s => a' = a /\ P s).
Proof. intros s a' s' fx HP Hrun. injection Hrun as ? ? _. subst. now split. Qed.

Lemma hoare_get (P : Server -> Prop) : hoare P get (fun a s => a = s /\ P s).
Proof. intros s a s' fx HP Hrun. injection Hrun as ? ? _. subst. now split. Qed.

Lemma hoare_modify (P : Server -> Prop) (f : Server -> Server) :
  hoare P (modify f) (fun _ s' => exists s, s' = f s /\ P s).
Proof. intros s a s' fx HP Hrun. injection Hrun as _ ? _. subst. now exists s. Qed.

Lemma hoare_emit (P : Server -> Prop) (e : effect) :
  hoare P (emit e) (fun _ => P).
Proof. intros s a s' fx HP Hrun. injection Hrun as _ ? _. now subst. Qed.

Lemma hoare_throw {A} (P : Server -> Prop) (Q : A -> Server -> Prop) (e : js_error) :
  hoare P (throw e) Q.
Proof. intros s a s' fx _ [=]. Qed.

Lemma hoare_unmodelled {A} (P : Server -> Prop) (Q : A -> Server -> Prop) :
  hoare P unmodelled Q.
Proof. intros s a s' fx _ [=]. Qed.

Lemma hoare_lift {A} (P : Server -> Prop) (o : option A) :
  hoare P (lift o) (fun a s => o = Some a /\ P s).
Proof.
  destruct o as [a|]; [|apply hoare_unmodelled].
  intros s a' s' fx HP Hrun. injection Hrun as ? ? _. subst. now split.
Qed.

Lemma hoare_drop {A} (P : Server -> Prop) (Q : A -> Server -> Prop) (m : M A) :
  hoare P m (fun a s => Q a s /\ P s) -> hoare P m (fun _ => P).
Proof. intros Hm. eapply hoare_weaken; [exact Hm|auto|]. now intros a s [_ HP]. Qed.

Lemma hoare_mapM {A B} (P : Server -> Prop) (f : A -> M B) (l : list A) :
  (forall x, hoare P (f x) (fun _ => P)) -> hoare P (mapM f l) (fun _ => P).
Proof.
  intros Hf. induction l as [|x l IH]; cbn [mapM].
  - eapply hoare_drop, hoare_mret.
  - eapply hoare_bind; [apply Hf|]. intros y.
    eapply hoare_bind; [apply IH|]. intros ys. eapply hoare_drop, hoare_mret.
Qed.

Lemma hoare_forEach {A} (P : Server -> Prop) (f : A -> M unit) (l : list A) :
  (forall x, hoare P (f x) (fun _ => P)) -> hoare P (forEach f l) (fun _ => P).
Proof.
  intros Hf. induction l as [|x l IH]; cbn [forEach].
  - eapply hoare_drop, hoare_mret.
  - eapply hoare_bind; [apply Hf|]. intros []. apply IH.
Qed.

Lemma hoare_the_socket (P : Server -> Prop) (k : nat) :
  hoare P (the_socket k) (fun sock s => sockets s !! k = Some sock /\ P s).
Proof.
  unfold the_socket. eapply hoare_bind; [apply hoare_get|].
  intros s0.
  eapply hoare_weaken; [apply (hoare_lift (fun s => s0 = s /\ P s))|auto|].
  cbn. intros sock s [Hk [-> HP]]. now split.
Qed.

Lemma hoare_the_connection (P : Server -> Prop) (c : nat) :
  hoare P (the_connection c) (fun x s => conn_store s !! c = Some x /\ P s).
Proof.
  unfold the_connection. eapply hoare_bind; [apply hoare_get|].
  intros s0.
  eapply hoare_weaken; [apply (hoare_lift (fun s => s0 = s /\ P s))|auto|].
  cbn. intros x s [Hc [-> HP]]. now split.
Qed.

Lemma hoare_the_room (P : Server -> Prop) (r : nat) :
  hoare P (the_room r) (fun x s => room_store s !! r = Some x /\ P s).
Proof.
  unfold the_room. eapply hoare_bind; [apply hoare_get|].
  intros s0.
  eapply hoare_weaken; [apply (hoare_lift (fun s => s0 = s /\ P s))|auto|].
  cbn. intros x s [Hr [-> HP]]. now split.
Qed.

Lemma preserves_bind {A B} (P : Server -> Prop) (m : M A) (k : A -> M B) :
  preserves P m -> (forall a, preserves P (k a)) -> preserves P (m ≫= k).
Proof. intros Hm Hk. eapply hoare_bind; [exact Hm|exact Hk]. Qed.

Lemma preserves_mret {A} (P : Server -> Prop) (a : A) : preserves P (mret a).
Proof. eapply hoare_drop, hoare_mret. Qed.

Lemma preserves_get (P : Server -> Prop) : preserves P get.
Proof. eapply hoare_drop, hoare_get. Qed.

Lemma preserves_lift {A} (P : Server -> Prop) (o : option A) : preserves P (lift o).
Proof. eapply hoare_drop, hoare_lift. Qed.

Lemma preserves_the_socket (P : Server -> Prop) (k : nat) : preserves P (the_socket k).
Proof. eapply hoare_drop, hoare_the_socket. Qed.

Lemma preserves_the_connection (P : Server -> Prop) (c : nat) :
  preserves P (the_connection c).
Proof. eapply hoare_drop, hoare_the_connection. Qed.

Lemma preserves_the_room (P : Server -> Prop) (r : nat) : preserves P (the_room r).
Proof. eapply hoare_drop, hoare_the_room. Qed.

Lemma preserves_modify (P : Server -> Prop) (f : Server -> Server) :
  (forall s, P s -> P (f s)) -> preserves P (modify f).
Proof.
  intros Hf s a s' fx HP Hrun. injection Hrun as _ ? _. subst. auto.
Qed.

Lemma preserves_emit (P : Server -> Prop) (e : effect) : preserves P (emit e).
Proof. apply hoare_emit. Qed.

Lemma preserves_throw {A} (P : Server -> Prop) (e : js_error) :
  preserves P (throw (A := A) e).
Proof. apply hoare_throw. Qed.

Lemma preserves_unmodelled {A} (P : Server -> Prop) :
  preserves P (unmodelled (A := A)).
Proof. apply hoare_unmodelled. Qed.

Create HintDb preserve.

#[local] Hint Resolve preserves_mret preserves_get preserves_lift
  preserves_the_socket preserves_the_connection preserves_the_room
  preserves_emit preserves_throw preserves_unmodelled : preserve.

(** Walk through a handler body: binds, branches and the steps that the
    hint database knows to keep the predicate. *)
Ltac preserve :=
  repeat first
    [ progress intros
    | solve [auto with preserve]
    | apply preserves_bind
    | apply hoare_mapM
    | apply hoare_forEach
    | match goal with
      | |- preserves _ (match ?x with _ => _ end) => destruct x
      | |- preserves _ (from_option _ _ ?x) => destruct x; cbn [from_option]
      | |- hoare _ (match ?x with _ => _ end) _ => destruct x
      end ].

Section Reachable.

Context `{Platform}.

(** Reading the stores and writing to sockets keeps any predicate. *)
Lemma preserves_Connection_send (P : Server -> Prop) c event data :
  preserves P (Connection_send c event data).
Proof. unfold Connection_send. preserve. Qed.

Lemma preserves_Room_filter (P : Server -> Prop) r test :
  preserves P (Room_filter r test).
Proof. unfold Room_filter. preserve. Qed.

#[local] Hint Resolve preserves_Connection_send preserves_Room_filter : preserve.

Lemma preserves_Room_broadcast (P : Server -> Prop) r test event args :
  preserves P (Room_broadcast r test event args).
Proof. unfold Room_broadcast. preserve. Qed.

Lemma preserves_Room_count (P : Server -> Prop) r : preserves P (Room_count r).
Proof. unfold Room_count. preserve. Qed.

Lemma preserves_Room_find (P : Server -> Prop) r peer :
  preserves P (Room_find r peer).
Proof. unfold Room_find. preserve. Qed.

Lemma preserves_Room_clients (P : Server -> Prop) r test :
  preserves P (Room_clients r test).
Proof. unfold Room_clients. preserve. Qed.

Lemma preserves_shorter_than (P : Server -> Prop) data n :
  preserves P (shorter_than data n).
Proof. unfold shorter_than. preserve. Qed.

Lemma preserves_index (P : Server -> Prop) data i : preserves P (index data i).
Proof. unfold index. preserve. Qed.

Lemma preserves_as_string (P : Server -> Prop) v : preserves P (as_string v).
Proof. unfold as_string. preserve. Qed.

#[local] Hint Resolve preserves_Room_broadcast preserves_Room_count
  preserves_Room_find preserves_Room_clients preserves_shorter_than
  preserves_index preserves_as_string : preserve.

(** *** The stores change in ways that keep the references valid *)

Lemma remove_first_sublist (x : nat) (l : list nat) : sublist (remove_first x l) l.
Proof.
  induction l as [|y l IH]; cbn; [constructor|].
  destruct (Nat.eqb y x); now constructor.
Qed.

Lemma remove_first_NoDup (x : nat) (l : list nat) :
  NoDup l -> NoDup (remove_first x l).
Proof. intros Hl. eapply sublist_NoDup; [exact Hl|apply remove_first_sublist]. Qed.

Lemma remove_first_Forall (P : nat -> Prop) (x : nat) (l : list nat) :
  Forall P l -> Forall P (remove_first x l).
Proof.
  induction 1 as [|y l Hy Hl IH]; cbn; [constructor|].
  destruct (Nat.eqb y x); [assumption|now constructor].
Qed.

Ltac wf_fields :=
  match goal with
  | Hwf : wf _ |- _ => destruct Hwf as [Hnd Hreg Hmem Hsock]
  end;
  constructor; unfold valid in *; cbn [all_connections room_store conn_store sockets] in *;
  rewrite ?length_alter.

Lemma wf_update_connection (c : nat) (f : Connection -> Connection) (s : Server) :
  wf s ->
  wf (mkServer (rooms s) (all_connections s) (connectionCount s) (room_store s)
        (alter f c (conn_store s)) (sockets s) (generated s)).
Proof. intros Hwf. wf_fields; assumption. Qed.

Lemma preserves_update_connection (c : nat) (f : Connection -> Connection) :
  preserves wf (update_connection c f).
Proof. apply preserves_modify, wf_update_connection. Qed.

Lemma preserves_with_update_connection (c0 c : nat) (f : Connection -> Connection) :
  preserves (wf_with c0) (update_connection c f).
Proof.
  apply preserves_modify. intros s [Hwf Hc]. split.
  - now apply wf_update_connection.
  - unfold valid in *. cbn. now rewrite length_alter.
Qed.

Lemma wf_update_room (r : nat) (f : Room -> Room) (s : Server) :
  (forall rm, Forall (valid s) (connections rm) -> Forall (valid s) (connections (f rm))) ->
  wf s ->
  wf (mkServer (rooms s) (all_connections s) (connectionCount s)
        (alter f r (room_store s)) (conn_store s) (sockets s) (generated s)).
Proof.
  intros Hf Hwf. wf_fields; try assumption.
  apply Forall_alter; [assumption|]. intros rm _. apply Hf.
Qed.

Lemma preserves_Room_remove (r c : nat) : preserves wf (Room_remove r c).
Proof.
  apply preserves_modify. intros s. apply wf_update_room.
  intros rm. cbn. apply remove_first_Forall.
Qed.

Lemma hoare_Room_add (r c : nat) :
  hoare (wf_with c) (Room_add r c) (fun _ => wf).
Proof.
  intros s a s' fx [Hwf Hc] Hrun. injection Hrun as _ ? _. subst.
  apply wf_update_room; [|assumption].
  intros rm Hrm. cbn. apply Forall_app. split; [assumption|]. now constructor.
Qed.

Lemma preserves_update_rooms (f : gmap string nat -> gmap string nat) :
  preserves wf (update_rooms f).
Proof. apply preserves_modify. intros s Hwf. wf_fields; assumption. Qed.

Lemma preserves_update_connectionCount (f : Z -> Z) :
  preserves wf (update_connectionCount f).
Proof. apply preserves_modify. intros s Hwf. wf_fields; assumption. Qed.

Lemma preserves_unregister (c : nat) :
  preserves wf (update_all_connections (remove_first c)).
Proof.
  apply preserves_modify. intros s Hwf. wf_fields; try assumption.
  - now apply remove_first_NoDup.
  - now apply remove_first_Forall.
Qed.

#[local] Hint Resolve preserves_update_connection preserves_with_update_connection
  preserves_Room_remove preserves_update_rooms preserves_update_connectionCount
  preserves_unregister : preserve.

(** *** The handlers *)

Lemma preserves_on_connection : preserves wf on_connection.
Proof.
  unfold on_connection. preserve.
  apply preserves_modify. intros s Hwf. wf_fields; try assumption.
  apply Forall_app. split; [assumption|]. constructor; [|constructor]. discriminate.
Qed.

Lemma preserves_on_connectTimeout k : preserves wf (on_connectTimeout k).
Proof. unfold on_connectTimeout. preserve. Qed.

Lemma preserves_on_authenticate k data : preserves wf (on_authenticate k data).
Proof.
  unfold on_authenticate. apply preserves_bind; [preserve|]. intros sock.
  eapply hoare_bind; [apply hoare_get|]. intros s0.
  apply hoare_bind with (R := fun _ => wf); [|preserve].
  intros s a s' fx [-> Hwf] Hrun. injection Hrun as _ ? _. subst s'.
  wf_fields; rewrite ?length_app; cbn [length].
  - apply NoDup_app. split; [assumption|]. split; [|apply NoDup_singleton].
    intros c Hc ->%list_elem_of_singleton.
    rewrite Forall_forall in Hreg. specialize (Hreg _ Hc). lia.
  - apply Forall_app. split; [|constructor; [lia|constructor]].
    eapply Forall_impl; [exact Hreg|]. cbn. intros; lia.
  - eapply Forall_impl; [exact Hmem|]. cbn. intros rm Hrm.
    eapply Forall_impl; [exact Hrm|]. cbn. intros; lia.
  - apply Forall_alter.
    + eapply Forall_impl; [exact Hsock|]. cbn. intros sock' Hs c Hc.
      specialize (Hs c Hc). lia.
    + cbn. intros sock' _ _ c [= <-]. lia.
Qed.

Lemma hoare_Connection_join c r pid :
  hoare (wf_with c) (Connection_join c r pid) (fun _ => wf).
Proof.
  unfold Connection_join.
  eapply hoare_bind; [apply preserves_with_update_connection|]. intros [].
  eapply hoare_bind; [apply preserves_with_update_connection|]. intros [].
  eapply hoare_bind; [apply hoare_Room_add|]. intros [].
  preserve.
Qed.

Lemma preserves_on_join k c pid cid : preserves wf (on_join k c pid cid).
Proof.
  unfold on_join. eapply hoare_bind; [apply hoare_the_socket|]. intros sock.
  destruct (connection sock) as [conn|] eqn:Hconn.
  2: { intros s a s' fx [_ Hwf] Hrun. injection Hrun as _ ? _. now subst. }
  eapply hoare_weaken with (P' := wf_with conn) (Q' := fun _ => wf); [|..|auto].
  2: { intros s [Hk Hwf]. split; [assumption|].
       destruct Hwf as [_ _ _ Hsock].
       exact (Forall_lookup_1 _ _ _ _ Hsock Hk conn Hconn). }
  eapply hoare_bind with (R := fun _ => wf_with conn).
  { apply preserves_modify. intros s [Hwf Hc]. split; [|exact Hc].
    wf_fields; try assumption. apply Forall_alter; [assumption|]. now cbn. }
  intros []. eapply hoare_bind; [apply (preserves_get (wf_with conn))|]. intros s0.
  eapply hoare_bind with (R := fun _ => wf_with conn).
  { destruct (rooms s0 !! c); [apply preserves_mret|].
    apply preserves_bind; [|intros; apply preserves_mret].
    apply preserves_modify. intros s [Hwf Hc]. split; [|exact Hc].
    wf_fields; try assumption.
    apply Forall_app. split; [assumption|]. repeat constructor. }
  intros r. eapply hoare_bind; [apply (preserves_Room_filter (wf_with conn))|].
  intros members. destruct (spoofs cid members).
  - intros s a s' fx [Hwf _] Hrun. injection Hrun as _ ? _. now subst.
  - apply hoare_Connection_join.
Qed.

(** What the ['join'] handler leaves alone: a room other than the one
    the Join names keeps its member list, the joining connection
    included.  Nothing on the path of a Join detaches a connection. *)
Lemma join_keeps_other_rooms k c pid cid (r1 : nat) (rm1 : Room) :
  hoare (fun s => room_store s !! r1 = Some rm1 /\ rooms s !! c <> Some r1)
        (on_join k c pid cid)
        (fun _ s' => room_store s' !! r1 = Some rm1).
Proof.
  set (P := fun s => room_store s !! r1 = Some rm1 /\ rooms s !! c <> Some r1).
  set (Q := fun s => room_store s !! r1 = Some rm1).
  unfold on_join. eapply hoare_bind; [apply (preserves_the_socket P)|]. intros sock.
  destruct (connection sock) as [conn|].
  2: { intros s a s' fx [HP _] Hrun. injection Hrun as _ ? _. now subst. }
  eapply hoare_bind with (R := fun _ => P).
  { apply preserves_modify. now intros s [? ?]. }
  intros []. eapply hoare_bind; [apply hoare_get|]. intros s0.
  eapply hoare_bind with (R := fun r s => Q s /\ r <> r1).
  { destruct (rooms s0 !! c) as [r|] eqn:Hr.
    - intros s a s' fx [-> [HQ Hne]] Hrun. injection Hrun as ? ? _. subst.
      split; [exact HQ|congruence].
    - intros s a s' fx [-> [HQ Hne]] Hrun. cbn in Hrun.
      injection Hrun as ? ? _. subst. split.
      + cbn. now apply lookup_app_l_Some.
      + apply lookup_lt_Some in HQ. lia. }
  intros r. eapply hoare_bind; [apply (preserves_Room_filter (fun s => Q s /\ r <> r1))|].
  intros members. destruct (spoofs cid members).
  { intros s a s' fx [HQ _] Hrun. injection Hrun as _ ? _. now subst. }
  unfold Connection_join.
  eapply hoare_bind with (R := fun _ s => Q s /\ r <> r1).
  { apply preserves_modify. now intros s [? ?]. }
  intros []. eapply hoare_bind with (R := fun _ s => Q s /\ r <> r1).
  { apply preserves_modify. now intros s [? ?]. }
  intros []. eapply hoare_bind with (R := fun _ => Q).
  { intros s a s' fx [HQ Hne] Hrun. injection Hrun as _ ? _. subst.
    unfold Q. cbn. now rewrite list_lookup_alter_ne. }
  intros []. change (preserves Q
    (this ← the_connection conn;
     Room_broadcast r (fun x => negb (String.eqb (id x) (id this))) Join
       [VStr (id this); playerId this];;
     snapshot ← Room_clients r (fun x => negb (String.eqb (id x) (id this)));
     Connection_send conn SetClients [snapshot])).
  preserve.
Qed.

Lemma preserves_Connection_leave c : preserves wf (Connection_leave c).
Proof. unfold Connection_leave. preserve. Qed.

Lemma preserves_delete_if_empty r : preserves wf (delete_if_empty r).
Proof. unfold delete_if_empty. preserve. Qed.

#[local] Hint Resolve preserves_Connection_leave preserves_delete_if_empty : preserve.

Lemma preserves_on_leave k : preserves wf (on_leave k).
Proof. unfold on_leave. preserve. Qed.

Lemma preserves_on_client k pid cid : preserves wf (on_client k pid cid).
Proof.
  unfold on_client, Connection_setId. preserve.
Qed.

Lemma preserves_on_signal k peer data : preserves wf (on_signal k peer data).
Proof. unfold on_signal. preserve. Qed.

Lemma preserves_on_close k : preserves wf (on_close k).
Proof. unfold on_close. preserve. Qed.

Lemma preserves_on_pong k : preserves wf (on_pong k).
Proof. unfold on_pong. preserve. Qed.

Lemma preserves_ping : preserves wf ping.
Proof. unfold ping, ping_one. preserve. Qed.

#[local] Hint Resolve preserves_on_connection preserves_on_connectTimeout
  preserves_on_authenticate preserves_on_join preserves_on_leave
  preserves_on_client preserves_on_signal preserves_on_close preserves_on_pong
  preserves_ping : preserve.

Lemma preserves_on_message k buf : preserves wf (on_message k buf).
Proof.
  unfold on_message. preserve.
Qed.

Lemma preserves_handle e : preserves wf (handle e).
Proof.
  destruct e; cbn [handle]; auto with preserve.
  - preserve.
  - apply preserves_on_message.
Qed.

Lemma wf_initial : wf initial.
Proof. repeat constructor. Qed.

(** Every state a run reaches from the initial one is well formed, so the
    hypotheses on references that the theorems above make hold there. *)
Lemma run_wf (es : list event) (s : Server) (fx : list effect) :
  run es initial = Ok tt s fx -> wf s.
Proof.
  intros Hrun.
  exact (hoare_forEach wf handle es preserves_handle initial tt s fx wf_initial Hrun).
Qed.

Lemma wf_members_valid (s : Server) (r : nat) (rm : Room) :
  wf s -> room_store s !! r = Some rm ->
  Forall (fun c => is_Some (conn_store s !! c)) (connections rm).
Proof.
  intros [_ _ Hmem _] Hr.
  eapply Forall_impl; [exact (Forall_lookup_1 _ _ _ _ Hmem Hr)|].
  intros c Hc. now apply lookup_lt_is_Some.
Qed.

Lemma wf_registry_valid (s : Server) :
  wf s -> Forall (fun c => is_Some (conn_store s !! c)) (all_connections s).
Proof.
  intros [_ Hreg _ _]. eapply Forall_impl; [exact Hreg|].
  intros c Hc. now apply lookup_lt_is_Some.
Qed.

End Reachable.

(** ** The scenarios *)

Section Scenarios.

#[local] Existing Instance Reference.platform.

Lemma join_rejects_spoof_witness :
  exists s',
    on_join 1 "ABCD" (VNum 1) (VNum 100) lobby = Ok tt s' [SocketTerminate 1] /\
    rooms s' = rooms lobby /\
    room_store s' = room_store lobby /\
    conn_store s' = conn_store lobby /\
    all_connections s' = all_connections lobby.
Proof.
  apply (join_rejects_spoof lobby 1 (mkSocket None false (Some 1%nat)) "ABCD" 0
           (mkRoom "ABCD" [0%nat]) 0
           (mkConnection 0 "1" (VNum 0) (VNum 100) (Some 0%nat) None)).
  - reflexivity.
  - vm_compute. reflexivity.
  - reflexivity.
  - repeat constructor. vm_compute. eauto.
  - vm_compute. constructor.
  - reflexivity.
  - reflexivity.
  - reflexivity.
  - discriminate.
Defined.

(** C6 fails: a SetClient on a socket that has not authenticated is
    dropped by [if (!connection) return], whether it comes as the local
    event or as a frame; the socket is not terminated. *)
Lemma client_before_authenticate_ignored :
  sockets fresh !! 0%nat = Some (mkSocket None true None) /\
  on_client 0 (VNum 1) (VNum 100) fresh = Ok tt fresh [] /\
  on_message 0 setclient_frame fresh = Ok tt fresh [] /\
  ~ terminates (on_client 0 (VNum 1) (VNum 100) fresh) 0 /\
  ~ terminates (on_message 0 setclient_frame fresh) 0.
Proof.
  split; [reflexivity|]. split; [reflexivity|]. split; [reflexivity|].
  split; vm_compute; apply not_elem_of_nil.
Qed.

Lemma client_before_authenticate_witness :
  on_client 0 (VNum 1) (VNum 100) fresh = Ok tt fresh [] /\
  on_join 0 "ABCD" (VNum 1) (VNum 100) fresh = Ok tt fresh [SocketTerminate 0].
Proof.
  apply (client_before_authenticate fresh 0 (mkSocket None true None)).
  - reflexivity.
  - reflexivity.
Defined.

Lemma signal_requires_room_witness :
  on_signal 1 "1" (VStr "offer-sdp") lobby = Throw TypeError lobby [].
Proof.
  apply (signal_requires_room lobby 1 (mkSocket None false (Some 1%nat)) 1
           (mkConnection 1 "2" VUndefined VUndefined None None)).
  - reflexivity.
  - reflexivity.
  - reflexivity.
Defined.

Lemma close_without_room_witness :
  exists s',
    on_close 1 lobby = Throw TypeError s' [] /\
    all_connections s' = all_connections lobby /\
    conn_store s' = conn_store lobby /\
    room_store s' = room_store lobby /\
    rooms s' = rooms lobby /\
    connectionCount s' = connectionCount lobby - 1.
Proof.
  apply (close_without_room lobby 1 (mkSocket None false (Some 1%nat)) 1
           (mkConnection 1 "2" VUndefined VUndefined None None)).
  - reflexivity.
  - reflexivity.
  - reflexivity.
  - reflexivity.
Defined.

Lemma join_without_payload_witness :
  on_message 1 [x01; x00; x00] lobby = Throw TypeError lobby [] /\
  ~ terminates (on_message 1 [x01; x00; x00] lobby) 1.
Proof.
  apply (join_without_payload lobby 1 (mkSocket None false (Some 1%nat))
           [x01; x00; x00] 1).
  - reflexivity.
  - reflexivity.
  - reflexivity.
  - discriminate.
Defined.

(** C2 fails: [Connection.join] overwrites [this.room] and adds the
    connection to the new room without removing it from the room it was
    in.  After Join A and Join B on one socket the connection is a member
    of both registered rooms. *)
Theorem second_join_keeps_first_room :
  exists fx,
    run two_joins initial = Ok tt (state_after two_joins) fx /\
    in_room (state_after two_joins) 0 "A" /\
    in_room (state_after two_joins) 0 "B" /\
    ~ one_room (state_after two_joins).
Proof.
  assert (HA : in_room (state_after two_joins) 0 "A").
  { exists 0%nat, (mkRoom "A" [0%nat]).
    split; [vm_compute; reflexivity|]. split; [reflexivity|]. constructor. }
  assert (HB : in_room (state_after two_joins) 0 "B").
  { exists 1%nat, (mkRoom "B" [0%nat]).
    split; [vm_compute; reflexivity|]. split; [reflexivity|]. constructor. }
  eexists. split; [vm_compute; reflexivity|]. split; [exact HA|].
  split; [exact HB|].
  intros Hone. specialize (Hone _ _ _ HA HB). discriminate.
Qed.

(** C7 fails for a peer whose [playerId] is 0: [Room.clients] tests
    [if (s.playerId)], and 0 is falsy.  The first socket is in room ABCD
    as player 0 with client id 100; the second socket joins and is sent
    the empty snapshot. *)
Theorem snapshot_omits_player_zero :
  in_room lobby 0 "ABCD" /\
  conn_store lobby !! 0%nat
    = Some (mkConnection 0 "1" (VNum 0) (VNum 100) (Some 0%nat) None) /\
  send_buf (Events_code SetClients) [VObj []]
    = inr (byte_of_Z 4 :: writeUInt16BE 2 ++ list_byte_of_string "{}") /\
  exists s' frame_join,
    send_buf (Events_code Join) [VStr "2"; VNum 1] = inr frame_join /\
    on_join 1 "ABCD" (VNum 1) (VNum 200) lobby
      = Ok tt s'
          [SocketSend 0 frame_join;
           SocketSend 1 (byte_of_Z 4 :: writeUInt16BE 2 ++ list_byte_of_string "{}")] /\
    in_room s' 0 "ABCD" /\ in_room s' 1 "ABCD" /\
    Room_clients 0 (fun x => negb (String.eqb (id x) "2")) s' = Ok (VObj []) s' [].
Proof.
  assert (Hin : forall s c, rooms s !! "ABCD"%string = Some 0%nat ->
            (exists l, room_store s !! 0%nat = Some (mkRoom "ABCD" l) /\ c ∈ l) ->
            in_room s c "ABCD").
  { intros s c Hr (l & Hl & Hc). exists 0%nat, (mkRoom "ABCD" l). auto. }
  split.
  { apply Hin; [vm_compute; reflexivity|]. exists [0%nat]. split; [reflexivity|constructor]. }
  split; [reflexivity|]. split; [vm_compute; reflexivity|].
  eexists _, _.
  split; [vm_compute; reflexivity|]. split; [vm_compute; reflexivity|].
  split.
  { apply Hin; [vm_compute; reflexivity|]. exists [0%nat; 1%nat].
    split; [reflexivity|constructor]. }
  split.
  { apply Hin; [vm_compute; reflexivity|]. exists [0%nat; 1%nat].
    split; [reflexivity|]. constructor. constructor. }
  vm_compute. reflexivity.
Qed.

(** In [lobby], a sweep, a pong from the second socket and the next
    sweep: the first connection, which did not answer, is terminated by
    the second sweep. *)
Lemma liveness_eviction_witness :
  exists s1 fx1 s2 s3 fx3 i,
    ping lobby = Ok tt s1 fx1 /\
    run [EPong 1] s1 = Ok tt s2 [] /\
    ping s2 = Ok tt s3 fx3 /\
    all_connections s2 = all_connections lobby /\
    all_connections lobby !! i = Some 0%nat /\
    fx1 !! i = Some (SocketPing 0) /\
    (forall k, SocketTerminate k ∈ fx1 <->
               exists c' x', c' ∈ all_connections lobby /\
                             conn_store lobby !! c' = Some x' /\
                             socket x' = k /\ isAlive x' = Some false) /\
    fx3 !! i = Some (SocketTerminate 0) /\
    all_connections s3 = all_connections lobby /\
    Forall (fun c => is_Some (conn_store s3 !! c)) (all_connections s3) /\
    sockets s3 = sockets lobby.
Proof.
  apply (liveness_eviction lobby [1%nat] 0
           (mkConnection 0 "1" (VNum 0) (VNum 100) (Some 0%nat) None)).
  - apply (bool_decide_unpack _). vm_compute. reflexivity.
  - apply (bool_decide_unpack _). vm_compute. reflexivity.
  - repeat constructor. exists (mkSocket None false (Some 1%nat)), 1%nat.
    split; reflexivity.
  - vm_compute. constructor.
  - reflexivity.
Defined.

(** A client authenticates and is sent its id; it joins room ABCD as the
    first member, the room is created and the snapshot it is sent is
    empty. *)
Example first_join :
  let s := state_after [EConnection] in
  exists s1 s2,
    on_authenticate 0 (VObj []) s
      = Ok tt s1 [SocketSend 0 (byte_of_Z 0 :: writeUInt16BE 10
                                  ++ JSON_stringify (VObj [("id"%string, VStr "1")]))] /\
    rooms s1 !! "ABCD"%string = None /\
    on_join 0 "ABCD" (VNum 1) (VNum 100) s1
      = Ok tt s2 [SocketSend 0 (byte_of_Z 4 :: writeUInt16BE 2
                                  ++ JSON_stringify (VObj []))] /\
    in_room s2 0 "ABCD".
Proof.
  eexists _, _. split; [vm_compute; reflexivity|].
  split; [vm_compute; reflexivity|]. split; [vm_compute; reflexivity|].
  exists 0%nat, (mkRoom "ABCD" [0%nat]).
  split; [vm_compute; reflexivity|]. split; [reflexivity|constructor].
Qed.

(** After a Leave the connection is in no room again, and its next
    Signal throws. *)
Example signal_after_leave :
  let s := state_after [EConnection; EAuthenticate 0 (VObj []);
                        EJoin 0 "ABCD" (VNum 1) (VNum 100); ELeave 0] in
  rooms s !! "ABCD"%string = None /\
  (room <$> conn_store s !! 0%nat) = Some None /\
  on_signal 0 "2" (VStr "offer-sdp") s = Throw TypeError s [].
Proof. split; [vm_compute; reflexivity|]. split; reflexivity. Qed.

(** A Signal to a member of the sender's room is forwarded to that member
    alone, with the sender's id; a Signal to an id that is not in the room
    is dropped. *)
Example signal_forwarded :
  let s := state_after [EConnection; EAuthenticate 0 (VObj []);
                        EJoin 0 "ABCD" (VNum 1) (VNum 100);
                        EConnection; EAuthenticate 1 (VObj []);
                        EJoin 1 "ABCD" (VNum 2) (VNum 200)] in
  on_signal 0 "2" (VStr "offer-sdp") s
    = Ok tt s [SocketSend 1 (byte_of_Z 5 :: writeUInt16BE 17
                               ++ JSON_stringify (VArr [VStr "1"; VStr "offer-sdp"]))] /\
  on_signal 0 "3" (VStr "offer-sdp") s = Ok tt s [].
Proof. split; vm_compute; reflexivity. Qed.

(** When the only member of a room disconnects, the room leaves the map
    and the connection leaves the registry. *)
Example close_last_member :
  let s := state_after [EConnection; EAuthenticate 0 (VObj []);
                        EJoin 0 "ABCD" (VNum 1) (VNum 100); EClose 0] in
  rooms s !! "ABCD"%string = None /\ all_connections s = [] /\ connectionCount s = 0.
Proof. split; [vm_compute; reflexivity|]. split; reflexivity. Qed.

(** The scenario states are reached by runs, so they are well formed. *)
Example lobby_wf : wf lobby.
Proof.
  eapply (run_wf lobby_events). vm_compute. reflexivity.
Qed.

End Scenarios.


(** * The rest of the engine *)

(** ** Frames and the message handler *)

Section Frames.

Context `{Platform}.

(** X1: the bytes that follow the declared payload length never reach the
    decoder: a buffer that holds its header and the declared number of
    payload bytes decodes the same whatever is appended to it. *)
Theorem decode_ignores_trailing (buf extra : list byte) :
  (3 + Z.to_nat (readUInt16BE buf 1) <= length buf)%nat ->
  decode (buf ++ extra) = decode buf.
Proof.
  intros Hlen. unfold decode. rewrite length_app.
  destruct buf as [|b0 [|b1 [|b2 payload]]]; cbn [length] in Hlen; try lia.
  cbn [length app Nat.add Nat.ltb Nat.leb drop].
  change (readUInt8 (b0 :: b1 :: b2 :: payload ++ extra) 0)
    with (readUInt8 (b0 :: b1 :: b2 :: payload) 0).
  change (readUInt16BE (b0 :: b1 :: b2 :: payload ++ extra) 1)
    with (readUInt16BE (b0 :: b1 :: b2 :: payload) 1).
  destruct (0 <? readUInt16BE (b0 :: b1 :: b2 :: payload) 1); [|reflexivity].
  change (drop 0 (payload ++ extra)) with (payload ++ extra).
  change (drop 0 payload) with payload.
  rewrite take_app_le by lia. reflexivity.
Qed.

(** X2: every frame [send] hands to the socket is its own description:
    three header bytes, the event code in the first, and in the next two
    the exact number of bytes that follow, which is at most 65535. *)
Theorem send_frame_well_formed (ev : Z) (data : list value) (frame : list byte) :
  send_buf ev data = inr frame ->
  0 <= ev <= 255 /\
  (3 <= length frame)%nat /\
  readUInt8 frame 0 = ev /\
  readUInt16BE frame 1 = Z.of_nat (length frame - 3) /\
  Z.of_nat (length frame - 3) <= 65535 /\
  drop 3 frame = from_option JSON_stringify [] (send_data data).
Proof.
  unfold send_buf. intros Hsend.
  destruct (Z.leb_spec 0 ev); [|discriminate].
  destruct (Z.leb_spec ev 255); [|discriminate]. cbn [andb negb] in Hsend.
  set (payload := from_option JSON_stringify [] (send_data data)).
  assert (Hlen : from_option (fun b => Z.of_nat (length b)) 0
                   (JSON_stringify <$> send_data data)
                 = Z.of_nat (length payload)).
  { unfold payload. now destruct (send_data data). }
  rewrite Hlen in Hsend.
  destruct (Z.leb_spec (Z.of_nat (length payload)) 65535); [|discriminate].
  cbn [negb] in Hsend.
  assert (Hframe : frame = byte_of_Z ev :: writeUInt16BE (Z.of_nat (length payload))
                           ++ payload).
  { injection Hsend as <-. unfold payload.
    destruct (send_data data); cbn; rewrite ?app_nil_r; reflexivity. }
  subst frame. split; [lia|]. cbn [writeUInt16BE app length drop].
  replace (S (S (S (length payload))) - 3)%nat with (length payload) by lia.
  split; [lia|]. split; [unfold readUInt8; cbn; apply Z_of_byte_of_Z; lia|].
  split; [apply (readUInt16BE_header _ _ payload); lia|]. split; [lia|reflexivity].
Qed.

(** X3: a buffer of fewer than three bytes gets its socket terminated,
    and nothing else happens. *)
Theorem message_too_short (s : Server) (k : nat) (sock : Socket) (buf : list byte) :
  sockets s !! k = Some sock ->
  (length buf < 3)%nat ->
  on_message k buf s = Ok tt s [SocketTerminate k].
Proof.
  intros Hk Hlen. unfold on_message.
  rewrite (mbind_pure _ _ s sock (the_socket_run _ _ _ Hk)).
  now rewrite decode_short.
Qed.

(** X4: a frame whose event code is none of the five the server handles
    (the code of SetClients, which only the server sends, among them)
    gets its socket terminated, whatever its payload; nothing else
    happens. *)
Theorem message_unknown_event (s : Server) (k : nat) (sock : Socket)
    (buf : list byte) (type : Z) (data : value) :
  sockets s !! k = Some sock ->
  decode buf = Frame type data ->
  type ∉ (Events_code <$> [Authentication; Join; Leave; SetClient; Signal]) ->
  on_message k buf s = Ok tt s [SocketTerminate k].
Proof.
  intros Hk Hdec Hnone. unfold on_message.
  rewrite (mbind_pure _ _ s sock (the_socket_run _ _ _ Hk)), Hdec.
  cbn in Hnone. rewrite !not_elem_of_cons in Hnone.
  destruct Hnone as (H1 & H2 & H3 & H4 & H5 & _).
  repeat match goal with
         | |- context [?a =? ?b] => destruct (Z.eqb_spec a b); [contradiction|]
         end.
  reflexivity.
Qed.

(** X5: the message handler and the handlers agree.  When the five event
    codes are distinct, a frame with the code of an event and a payload of
    the shape the event takes does what the handler of that event does on
    the elements of the payload; elements beyond those the event takes
    are ignored, and so is the payload of a Leave. *)
Theorem message_dispatch (s : Server) (k : nat) (sock : Socket) (buf : list byte) :
  sockets s !! k = Some sock ->
  NoDup (Events_code <$> [Authentication; Join; Leave; SetClient; Signal]) ->
  (forall data, decode buf = Frame (Events_code Authentication) data ->
                truthy data = true ->
                on_message k buf s = on_authenticate k data s) /\
  (forall c pid cid more,
      decode buf = Frame (Events_code Join) (VArr (VStr c :: pid :: cid :: more)) ->
      on_message k buf s = on_join k c pid cid s) /\
  (forall data, decode buf = Frame (Events_code Leave) data ->
                on_message k buf s = on_leave k s) /\
  (forall pid cid more,
      decode buf = Frame (Events_code SetClient) (VArr (pid :: cid :: more)) ->
      on_message k buf s = on_client k pid cid s) /\
  (forall peer data more,
      decode buf = Frame (Events_code Signal) (VArr (VStr peer :: data :: more)) ->
      on_message k buf s = on_signal k peer data s).
Proof.
  intros Hk Hnd. cbn in Hnd.
  repeat (apply NoDup_cons in Hnd as [?%not_elem_of_cons Hnd]).
  repeat match goal with
         | Hn : _ /\ _ |- _ => destruct Hn as [? ?]
         | Hn : _ ∉ _ :: _ |- _ => apply not_elem_of_cons in Hn
         end.
  unfold on_message.
  rewrite (mbind_pure _ _ s sock (the_socket_run _ _ _ Hk)).
  repeat split; intros; match goal with Hd : decode buf = _ |- _ => rewrite Hd end;
    repeat match goal with
           | |- context [?a =? ?a] => rewrite (Z.eqb_refl a)
           | |- context [?a =? ?b] => destruct (Z.eqb_spec a b); [congruence|]
           end.
  - match goal with Ht : truthy _ = true |- _ => now rewrite Ht end.
  - cbn [shorter_than index as_string nth]. rewrite !mret_bind.
    destruct (Z.ltb_spec (Z.of_nat (length (VStr c :: pid :: cid :: more))) 3);
      [cbn [length] in *; lia|].
    repeat (rewrite mret_bind; cbn [as_string]). reflexivity.
  - reflexivity.
  - cbn [shorter_than index nth]. rewrite !mret_bind.
    destruct (Z.ltb_spec (Z.of_nat (length (pid :: cid :: more))) 2);
      [cbn [length] in *; lia|].
    repeat (rewrite mret_bind; cbn [as_string]). reflexivity.
  - cbn [shorter_than index as_string nth]. rewrite !mret_bind.
    destruct (Z.ltb_spec (Z.of_nat (length (VStr peer :: data :: more))) 2);
      [cbn [length] in *; lia|].
    repeat (rewrite mret_bind; cbn [as_string]). reflexivity.
Qed.

(** X26: what the length test of a SetClient frame lets through.  The
    test [data?.length < 2] turns away the arrays of fewer than two
    elements and nothing else.  A payload that is a number or a boolean
    has no [length] and no elements: the frame is handled as a SetClient
    whose player id and client id are both [undefined].  A frame without
    payload decodes to [null], passes the test as well, and throws a
    TypeError at [data[0]], with the socket not terminated. *)
Theorem setclient_length_test (s : Server) (k : nat) (sock : Socket) (buf : list byte)
    (data : value) :
  sockets s !! k = Some sock ->
  decode buf = Frame (Events_code SetClient) data ->
  Events_code SetClient ∉ (Events_code <$> [Authentication; Join; Leave]) ->
  (forall text, data <> VStr text) ->
  (forall props, data <> VObj props) ->
  on_message k buf s
  = match data with
    | VArr elems =>
        if (length elems <? 2)%nat then Ok tt s [SocketTerminate k]
        else on_client k (nth 0 elems VUndefined) (nth 1 elems VUndefined) s
    | VNum _ | VBool _ => on_client k VUndefined VUndefined s
    | _ => Throw TypeError s []
    end.
Proof.
  intros Hk Hdec Hcodes Hstr Hobj. unfold on_message.
  rewrite (mbind_pure _ _ s sock (the_socket_run _ _ _ Hk)), Hdec.
  cbn in Hcodes. rewrite !not_elem_of_cons in Hcodes.
  destruct Hcodes as (H1 & H2 & H3 & _).
  repeat match goal with
         | |- context [?a =? ?a] => rewrite (Z.eqb_refl a)
         | |- context [?a =? ?b] => destruct (Z.eqb_spec a b); [contradiction|]
         end.
  destruct data as [| |b|num|text|elems|props];
    cbn [shorter_than index]; rewrite ?mret_bind; try reflexivity.
  - now destruct (Hstr text).
  - destruct (Nat.ltb_spec (length elems) 2) as [Hlt|Hge].
    + destruct (Z.ltb_spec (Z.of_nat (length elems)) 2); [reflexivity|lia].
    + destruct (Z.ltb_spec (Z.of_nat (length elems)) 2); [lia|].
      now rewrite !mret_bind.
  - now destruct (Hobj props).
Qed.

End Frames.

Section FramesExamples.

#[local] Existing Instance Reference.platform.

Lemma decode_ignores_trailing_witness :
  decode (setclient_frame ++ [x00; x7b]) = decode setclient_frame.
Proof.
  apply (decode_ignores_trailing setclient_frame [x00; x7b]).
  vm_compute. lia.
Defined.

Lemma send_frame_well_formed_witness :
  0 <= 3 <= 255 /\
  (3 <= length setclient_frame)%nat /\
  readUInt8 setclient_frame 0 = 3 /\
  readUInt16BE setclient_frame 1 = Z.of_nat (length setclient_frame - 3) /\
  Z.of_nat (length setclient_frame - 3) <= 65535 /\
  drop 3 setclient_frame
  = from_option JSON_stringify [] (send_data [VArr [VNum 1; VNum 100]; VNull]).
Proof.
  apply (send_frame_well_formed 3 [VArr [VNum 1; VNum 100]; VNull] setclient_frame).
  vm_compute. reflexivity.
Defined.

Lemma message_too_short_witness :
  on_message 1 [x01; x00] lobby = Ok tt lobby [SocketTerminate 1].
Proof.
  apply (message_too_short lobby 1 (mkSocket None false (Some 1%nat)) [x01; x00]).
  - reflexivity.
  - vm_compute. lia.
Defined.

Lemma message_unknown_event_witness :
  on_message 1 [x04; x00; x02; x7b; x7d] lobby = Ok tt lobby [SocketTerminate 1].
Proof.
  apply (message_unknown_event lobby 1 (mkSocket None false (Some 1%nat))
           [x04; x00; x02; x7b; x7d] 4 (VObj [])).
  - reflexivity.
  - vm_compute. reflexivity.
  - apply (bool_decide_unpack _). vm_compute. reflexivity.
Defined.

Lemma message_dispatch_witness :
  on_message 1 setclient_frame lobby = on_client 1 (VNum 1) (VNum 100) lobby.
Proof.
  destruct (message_dispatch lobby 1 (mkSocket None false (Some 1%nat)) setclient_frame)
    as (_ & _ & _ & Hclient & _).
  - reflexivity.
  - apply (bool_decide_unpack _). vm_compute. reflexivity.
  - apply (Hclient (VNum 1) (VNum 100) []). vm_compute. reflexivity.
Defined.

Lemma setclient_length_test_witness :
  on_message 1 [x03; x00; x01; x37] lobby = on_client 1 VUndefined VUndefined lobby.
Proof.
  apply (setclient_length_test lobby 1 (mkSocket None false (Some 1%nat))
           [x03; x00; x01; x37] (VNum 7)).
  - reflexivity.
  - vm_compute. reflexivity.
  - apply (bool_decide_unpack _). vm_compute. reflexivity.
  - discriminate.
  - discriminate.
Defined.

End FramesExamples.

(** ** The methods of [Room] *)

Lemma members_of_cons (s : Server) (c : nat) (refs : list nat) (x : Connection) :
  conn_store s !! c = Some x -> members_of s (c :: refs) = (c, x) :: members_of s refs.
Proof. intros Hx. unfold members_of. cbn. now rewrite Hx. Qed.

Lemma members_of_app (s : Server) (refs1 refs2 : list nat) :
  members_of s (refs1 ++ refs2) = members_of s refs1 ++ members_of s refs2.
Proof. apply omap_app. Qed.

Lemma members_of_lookup (s : Server) (refs : list nat) :
  Forall (fun m => conn_store s !! m.1 = Some m.2) (members_of s refs).
Proof.
  induction refs as [|c refs IH]; [constructor|].
  destruct (conn_store s !! c) as [x|] eqn:Hx.
  - rewrite (members_of_cons _ _ _ _ Hx). now constructor.
  - unfold members_of in *. cbn. now rewrite Hx.
Qed.

Lemma members_of_refs (s : Server) (refs : list nat) :
  Forall (fun c => is_Some (conn_store s !! c)) refs -> (members_of s refs).*1 = refs.
Proof.
  induction 1 as [|c refs [x Hx] _ IH]; [reflexivity|].
  rewrite (members_of_cons _ _ _ _ Hx). cbn. now rewrite IH.
Qed.

Lemma load_members_of (s : Server) (refs : list nat) :
  Forall (fun c => is_Some (conn_store s !! c)) refs ->
  mapM (fun c => x ← the_connection c; mret (c, x)) refs s = Ok (members_of s refs) s [].
Proof.
  induction 1 as [|c refs [x Hx] _ IH]; [reflexivity|].
  rewrite (members_of_cons _ _ _ _ Hx). cbn [mapM].
  rewrite (mbind_pure _ _ s (c, x)).
  - now rewrite (mbind_pure _ _ s _ IH).
  - now rewrite (mbind_pure _ _ s x (the_connection_run _ _ _ Hx)).
Qed.

Lemma Room_filter_members (s : Server) (r : nat) (rm : Room) (test : Connection -> bool) :
  room_store s !! r = Some rm ->
  Forall (fun c => is_Some (conn_store s !! c)) (connections rm) ->
  Room_filter r test s
  = Ok (List.filter (fun m => test m.2) (members_of s (connections rm))) s [].
Proof.
  intros Hr Hrefs. unfold Room_filter.
  rewrite (mbind_pure _ _ s rm (the_room_run _ _ _ Hr)).
  now rewrite (mbind_pure _ _ s _ (load_members_of _ _ Hrefs)).
Qed.

Lemma filter_lookup (s : Server) (test : nat * Connection -> bool)
    (members : list (nat * Connection)) :
  Forall (fun m => conn_store s !! m.1 = Some m.2) members ->
  Forall (fun m => conn_store s !! m.1 = Some m.2) (List.filter test members).
Proof.
  induction 1 as [|m members Hm _ IH]; cbn; [constructor|].
  destruct (test m); [now constructor|assumption].
Qed.

Section RoomMethods.

Context `{Platform}.

(** One frame to each of the targets: the frame is built again for each,
    so a frame that cannot be built throws at the first target. *)
Lemma send_each_run (s : Server) (targets : list (nat * Connection)) (event : Events)
    (args : list value) :
  Forall (fun m => conn_store s !! m.1 = Some m.2) targets ->
  forEach (fun m => Connection_send m.1 event args) targets s
  = match send_buf (Events_code event) args with
    | inr buf => Ok tt s (sends_to targets buf)
    | inl e => match targets with [] => Ok tt s [] | _ => Throw e s [] end
    end.
Proof.
  induction 1 as [|m targets Hm _ IH]; cbn [forEach].
  - now destruct (send_buf _ _).
  - rewrite mbind_run. unfold Connection_send at 1.
    rewrite (mbind_pure _ _ s _ (the_connection_run _ _ _ Hm)).
    destruct (send_buf (Events_code event) args) as [e|buf]; [reflexivity|].
    cbn [emit]. rewrite IH. reflexivity.
Qed.

Lemma Room_broadcast_run (s : Server) (r : nat) (rm : Room) (test : Connection -> bool)
    (event : Events) (args : list value) :
  room_store s !! r = Some rm ->
  Forall (fun c => is_Some (conn_store s !! c)) (connections rm) ->
  Room_broadcast r test event args s
  = let targets := List.filter (fun m => test m.2) (members_of s (connections rm)) in
    match send_buf (Events_code event) args with
    | inr buf => Ok tt s (sends_to targets buf)
    | inl e => match targets with [] => Ok tt s [] | _ => Throw e s [] end
    end.
Proof.
  intros Hr Hrefs. unfold Room_broadcast.
  rewrite (mbind_pure _ _ s _ (Room_filter_members _ _ _ test Hr Hrefs)).
  apply send_each_run, filter_lookup, members_of_lookup.
Qed.

(** X6: [Room.broadcast] in a well-formed state.  The frame goes to the
    socket of every member that passes the test, once for each time the
    member is in the list and in the order of the list, and to no other
    socket; the state does not change.  A frame that cannot be built (an
    event code or a payload length out of range) throws at the first
    target, with nothing sent, and is not noticed when there is no
    target. *)
Theorem broadcast_reaches_filtered (s : Server) (r : nat) (rm : Room)
    (test : Connection -> bool) (event : Events) (args : list value) :
  wf s ->
  room_store s !! r = Some rm ->
  Room_broadcast r test event args s
  = let targets := List.filter (fun m => test m.2) (members_of s (connections rm)) in
    match send_buf (Events_code event) args with
    | inr buf => Ok tt s (sends_to targets buf)
    | inl e => match targets with [] => Ok tt s [] | _ => Throw e s [] end
    end.
Proof.
  intros Hwf Hr. apply Room_broadcast_run; [exact Hr|].
  now apply wf_members_valid with (r := r).
Qed.

End RoomMethods.

Lemma remove_first_absent (x : nat) (l : list nat) : x ∉ l -> remove_first x l = l.
Proof.
  induction l as [|y l IH]; [reflexivity|]. intros [Hne Hl]%not_elem_of_cons.
  cbn. destruct (Nat.eqb_spec y x); [congruence|]. now rewrite IH.
Qed.

Lemma remove_first_split (x : nat) (l1 l2 : list nat) :
  x ∉ l1 -> remove_first x (l1 ++ x :: l2) = l1 ++ l2.
Proof.
  induction l1 as [|y l1 IH]; cbn.
  - intros _. now rewrite Nat.eqb_refl.
  - intros [Hne Hl]%not_elem_of_cons.
    destruct (Nat.eqb_spec y x); [congruence|]. now rewrite IH.
Qed.

Lemma remove_first_length (x : nat) (l : list nat) :
  x ∈ l -> S (length (remove_first x l)) = length l.
Proof.
  induction l as [|y l IH]; [intros []%elem_of_nil|].
  cbn. destruct (Nat.eqb_spec y x) as [->|Hne]; [reflexivity|].
  intros [?|Hl]%elem_of_cons; [congruence|]. cbn. now rewrite IH.
Qed.

Lemma head_filter_find {A} (f : A -> bool) (l : list A) :
  head (List.filter f l) = List.find f l.
Proof.
  induction l as [|a l IH]; [reflexivity|]. cbn. now destruct (f a).
Qed.

Lemma clients_fold (listed : list (nat * Connection)) (acc : list (string * value)) :
  Forall (fun m => truthy (playerId m.2) = true) listed ->
  fold_left
    (fun ids m =>
       if truthy (playerId m.2)
       then set_prop (id m.2)
              (VObj [("id"%string, playerId m.2); ("clientId"%string, clientId m.2)]) ids
       else ids)
    listed acc
  = fold_left (fun o p => set_prop p.1 p.2 o) (client_entry <$> listed) acc.
Proof.
  intros Hall. revert acc.
  induction Hall as [|m listed Hm _ IH]; intros acc; [reflexivity|].
  cbn [fold_left fmap list_fmap]. rewrite Hm. apply IH.
Qed.

Lemma clients_of_enumerates (members : list (nat * Connection)) :
  let entries := client_entry <$> List.filter (fun m => truthy (playerId m.2)) members in
  NoDup entries.*1 ->
  exists props,
    clients_of members = VObj props /\
    props ≡ₚ entries /\
    js_ordered props.*1 = true /\
    (List.filter (fun p => negb (is_array_index p.1)) props
     = List.filter (fun p => negb (is_array_index p.1)) entries).
Proof.
  intros entries Hnd. rewrite clients_of_truthy.
  assert (Hall : Forall (fun m => truthy (playerId m.2) = true)
                   (List.filter (fun m => truthy (playerId m.2)) members)).
  { apply Forall_forall. intros m Hm%list_elem_of_In%filter_In. apply Hm. }
  unfold clients_of. rewrite (clients_fold _ [] Hall). fold entries.
  eexists. split; [reflexivity|].
  now apply (fold_set_prop_enumerates entries []).
Qed.

Lemma filter_named_all (props : list (string * value)) :
  Forall (fun p => is_array_index p.1 = false) props ->
  List.filter (fun p => negb (is_array_index p.1)) props = props.
Proof.
  induction 1 as [|p props Hp _ IH]; [reflexivity|].
  cbn. now rewrite Hp, IH.
Qed.

Section RoomQueries.

Context `{Platform}.

(** X7: [Room.remove] takes the first occurrence of the connection out of
    the member list and nothing else: a connection that is in the list
    twice is still a member afterwards, a connection that is not in the
    list leaves it as it was, and no other room, no connection and no
    socket is touched. *)
Theorem remove_takes_first_occurrence (s : Server) (r c : nat) (rm : Room) :
  room_store s !! r = Some rm ->
  exists s' left,
    Room_remove r c s = Ok tt s' [] /\
    room_store s' !! r = Some (mkRoom (code rm) left) /\
    (c ∉ connections rm -> left = connections rm) /\
    (forall before after, connections rm = before ++ c :: after -> c ∉ before ->
                          left = before ++ after) /\
    (forall r', r' <> r -> room_store s' !! r' = room_store s !! r') /\
    rooms s' = rooms s /\ conn_store s' = conn_store s /\
    all_connections s' = all_connections s /\ sockets s' = sockets s.
Proof.
  intros Hr. eexists _, (remove_first c (connections rm)).
  split; [reflexivity|]. cbn. split; [now rewrite list_lookup_alter_eq, Hr|].
  split; [apply remove_first_absent|].
  split; [intros before after -> Hc; now apply remove_first_split|].
  split; [intros r' Hne; now apply list_lookup_alter_ne|]. now repeat split.
Qed.

Lemma Room_clients_run (s : Server) (r : nat) (rm : Room) (test : Connection -> bool) :
  room_store s !! r = Some rm ->
  Forall (fun c => is_Some (conn_store s !! c)) (connections rm) ->
  Room_clients r test s
  = Ok (clients_of (List.filter (fun m => test m.2) (members_of s (connections rm)))) s [].
Proof.
  intros Hr Hrefs. unfold Room_clients.
  now rewrite (mbind_pure _ _ s _ (Room_filter_members _ _ _ test Hr Hrefs)).
Qed.

(** X8: [Room.clients] in a well-formed state.  When the listed members
    (those that pass the test and have a truthy [playerId]) have distinct
    ids, the call returns an object, leaves the state as it is and sends
    nothing.  The object has exactly one entry for each listed member,
    keyed by the id of the connection and holding its [playerId] and
    [clientId].  Its keys stand in the order in which JavaScript lists
    them: the ids that are array indices first, ascending, then the other
    ids, and these in the order of the member list.  When no id is an
    array index the entries are in the order of the member list. *)
Theorem clients_snapshot (s : Server) (r : nat) (rm : Room) (test : Connection -> bool) :
  wf s ->
  room_store s !! r = Some rm ->
  NoDup ((fun m => id m.2) <$> listed test (members_of s (connections rm))) ->
  exists props,
    Room_clients r test s = Ok (VObj props) s [] /\
    props ≡ₚ client_entry <$> listed test (members_of s (connections rm)) /\
    js_ordered props.*1 = true /\
    (List.filter (fun p => negb (is_array_index p.1)) props
     = List.filter (fun p => negb (is_array_index p.1))
         (client_entry <$> listed test (members_of s (connections rm)))) /\
    (Forall (fun m => is_array_index (id m.2) = false)
       (listed test (members_of s (connections rm))) ->
     props = client_entry <$> listed test (members_of s (connections rm))).
Proof.
  intros Hwf Hr Hnd.
  rewrite (Room_clients_run s r rm test Hr (wf_members_valid _ _ _ Hwf Hr)).
  destruct (clients_of_enumerates
              (List.filter (fun m => test m.2) (members_of s (connections rm))))
    as (props & -> & Hperm & Hord & Hnamed).
  { rewrite <- list_fmap_compose. exact Hnd. }
  fold (listed test (members_of s (connections rm))) in Hperm, Hnamed.
  exists props. split; [reflexivity|]. split; [exact Hperm|]. split; [exact Hord|].
  split; [exact Hnamed|]. intros Hnone.
  assert (Hentries : Forall (fun p => is_array_index p.1 = false)
                       (client_entry <$> listed test (members_of s (connections rm)))).
  { apply Forall_fmap. exact Hnone. }
  rewrite <- (filter_named_all props), Hnamed; [now apply filter_named_all|].
  now rewrite Hperm.
Qed.

Lemma Room_find_run (s : Server) (r : nat) (rm : Room) (peer : string) :
  room_store s !! r = Some rm ->
  Forall (fun c => is_Some (conn_store s !! c)) (connections rm) ->
  Room_find r peer s
  = Ok (fst <$> List.find (fun m => String.eqb (id m.2) peer)
                  (members_of s (connections rm))) s [].
Proof.
  intros Hr Hrefs. unfold Room_find.
  rewrite (mbind_pure _ _ s _ (Room_filter_members _ _ _ _ Hr Hrefs)).
  now rewrite head_filter_find.
Qed.

Lemma on_signal_run (s : Server) (k : nat) (sock : Socket) (conn : nat)
    (this : Connection) (r : nat) (rm : Room) (peer : string) (data : value) :
  sockets s !! k = Some sock ->
  connection sock = Some conn ->
  conn_store s !! conn = Some this ->
  room this = Some r ->
  room_store s !! r = Some rm ->
  Forall (fun c => is_Some (conn_store s !! c)) (connections rm) ->
  on_signal k peer data s
  = match List.find (fun m => String.eqb (id m.2) peer) (members_of s (connections rm)) with
    | None => Ok tt s []
    | Some target =>
        match send_buf (Events_code Signal) [VStr (id this); data] with
        | inr buf => Ok tt s [SocketSend (socket target.2) buf]
        | inl e => Throw e s []
        end
    end.
Proof.
  intros Hk Hconn Hthis Hroom Hr Hrefs. unfold on_signal.
  rewrite (mbind_pure _ _ s sock (the_socket_run _ _ _ Hk)), Hconn.
  rewrite (mbind_pure _ _ s this (the_connection_run _ _ _ Hthis)), Hroom.
  rewrite (mbind_pure _ _ s _ (Room_find_run s r rm peer Hr Hrefs)).
  destruct (List.find _ _) as [[p px]|] eqn:Hfind; [|reflexivity].
  cbn [fmap option_fmap option_map fst snd]. unfold Connection_send.
  assert (Hp : conn_store s !! p = Some px).
  { apply find_some in Hfind as [Hin%list_elem_of_In _].
    pose proof (members_of_lookup s (connections rm)) as Hall.
    rewrite Forall_forall in Hall. exact (Hall _ Hin). }
  rewrite (mbind_pure _ _ s px (the_connection_run _ _ _ Hp)).
  now destruct (send_buf _ _).
Qed.

(** X9: a Signal from a connection that is in a room, in a well-formed
    state.  The payload goes, with the id of the sender in front, to the
    first member of the sender's room whose id is the one asked for, the
    sender itself included, and to that socket alone; when no member has
    that id nothing is sent.  The state does not change.  A frame too long
    to be built throws with nothing sent. *)
Theorem signal_reaches_first_match (s : Server) (k : nat) (sock : Socket) (conn : nat)
    (this : Connection) (r : nat) (rm : Room) (peer : string) (data : value) :
  wf s ->
  sockets s !! k = Some sock ->
  connection sock = Some conn ->
  conn_store s !! conn = Some this ->
  room this = Some r ->
  room_store s !! r = Some rm ->
  on_signal k peer data s
  = match List.find (fun m => String.eqb (id m.2) peer) (members_of s (connections rm)) with
    | None => Ok tt s []
    | Some target =>
        match send_buf (Events_code Signal) [VStr (id this); data] with
        | inr buf => Ok tt s [SocketSend (socket target.2) buf]
        | inl e => Throw e s []
        end
    end.
Proof.
  intros Hwf Hk Hconn Hthis Hroom Hr.
  apply (on_signal_run s k sock conn this r rm); try assumption.
  now apply wf_members_valid with (r := r).
Qed.

End RoomQueries.

(** ** Authenticate, Join, SetClient, Leave and close, when they go through *)

(** Writing to a connection, with its id kept, changes nothing among the
    members with another id. *)
Lemma others_alter (c : nat) (this : Connection)
    (f : Connection -> Connection) (s s' : Server) (refs : list nat) :
  conn_store s !! c = Some this ->
  conn_store s' = alter f c (conn_store s) ->
  id (f this) = id this ->
  List.filter (fun m => other_than (id this) m.2) (members_of s' refs)
  = List.filter (fun m => other_than (id this) m.2) (members_of s refs).
Proof.
  intros Hc Hs' Hid. unfold members_of. rewrite Hs'.
  induction refs as [|x refs IH]; [reflexivity|]. cbn [omap list_omap].
  destruct (decide (x = c)) as [->|Hne].
  - rewrite list_lookup_alter_eq, Hc. cbn [fmap option_fmap option_map List.filter snd].
    replace (other_than (id this) (f this)) with false
      by (unfold other_than; now rewrite Hid, String.eqb_refl).
    replace (other_than (id this) this) with false
      by (unfold other_than; now rewrite String.eqb_refl).
    exact IH.
  - rewrite list_lookup_alter_ne by congruence.
    destruct (conn_store s !! x) as [y|]; cbn; [|exact IH].
    destruct (other_than (id this) y); [now rewrite IH|exact IH].
Qed.

Lemma others_self (s : Server) (c : nat) (this : Connection) :
  conn_store s !! c = Some this ->
  List.filter (fun m => other_than (id this) m.2) (members_of s [c]) = [].
Proof.
  intros Hc. rewrite (members_of_cons _ _ _ _ Hc). cbn.
  unfold other_than. cbn. now rewrite String.eqb_refl.
Qed.

Lemma filter_app_list {A} (f : A -> bool) (l1 l2 : list A) :
  List.filter f (l1 ++ l2) = List.filter f l1 ++ List.filter f l2.
Proof. apply List.filter_app. Qed.

Lemma alter_is_Some {A} (f : A -> A) (l : list A) (i : nat) (refs : list nat) :
  Forall (fun c => is_Some (l !! c)) refs ->
  Forall (fun c => is_Some (alter f i l !! c)) refs.
Proof.
  intros Hrefs. eapply Forall_impl; [exact Hrefs|]. intros c Hc.
  apply lookup_lt_is_Some. rewrite length_alter. now apply lookup_lt_is_Some.
Qed.

Lemma strict_eq_true (a b : value) : strict_eq a b = true -> a = b.
Proof.
  destruct a, b; cbn; try discriminate; intros Heq; f_equal.
  - now apply Bool.eqb_prop.
  - now apply Z.eqb_eq.
  - now apply String.eqb_eq.
Qed.

Section Accepted.

Context `{Platform}.

(** [Connection.join] from a state where the room is allocated and its
    members are: the state it leaves, and what it sends. *)
Lemma Connection_join_run (s : Server) (c r : nat) (this : Connection) (rm : Room)
    (pid : value) (fj fs : list byte) :
  conn_store s !! c = Some this ->
  room_store s !! r = Some rm ->
  Forall (fun c => is_Some (conn_store s !! c)) (connections rm) ->
  let others := List.filter (fun m => other_than (id this) m.2)
                  (members_of s (connections rm)) in
  others = [] \/ send_buf (Events_code Join) [VStr (id this); pid] = inr fj ->
  send_buf (Events_code SetClients) [clients_of others] = inr fs ->
  Connection_join c r pid s
  = Ok tt
      (mkServer (rooms s) (all_connections s) (connectionCount s)
         (alter (fun rm => mkRoom (code rm) (connections rm ++ [c])) r (room_store s))
         (alter (fun x => set_playerId pid (set_room (Some r) x)) c (conn_store s))
         (sockets s) (generated s))
      (sends_to others fj ++ [SocketSend (socket this) fs]).
Proof.
  intros Hc Hr Hrefs others Hfj Hfs.
  unfold Connection_join, update_connection, Room_add, update_room.
  rewrite !modify_bind. cbn [rooms all_connections connectionCount room_store
                             conn_store sockets generated].
  rewrite list_alter_alter_eq. unfold compose.
  set (s' := mkServer _ _ _ _ _ _ _).
  assert (Hc' : conn_store s' !! c = Some (set_playerId pid (set_room (Some r) this))).
  { cbn. now rewrite list_lookup_alter_eq, Hc. }
  assert (Hr' : room_store s' !! r = Some (mkRoom (code rm) (connections rm ++ [c]))).
  { cbn. now rewrite list_lookup_alter_eq, Hr. }
  assert (Hrefs' : Forall (fun x => is_Some (conn_store s' !! x)) (connections rm ++ [c])).
  { apply Forall_app. split; [now apply alter_is_Some|].
    constructor; [now rewrite Hc'|constructor]. }
  assert (Hothers : List.filter (fun m => other_than (id this) m.2)
                      (members_of s' (connections rm ++ [c])) = others).
  { rewrite members_of_app, filter_app_list.
    rewrite (others_alter c this _ s s' _ Hc eq_refl eq_refl).
    change (id this) with (id (set_playerId pid (set_room (Some r) this))) at 2.
    rewrite (others_self s' c _ Hc'). apply app_nil_r. }
  rewrite (mbind_pure _ _ s' _ (the_connection_run _ _ _ Hc')).
  cbn [id playerId set_playerId set_room].
  rewrite (mbind_Ok _ _ s' s' tt (sends_to others fj)).
  2: { rewrite (Room_broadcast_run s' r _ _ _ _ Hr' Hrefs'). cbn zeta.
       cbn [connections].
       change (fun m : nat * Connection => negb (String.eqb (id m.2) (id this)))
         with (fun m : nat * Connection => other_than (id this) m.2).
       rewrite Hothers. destruct Hfj as [Hnone | Hfj]; [|now rewrite Hfj].
       rewrite Hnone. destruct (send_buf (Events_code Join) _); reflexivity. }
  rewrite (mbind_pure _ _ s' (clients_of others)).
  2: { rewrite (Room_clients_run s' r _ _ Hr' Hrefs'). cbn [connections].
       change (fun m : nat * Connection => negb (String.eqb (id m.2) (id this)))
         with (fun m : nat * Connection => other_than (id this) m.2).
       now rewrite Hothers. }
  unfold Connection_send.
  rewrite (mbind_pure _ _ s' _ (the_connection_run _ _ _ Hc')), Hfs.
  reflexivity.
Qed.

(** X10: an Authentication on a socket, the first or a later one, and
    whatever its payload.  A connection is allocated with the next id of
    the generator, no player or client id and no room, and is appended to
    the registry; the socket's timer is cleared and the socket now refers
    to the new connection; the frame that carries the id goes to this
    socket.  Nothing is taken away: a connection the socket referred to
    before stays in the store, in the registry and in its room.  When the
    frame cannot be built the exception comes after all that. *)
Theorem authenticate_registers (s : Server) (k : nat) (sock : Socket) (data : value) :
  sockets s !! k = Some sock ->
  let c := length (conn_store s) in
  let new_id := snowflake_generate (generated s) in
  exists s',
    on_authenticate k data s
    = match send_buf (Events_code Authentication) [VObj [("id"%string, VStr new_id)]] with
      | inr buf => Ok tt s' [SocketSend k buf]
      | inl e => Throw e s' []
      end /\
    conn_store s'
    = conn_store s ++ [mkConnection k new_id VUndefined VUndefined None None] /\
    all_connections s' = all_connections s ++ [c] /\
    sockets s' !! k = Some (mkSocket (sock_code sock) false (Some c)) /\
    (forall k', k' <> k -> sockets s' !! k' = sockets s !! k') /\
    generated s' = S (generated s) /\
    rooms s' = rooms s /\ room_store s' = room_store s /\
    connectionCount s' = connectionCount s.
Proof.
  intros Hk c new_id. unfold on_authenticate.
  rewrite (mbind_pure _ _ s sock (the_socket_run _ _ _ Hk)).
  rewrite get_bind, modify_bind. fold c new_id.
  set (s' := mkServer _ _ _ _ _ _ _). exists s'. split.
  - unfold Connection_send.
    assert (Hc : conn_store s' !! c
                 = Some (mkConnection k new_id VUndefined VUndefined None None)).
    { cbn. apply list_lookup_middle. reflexivity. }
    rewrite (mbind_pure _ _ s' _ (the_connection_run _ _ _ Hc)).
    now destruct (send_buf _ _).
  - cbn. split; [reflexivity|]. split; [reflexivity|].
    split; [now rewrite list_lookup_alter_eq, Hk|].
    split; [intros k' Hne; now apply list_lookup_alter_ne|]. now repeat split.
Qed.

(** X27: what the loop of the ['join'] handler turns away.  Over the
    members of a room, the loop finds a holder of the asserted client id
    exactly when the asserted value is a primitive other than [null] and
    some member has it for [clientId]: a Join that asserts [null], an
    array or an object is never turned away, and a member that has not
    set a client id stands in the way of no number. *)
Theorem spoof_guard_exact (s : Server) (refs : list nat) (cid : value) :
  Forall (fun c => is_Some (conn_store s !! c)) refs ->
  spoofs cid (members_of s refs) = true <->
  instanceof_Object cid = false /\ cid <> VNull /\
  exists m x, m ∈ refs /\ conn_store s !! m = Some x /\ clientId x = cid.
Proof.
  intros Hrefs. unfold spoofs. rewrite existsb_exists. split.
  - intros ([m x] & Hin%list_elem_of_In & [Hnull Heq]%andb_prop). cbn in Hnull, Heq.
    apply strict_eq_true in Heq as Hcid.
    split; [|split].
    + subst cid. now destruct (clientId x).
    + intros ->. rewrite Hcid in Hnull. discriminate.
    + exists m, x. split; [|split; [|exact Hcid]].
      * rewrite <- (members_of_refs s refs Hrefs). apply list_elem_of_fmap.
        now exists (m, x).
      * pose proof (members_of_lookup s refs) as Hall. rewrite Forall_forall in Hall.
        exact (Hall _ Hin).
  - intros (Hprim & Hnull & m & x & Hm & Hx & Hcid).
    exists (m, x). split.
    + apply list_elem_of_In. rewrite <- (members_of_refs s refs Hrefs) in Hm.
      apply list_elem_of_fmap in Hm as ([m' x'] & -> & Hin).
      pose proof (members_of_lookup s refs) as Hall. rewrite Forall_forall in Hall.
      specialize (Hall _ Hin). cbn in Hall, Hx.
      assert (x' = x) as -> by congruence. exact Hin.
    + cbn. rewrite Hcid, strict_eq_null, strict_eq_refl by assumption. reflexivity.
Qed.

(** X11: a Join for a room that is registered, from an authenticated
    socket, in a well-formed state, when no member of the room holds the
    asserted client id.  The connection gets the room and the player id,
    and is appended to the room's member list; the socket's closure
    records the code.  The client id of the Join is compared and not
    stored: the connection keeps the [clientId] it had.  Every member with
    another id is sent the Join frame with the joiner's id and player id,
    and then the joiner is sent SetClients with the snapshot of those
    members. *)
Theorem join_enters_room (s : Server) (k : nat) (sock : Socket) (conn : nat)
    (this : Connection) (c : string) (r : nat) (rm : Room) (pid cid : value)
    (fj fs : list byte) :
  wf s ->
  sockets s !! k = Some sock ->
  connection sock = Some conn ->
  conn_store s !! conn = Some this ->
  rooms s !! c = Some r ->
  room_store s !! r = Some rm ->
  spoofs cid (members_of s (connections rm)) = false ->
  let others := List.filter (fun m => other_than (id this) m.2)
                  (members_of s (connections rm)) in
  send_buf (Events_code Join) [VStr (id this); pid] = inr fj ->
  send_buf (Events_code SetClients) [clients_of others] = inr fs ->
  exists s',
    on_join k c pid cid s
    = Ok tt s' (sends_to others fj ++ [SocketSend (socket this) fs]) /\
    conn_store s' !! conn = Some (set_playerId pid (set_room (Some r) this)) /\
    (forall c', c' <> conn -> conn_store s' !! c' = conn_store s !! c') /\
    room_store s' !! r = Some (mkRoom (code rm) (connections rm ++ [conn])) /\
    (forall r', r' <> r -> room_store s' !! r' = room_store s !! r') /\
    sockets s' !! k = Some (mkSocket (Some c) (connectTimeout sock) (Some conn)) /\
    rooms s' = rooms s /\ all_connections s' = all_connections s.
Proof.
  intros Hwf Hk Hconn Hthis Hc Hr Hspoof others Hfj Hfs.
  pose proof (wf_members_valid _ _ _ Hwf Hr) as Hrefs.
  unfold on_join. rewrite (mbind_pure _ _ s sock (the_socket_run _ _ _ Hk)), Hconn.
  unfold update_socket. rewrite modify_bind.
  set (s1 := mkServer _ _ _ _ _ _ _).
  rewrite get_bind. change (rooms s1) with (rooms s). rewrite Hc, mret_bind.
  rewrite (mbind_pure _ _ s1 _ (Room_filter_members s1 r rm _ Hr Hrefs)), filter_all.
  change (members_of s1 (connections rm)) with (members_of s (connections rm)).
  rewrite Hspoof.
  rewrite (Connection_join_run s1 conn r this rm pid fj fs Hthis Hr Hrefs
             (or_intror Hfj) Hfs).
  eexists. split; [reflexivity|]. cbn.
  split; [now rewrite list_lookup_alter_eq, Hthis|].
  split; [intros c' Hne; now apply list_lookup_alter_ne|].
  split; [now rewrite list_lookup_alter_eq, Hr|].
  split; [intros r' Hne; now apply list_lookup_alter_ne|].
  split; [rewrite list_lookup_alter_eq, Hk; cbn; now rewrite Hconn|]. now split.
Qed.

(** X12: a Join for a code that is not registered, from an authenticated
    socket.  A room with that code is allocated and registered, and the
    connection is its only member; the asserted client id plays no part,
    no Join frame is sent, and the joiner is sent SetClients with the
    empty snapshot. *)
Theorem join_creates_room (s : Server) (k : nat) (sock : Socket) (conn : nat)
    (this : Connection) (c : string) (pid cid : value) (fs : list byte) :
  sockets s !! k = Some sock ->
  connection sock = Some conn ->
  conn_store s !! conn = Some this ->
  rooms s !! c = None ->
  send_buf (Events_code SetClients) [VObj []] = inr fs ->
  exists s',
    on_join k c pid cid s = Ok tt s' [SocketSend (socket this) fs] /\
    rooms s' = <[c := length (room_store s)]> (rooms s) /\
    room_store s' = room_store s ++ [mkRoom c [conn]] /\
    conn_store s' !! conn
    = Some (set_playerId pid (set_room (Some (length (room_store s))) this)) /\
    (forall c', c' <> conn -> conn_store s' !! c' = conn_store s !! c') /\
    sockets s' !! k = Some (mkSocket (Some c) (connectTimeout sock) (Some conn)) /\
    all_connections s' = all_connections s.
Proof.
  intros Hk Hconn Hthis Hc Hfs.
  unfold on_join. rewrite (mbind_pure _ _ s sock (the_socket_run _ _ _ Hk)), Hconn.
  unfold update_socket. rewrite modify_bind.
  set (s1 := mkServer _ _ _ _ _ _ _).
  rewrite get_bind. change (rooms s1) with (rooms s). rewrite Hc.
  rewrite mbind_assoc, modify_bind, mret_bind.
  set (s2 := mkServer _ _ _ _ _ _ _). set (r := length (room_store s1)).
  assert (Hr : room_store s2 !! r = Some (mkRoom c [])).
  { cbn. apply list_lookup_middle. reflexivity. }
  assert (Hrefs : Forall (fun x => is_Some (conn_store s2 !! x)) (connections (mkRoom c [])))
    by constructor.
  rewrite (mbind_pure _ _ s2 _ (Room_filter_members s2 r _ _ Hr Hrefs)).
  cbn [connections members_of omap list_omap List.filter spoofs existsb].
  rewrite (Connection_join_run s2 conn r this _ pid [] fs Hthis Hr Hrefs
             (or_introl eq_refl) Hfs).
  eexists. split; [reflexivity|]. cbn.
  split; [reflexivity|].
  split.
  { unfold r. cbn. rewrite <- (Nat.add_0_r (length (room_store s))).
    now rewrite alter_app_r. }
  split; [now rewrite list_lookup_alter_eq, Hthis|].
  split; [intros c' Hne; now apply list_lookup_alter_ne|].
  split; [rewrite list_lookup_alter_eq, Hk; cbn; now rewrite Hconn|]. reflexivity.
Qed.

(** X13: the guard of SetClient.  Once a connection has a client id (any
    value but [null] and [undefined]), a SetClient that asserts another
    one gets the socket terminated; the player id it carries is not
    recorded either, nothing is broadcast and the state does not change. *)
Theorem client_rejects_change (s : Server) (k : nat) (sock : Socket) (conn : nat)
    (this : Connection) (pid cid : value) :
  sockets s !! k = Some sock ->
  connection sock = Some conn ->
  conn_store s !! conn = Some this ->
  loose_neq_null (clientId this) = true ->
  strict_eq (clientId this) cid = false ->
  on_client k pid cid s = Ok tt s [SocketTerminate k].
Proof.
  intros Hk Hconn Hthis Hset Hne. unfold on_client.
  rewrite (mbind_pure _ _ s sock (the_socket_run _ _ _ Hk)), Hconn.
  rewrite (mbind_pure _ _ s this (the_connection_run _ _ _ Hthis)).
  now rewrite Hset, Hne.
Qed.

(** X14: a SetClient that passes the guard (the connection has no client
    id yet, or the asserted one is the one it has), in a well-formed
    state.  The connection gets the player id and the client id; nothing
    else changes.  Outside a room nothing is sent; in a room every member
    with another id is sent the SetClient frame with the two ids, and the
    sender is not. *)
Theorem client_sets_ids (s : Server) (k : nat) (sock : Socket) (conn : nat)
    (this : Connection) (pid cid : value) :
  wf s ->
  sockets s !! k = Some sock ->
  connection sock = Some conn ->
  conn_store s !! conn = Some this ->
  loose_neq_null (clientId this) = false \/ strict_eq (clientId this) cid = true ->
  exists s',
    conn_store s' = alter (fun x => set_clientId cid (set_playerId pid x)) conn (conn_store s) /\
    rooms s' = rooms s /\ room_store s' = room_store s /\
    all_connections s' = all_connections s /\ sockets s' = sockets s /\
    match room this with
    | None => on_client k pid cid s = Ok tt s' []
    | Some r =>
        forall rm, room_store s !! r = Some rm ->
          let others := List.filter (fun m => other_than (id this) m.2)
                          (members_of s (connections rm)) in
          on_client k pid cid s
          = match send_buf (Events_code SetClient)
                    [VObj [("id"%string, pid); ("clientId"%string, cid)]] with
            | inr buf => Ok tt s' (sends_to others buf)
            | inl e => match others with [] => Ok tt s' [] | _ => Throw e s' [] end
            end
    end.
Proof.
  intros Hwf Hk Hconn Hthis Hguard.
  assert (Hpass : loose_neq_null (clientId this) && negb (strict_eq (clientId this) cid)
                  = false).
  { destruct Hguard as [-> | ->]; [reflexivity|apply andb_false_r]. }
  eexists (mkServer (rooms s) (all_connections s) (connectionCount s) (room_store s)
             (alter (fun x => set_clientId cid (set_playerId pid x)) conn (conn_store s))
             (sockets s) (generated s)).
  do 5 (split; [reflexivity|]).
  set (s' := mkServer _ _ _ _ _ _ _).
  assert (Hrun : on_client k pid cid s
                 = match room this with
                   | Some r =>
                       Room_broadcast r (fun x => negb (String.eqb (id x) (id this)))
                         SetClient [VObj [("id"%string, pid); ("clientId"%string, cid)]] s'
                   | None => Ok tt s' []
                   end).
  { unfold on_client.
    rewrite (mbind_pure _ _ s sock (the_socket_run _ _ _ Hk)), Hconn.
    rewrite (mbind_pure _ _ s this (the_connection_run _ _ _ Hthis)), Hpass.
    unfold Connection_setId, update_connection. rewrite !modify_bind.
    cbn [rooms all_connections connectionCount room_store conn_store sockets generated].
    rewrite list_alter_alter_eq. unfold compose. fold s'.
    assert (Hc' : conn_store s' !! conn = Some (set_clientId cid (set_playerId pid this))).
    { cbn. now rewrite list_lookup_alter_eq, Hthis. }
    rewrite (mbind_pure _ _ s' _ (the_connection_run _ _ _ Hc')).
    cbn [room id playerId clientId set_clientId set_playerId].
    now destruct (room this). }
  rewrite Hrun. destruct (room this) as [r|]; [|reflexivity].
  intros rm Hr others.
  assert (Hrefs : Forall (fun x => is_Some (conn_store s' !! x)) (connections rm)).
  { apply alter_is_Some. now apply wf_members_valid with (r := r). }
  rewrite (Room_broadcast_run s' r rm _ _ _ Hr Hrefs). cbn zeta.
  change (fun m : nat * Connection => negb (String.eqb (id m.2) (id this)))
    with (fun m : nat * Connection => other_than (id this) m.2).
  rewrite (others_alter conn this _ s s' _ Hthis eq_refl eq_refl).
  reflexivity.
Qed.

(** The steps ['leave'] and ['close'] share, for a connection that is in
    a room: out of the member list, [room] cleared, and the room out of
    the map when that leaves it without members. *)
Lemma leave_steps_run (s : Server) (conn : nat) (this : Connection) (r : nat) (rm : Room) :
  conn_store s !! conn = Some this ->
  room this = Some r ->
  room_store s !! r = Some rm ->
  (Connection_leave conn;; delete_if_empty r) s
  = Ok tt
      (mkServer
         (if Z.of_nat (length (remove_first conn (connections rm))) <? 1
          then delete (code rm) (rooms s) else rooms s)
         (all_connections s) (connectionCount s)
         (alter (fun rm => mkRoom (code rm) (remove_first conn (connections rm))) r
            (room_store s))
         (alter (set_room None) conn (conn_store s))
         (sockets s) (generated s))
      [].
Proof.
  intros Hthis Hroom Hr.
  unfold Connection_leave. rewrite mbind_assoc.
  rewrite (mbind_pure _ _ s this (the_connection_run _ _ _ Hthis)), Hroom.
  unfold Room_remove, update_room, update_connection.
  rewrite mbind_assoc, !modify_bind.
  unfold delete_if_empty, Room_count.
  set (s3 := mkServer _ _ _ _ _ _ _). rewrite !mbind_assoc.
  assert (Hr3 : room_store s3 !! r
                = Some (mkRoom (code rm) (remove_first conn (connections rm)))).
  { cbn. now rewrite list_lookup_alter_eq, Hr. }
  rewrite (mbind_pure _ _ s3 _ (the_room_run r s3 _ Hr3)), mret_bind.
  cbn [connections].
  destruct (Z.of_nat (length (remove_first conn (connections rm))) <? 1).
  - rewrite (mbind_pure _ _ s3 _ (the_room_run r s3 _ Hr3)). reflexivity.
  - reflexivity.
Qed.

(** X15: a Leave from a connection that is in a room.  The first
    occurrence of the connection leaves the room's member list and the
    connection is in no room; the room leaves the map when no member is
    left.  The connection stays in the registry, and the remaining members
    are told nothing: no frame is sent. *)
Theorem leave_in_room (s : Server) (k : nat) (sock : Socket) (conn : nat)
    (this : Connection) (r : nat) (rm : Room) :
  sockets s !! k = Some sock ->
  connection sock = Some conn ->
  conn_store s !! conn = Some this ->
  room this = Some r ->
  room_store s !! r = Some rm ->
  exists s',
    on_leave k s = Ok tt s' [] /\
    conn_store s' = alter (set_room None) conn (conn_store s) /\
    room_store s'
    = alter (fun rm => mkRoom (code rm) (remove_first conn (connections rm))) r
        (room_store s) /\
    rooms s'
    = (if bool_decide (remove_first conn (connections rm) = [])
       then delete (code rm) (rooms s) else rooms s) /\
    all_connections s' = all_connections s /\
    sockets s' = sockets s /\
    connectionCount s' = connectionCount s.
Proof.
  intros Hk Hconn Hthis Hroom Hr. unfold on_leave.
  rewrite (mbind_pure _ _ s sock (the_socket_run _ _ _ Hk)), Hconn.
  rewrite (mbind_pure _ _ s this (the_connection_run _ _ _ Hthis)), Hroom.
  rewrite (leave_steps_run s conn this r rm Hthis Hroom Hr).
  eexists. split; [reflexivity|]. cbn. do 2 (split; [reflexivity|]).
  split; [|now repeat split].
  destruct (remove_first conn (connections rm)) as [|x l]; [reflexivity|].
  cbn [length]. rewrite bool_decide_eq_false_2 by discriminate.
  destruct (Z.ltb_spec (Z.of_nat (S (length l))) 1); [lia|reflexivity].
Qed.

(** X16: for a connection that is in a room, a close is a Leave followed
    by the two things only a close does: the count of open sockets goes
    down by one and the connection leaves the registry. *)
Theorem close_is_leave_then_unregister (s s1 : Server) (k : nat) (sock : Socket)
    (conn : nat) (this : Connection) (r : nat) (rm : Room) :
  sockets s !! k = Some sock ->
  connection sock = Some conn ->
  conn_store s !! conn = Some this ->
  room this = Some r ->
  room_store s !! r = Some rm ->
  on_leave k s = Ok tt s1 [] ->
  on_close k s
  = Ok tt
      (mkServer (rooms s1) (remove_first conn (all_connections s1))
         (connectionCount s1 - 1) (room_store s1) (conn_store s1) (sockets s1)
         (generated s1))
      [].
Proof.
  intros Hk Hconn Hthis Hroom Hr Hleave.
  unfold on_leave in Hleave.
  rewrite (mbind_pure _ _ s sock (the_socket_run _ _ _ Hk)), Hconn in Hleave.
  rewrite (mbind_pure _ _ s this (the_connection_run _ _ _ Hthis)), Hroom in Hleave.
  rewrite (leave_steps_run s conn this r rm Hthis Hroom Hr) in Hleave.
  injection Hleave as <-.
  unfold on_close, update_connectionCount.
  rewrite modify_bind. set (s0 := mkServer _ _ _ _ _ _ _).
  rewrite (mbind_pure _ _ s0 sock (the_socket_run k s0 _ Hk)), Hconn.
  rewrite (mbind_pure _ _ s0 this (the_connection_run conn s0 _ Hthis)), Hroom.
  cbn [from_option]. rewrite <- mbind_assoc.
  rewrite (mbind_Ok _ _ s0 _ _ _ (leave_steps_run s0 conn this r rm Hthis Hroom Hr)).
  reflexivity.
Qed.

End Accepted.

(** ** What every run keeps *)

(** Walk through a handler body as [preserve] does, with [tac] for the
    steps that write to the state. *)
Ltac keep tac :=
  repeat first
    [ progress intros
    | solve [auto with preserve]
    | apply preserves_bind
    | apply hoare_mapM
    | apply hoare_forEach
    | match goal with
      | |- preserves _ (match ?x with _ => _ end) => destruct x
      | |- preserves _ (from_option _ _ ?x) => destruct x; cbn [from_option]
      | |- hoare _ (match ?x with _ => _ end) _ => destruct x
      end
    | apply preserves_modify; tac ].

Ltac unfold_handlers :=
  unfold on_message, on_connectTimeout, on_authenticate, on_join, on_leave,
    on_client, on_signal, on_close, on_pong, ping, ping_one;
  unfold Connection_join, Connection_leave, Connection_setId, delete_if_empty;
  unfold Room_add, Room_remove;
  unfold update_connection, update_room, update_socket, update_rooms,
    update_all_connections.

Lemma run_cons `{Platform} (e : event) (es : list event) (s s' : Server)
    (fx : list effect) :
  run (e :: es) s = Ok tt s' fx ->
  exists s1 fx1 fx2, handle e s = Ok tt s1 fx1 /\ run es s1 = Ok tt s' fx2.
Proof.
  unfold run. cbn [forEach]. rewrite mbind_run.
  destruct (handle e s) as [[] s1 fx1| |]; [|discriminate..].
  destruct (forEach handle es s1) as [[] s2 fx2| |] eqn:Hrest; [|discriminate..].
  cbn. intros [= <- _]. now exists s1, fx1, fx2.
Qed.

Section Invariants.

Context `{Platform}.

#[local] Hint Resolve preserves_Connection_send preserves_Room_filter
  preserves_Room_broadcast preserves_Room_count preserves_Room_find
  preserves_Room_clients preserves_shorter_than preserves_index
  preserves_as_string : preserve.

(** A predicate that the handlers of the local events keep is kept by
    the message handler, which only decodes and dispatches. *)
Lemma preserves_on_message_from (P : Server -> Prop) :
  (forall k data, preserves P (on_authenticate k data)) ->
  (forall k c pid cid, preserves P (on_join k c pid cid)) ->
  (forall k, preserves P (on_leave k)) ->
  (forall k pid cid, preserves P (on_client k pid cid)) ->
  (forall k peer data, preserves P (on_signal k peer data)) ->
  forall k buf, preserves P (on_message k buf).
Proof.
  intros Hauth Hjoin Hleave Hclient Hsignal k buf. unfold on_message. keep idtac.
Qed.

(** *** The count of open sockets *)

Lemma count_handle (e : event) (n : Z) :
  hoare (fun s => connectionCount s = n) (handle e)
        (fun _ s => connectionCount s = n + open_sockets [e]).
Proof.
  assert (Hsame : forall m : M unit,
            preserves (fun s => connectionCount s = n) m ->
            hoare (fun s => connectionCount s = n) m
                  (fun _ s => connectionCount s = n + 0)).
  { intros m Hm. eapply hoare_weaken; [exact Hm|auto|]. cbn. intros; lia. }
  destruct e; cbn [handle open_sockets]; try apply Hsame;
    try (unfold_handlers; keep ltac:(intros; cbn; assumption)).
  - unfold on_connection, update_connectionCount.
    eapply hoare_bind with (R := fun _ s => connectionCount s = n + 1).
    + eapply hoare_bind with (R := fun _ s => connectionCount s = n + 1).
      * intros s a s' fx Hs Hrun. injection Hrun as _ <- _. cbn. lia.
      * keep ltac:(intros; cbn; assumption).
    + intros k s a s' fx Hs Hrun. injection Hrun as _ <- _. lia.
  - unfold on_close, update_connectionCount.
    eapply hoare_bind with (R := fun _ s => connectionCount s = n - 1).
    + intros s a s' fx Hs Hrun. injection Hrun as _ <- _. cbn. lia.
    + intros []. eapply hoare_weaken with (P' := fun s => connectionCount s = n - 1)
                                        (Q' := fun _ s => connectionCount s = n - 1);
        [|auto|cbn; intros; lia].
      unfold_handlers. keep ltac:(intros; cbn; assumption).
Qed.

Lemma count_run (es : list event) (s s' : Server) (fx : list effect) :
  run es s = Ok tt s' fx -> connectionCount s' = connectionCount s + open_sockets es.
Proof.
  revert s fx. induction es as [|e es IH]; intros s fx Hrun.
  - injection Hrun as <- _. cbn. lia.
  - apply run_cons in Hrun as (s1 & fx1 & fx2 & He & Hes).
    rewrite (IH _ _ Hes), (count_handle e _ s tt s1 fx1 eq_refl He).
    destruct e; cbn [open_sockets]; lia.
Qed.

(** X17: [connectionCount], the number the health page reports, is the
    number of sockets accepted less the number of sockets closed, after
    any run that returns: only the ['connection'] and the ['close']
    handlers write it, and a close counts whether or not the socket ever
    authenticated. *)
Theorem count_is_open_sockets (es : list event) (s : Server) (fx : list effect) :
  run es initial = Ok tt s fx -> connectionCount s = open_sockets es.
Proof. intros Hrun. now rewrite (count_run es initial s fx Hrun). Qed.

(** *** The authentication timers *)

Lemma timers_handle (e : event) : preserves timers_ok (handle e).
Proof.
  destruct e; cbn [handle]; unfold on_connection, update_connectionCount;
    unfold_handlers;
    keep ltac:(intros s Hs; unfold timers_ok in *;
               cbn [sockets] in *;
               first [ assumption
                     | apply Forall_app; split; [assumption|now repeat constructor]
                     | apply Forall_alter; [assumption|]; now cbn ]).
Qed.

Lemma timers_run (es : list event) (s s' : Server) (fx : list effect) :
  timers_ok s -> run es s = Ok tt s' fx -> timers_ok s'.
Proof.
  intros Hs Hrun.
  exact (hoare_forEach timers_ok handle es timers_handle s tt s' fx Hs Hrun).
Qed.

(** X18: in every state a run reaches, the five-second timer of a socket
    terminates the socket exactly when the socket has not authenticated:
    Authentication is the only event that clears the timer and the only
    one that gives the socket a connection. *)
Theorem timeout_iff_unauthenticated (es : list event) (s : Server) (fx : list effect)
    (k : nat) (sock : Socket) :
  run es initial = Ok tt s fx ->
  sockets s !! k = Some sock ->
  on_connectTimeout k s
  = Ok tt s (match connection sock with
             | None => [SocketTerminate k]
             | Some _ => []
             end).
Proof.
  intros Hrun Hk.
  assert (Hinit : timers_ok initial) by constructor.
  pose proof (timers_run es initial s fx Hinit Hrun) as Hok.
  unfold timers_ok in Hok. rewrite Forall_lookup in Hok. specialize (Hok k sock Hk).
  unfold on_connectTimeout.
  rewrite (mbind_pure _ _ s sock (the_socket_run _ _ _ Hk)), Hok.
  now destruct (connection sock).
Qed.

(** *** The ids *)

Lemma ids_handle (e : event) : preserves ids_ok (handle e).
Proof.
  assert (Halter : forall s c f,
            (forall x, id (f x) = id x) -> ids_ok s ->
            ids_ok (mkServer (rooms s) (all_connections s) (connectionCount s)
                      (room_store s) (alter f c (conn_store s)) (sockets s)
                      (generated s))).
  { intros s c f Hf [Hgen Hids]. split; cbn; [now rewrite length_alter|].
    intros c' x Hx. destruct (decide (c' = c)) as [->|Hne].
    - rewrite list_lookup_alter_eq in Hx.
      destruct (conn_store s !! c) as [y|] eqn:Hy; [|discriminate].
      injection Hx as <-. rewrite Hf. now apply Hids.
    - rewrite list_lookup_alter_ne in Hx by congruence. now apply Hids. }
  assert (Hauth : forall k data, preserves ids_ok (on_authenticate k data)).
  { intros k data. unfold on_authenticate. apply preserves_bind; [keep idtac|].
    intros sock. eapply hoare_bind; [apply hoare_get|]. intros s0.
    apply hoare_bind with (R := fun _ => ids_ok); [|keep idtac].
    intros s a s' fx [-> [Hgen Hids]] Hrun. injection Hrun as _ <- _.
    split; cbn; [rewrite length_app; cbn; lia|].
    intros c x [[Hlt Hx]|[-> <-]]%lookup_snoc_Some; [now apply Hids|].
    cbn. now rewrite Hgen. }
  assert (Hkeep : forall (f : Server -> Server),
            (forall s, conn_store (f s) = conn_store s /\ generated (f s) = generated s) ->
            forall s, ids_ok s -> ids_ok (f s)).
  { intros f Hf s [Hgen Hids]. destruct (Hf s) as [Hc Hg]. split.
    - now rewrite Hc, Hg.
    - rewrite Hc. exact Hids. }
  destruct e; cbn [handle]; try apply Hauth.
  all: try (apply preserves_on_message_from; try apply Hauth; intros).
  all: unfold on_connection, update_connectionCount; unfold_handlers;
    keep ltac:(intros s Hs;
               first [ apply Halter; [reflexivity|exact Hs]
                     | apply (Hkeep _ (fun s => conj eq_refl eq_refl) s Hs) ]).
Qed.

Lemma ids_run (es : list event) (s s' : Server) (fx : list effect) :
  ids_ok s -> run es s = Ok tt s' fx -> ids_ok s'.
Proof.
  intros Hs Hrun.
  exact (hoare_forEach ids_ok handle es ids_handle s tt s' fx Hs Hrun).
Qed.

(** X19: when the generator never repeats an id, no two connections of a
    state that a run reaches have the same id: a connection is given the
    next id of the generator when it is allocated, and no handler writes
    an id afterwards. *)
Theorem ids_are_distinct (es : list event) (s : Server) (fx : list effect)
    (c1 c2 : nat) (x1 x2 : Connection) :
  (forall m n, snowflake_generate m = snowflake_generate n -> m = n) ->
  run es initial = Ok tt s fx ->
  conn_store s !! c1 = Some x1 ->
  conn_store s !! c2 = Some x2 ->
  c1 <> c2 ->
  id x1 <> id x2.
Proof.
  intros Hinj Hrun H1 H2 Hne Hid.
  assert (Hinit : ids_ok initial).
  { split; [reflexivity|]. intros c x Hx. discriminate. }
  destruct (ids_run es initial s fx Hinit Hrun) as [_ Hids].
  apply Hne, Hinj. now rewrite <- (Hids _ _ H1), <- (Hids _ _ H2).
Qed.

(** X20: a run keeps a well-formed state well formed: the registry holds
    no connection twice, and the registry, the member lists of the rooms
    and the sockets refer to allocated connections only. *)
Theorem wf_is_kept (es : list event) (s s' : Server) (fx : list effect) :
  wf s -> run es s = Ok tt s' fx -> wf s'.
Proof.
  intros Hs Hrun.
  exact (hoare_forEach wf handle es preserves_handle s tt s' fx Hs Hrun).
Qed.

(** *** What a connection keeps *)

Lemma identity_handle (e : event) (c : nat) (x : Connection) :
  preserves (fun s => exists x', conn_store s !! c = Some x' /\
                                 socket x' = socket x /\ id x' = id x /\
                                 (loose_neq_null (clientId x) = true ->
                                  clientId x' = clientId x))
            (handle e).
Proof.
  set (P := fun s => exists x', conn_store s !! c = Some x' /\
                                socket x' = socket x /\ id x' = id x /\
                                (loose_neq_null (clientId x) = true ->
                                 clientId x' = clientId x)).
  assert (Halter : forall s c0 f,
            (forall y, socket (f y) = socket y /\ id (f y) = id y /\
                       clientId (f y) = clientId y) ->
            P s ->
            P (mkServer (rooms s) (all_connections s) (connectionCount s)
                 (room_store s) (alter f c0 (conn_store s)) (sockets s)
                 (generated s))).
  { intros s c0 f Hf (x' & Hx' & Hsock & Hid & Hcid). unfold P. cbn.
    destruct (decide (c = c0)) as [<-|Hne].
    - exists (f x'). rewrite list_lookup_alter_eq, Hx'.
      destruct (Hf x') as (-> & -> & ->). auto.
    - exists x'. rewrite list_lookup_alter_ne by congruence. auto. }
  assert (Hclient : forall k pid cid, preserves P (on_client k pid cid)).
  { intros k pid cid. unfold on_client.
    apply preserves_bind; [keep idtac|]. intros sock.
    destruct (connection sock) as [conn|]; [|keep idtac].
    eapply hoare_bind; [apply hoare_the_connection|]. intros this.
    destruct (loose_neq_null (clientId this) && negb (strict_eq (clientId this) cid))
      eqn:Hguard.
    { intros s a s' fx [_ HP] Hrun. injection Hrun as _ <- _. exact HP. }
    unfold Connection_setId, update_connection.
    eapply hoare_bind
      with (R := fun _ s => conn_store s !! conn = Some (set_playerId pid this) /\ P s).
    { intros s a s' fx [Hthis HP] Hrun. injection Hrun as _ <- _. split.
      - cbn. now rewrite list_lookup_alter_eq, Hthis.
      - apply Halter; [now intros y|exact HP]. }
    intros []. eapply hoare_bind with (R := fun _ => P); [|keep idtac].
    intros s a s' fx [Hthis (x' & Hx' & Hsock & Hid & Hcid)] Hrun.
    injection Hrun as _ <- _. unfold P. cbn.
    destruct (decide (c = conn)) as [->|Hne].
    - exists (set_clientId cid x'). rewrite list_lookup_alter_eq, Hx'.
      split; [reflexivity|]. split; [exact Hsock|]. split; [exact Hid|].
      intros Hset. cbn. specialize (Hcid Hset).
      assert (x' = set_playerId pid this) as -> by congruence.
      cbn in Hcid. rewrite Hcid in Hguard. rewrite Hset in Hguard. cbn in Hguard.
      apply negb_false_iff, strict_eq_true in Hguard. congruence.
    - exists x'. rewrite list_lookup_alter_ne by congruence. auto. }
  destruct e; cbn [handle]; try apply Hclient.
  all: try (apply preserves_on_message_from; try apply Hclient; intros).
  all: unfold on_connection, update_connectionCount; unfold_handlers;
    keep ltac:(intros s Hs;
               first [ apply Halter; [now intros y|exact Hs]
                     | destruct Hs as (x' & Hx' & Hrest); exists x'; cbn;
                       split; [first [exact Hx'|now apply lookup_app_l_Some]
                              |exact Hrest] ]).
Qed.

(** X21: what a connection keeps through any run that returns.  It stays
    allocated under its reference, on the socket it was created for and
    with the id it was given; and once it has a client id (any value but
    [null] and [undefined]) it has that client id for good: SetClient is
    the only event that writes the field, and it is let through only with
    the same value. *)
Theorem connection_keeps_identity (es : list event) (s s' : Server) (fx : list effect)
    (c : nat) (x : Connection) :
  run es s = Ok tt s' fx ->
  conn_store s !! c = Some x ->
  exists x',
    conn_store s' !! c = Some x' /\
    socket x' = socket x /\ id x' = id x /\
    (loose_neq_null (clientId x) = true -> clientId x' = clientId x).
Proof.
  intros Hrun Hx.
  refine (hoare_forEach _ handle es (fun e => identity_handle e c x) s tt s' fx _ Hrun).
  exists x. auto.
Qed.

(** *** The rooms *)

Lemma elem_of_remove_first_ne (x y : nat) (l : list nat) :
  y <> x -> y ∈ l -> y ∈ remove_first x l.
Proof.
  intros Hne. induction l as [|z l IH]; [intros []%elem_of_nil|].
  cbn. intros [->|Hy]%elem_of_cons.
  - destruct (Nat.eqb_spec z x); [congruence|]. rewrite elem_of_cons. now left.
  - destruct (Nat.eqb_spec z x); [exact Hy|]. rewrite elem_of_cons. right. now apply IH.
Qed.

Lemma rooms_ok_alter (s : Server) (c0 : nat) (f : Connection -> Connection) :
  (forall y, room (f y) = room y) ->
  rooms_ok s ->
  rooms_ok (mkServer (rooms s) (all_connections s) (connectionCount s)
              (room_store s) (alter f c0 (conn_store s)) (sockets s) (generated s)).
Proof.
  intros Hf [Ha Hb Hc]. constructor; cbn; [exact Ha|exact Hb|].
  intros c1 x1 r1 Hx1 Hroom. destruct (decide (c1 = c0)) as [->|Hne].
  - rewrite list_lookup_alter_eq in Hx1.
    destruct (conn_store s !! c0) as [y|] eqn:Hy; [|discriminate].
    injection Hx1 as <-. rewrite Hf in Hroom. exact (Hc _ _ _ Hy Hroom).
  - rewrite list_lookup_alter_ne in Hx1 by congruence. exact (Hc _ _ _ Hx1 Hroom).
Qed.

(** The state [Connection.join] leaves, from a state where the room is
    registered under the code and may have no member yet. *)
Lemma rooms_ok_joined (s : Server) (c : string) (r conn : nat) (pid : value) :
  rooms s !! c = Some r ->
  (exists rm, room_store s !! r = Some rm /\ code rm = c) ->
  (forall c' r', c' <> c -> rooms s !! c' = Some r' ->
     exists rm, room_store s !! r' = Some rm /\ code rm = c' /\ connections rm <> []) ->
  (forall r' rm, room_store s !! r' = Some rm -> connections rm <> [] ->
     rooms s !! code rm = Some r') ->
  (forall c0 x r0, conn_store s !! c0 = Some x -> room x = Some r0 ->
     exists rm, room_store s !! r0 = Some rm /\ c0 ∈ connections rm) ->
  rooms_ok (mkServer (rooms s) (all_connections s) (connectionCount s)
              (alter (fun rm => mkRoom (code rm) (connections rm ++ [conn])) r
                 (room_store s))
              (alter (fun x => set_playerId pid (set_room (Some r) x)) conn
                 (conn_store s))
              (sockets s) (generated s)).
Proof.
  intros Hr (rm & Hrm & Hcode) Ha Hb Hc. constructor; cbn.
  - intros c' r' Hr'. destruct (decide (r' = r)) as [->|Hner].
    + exists (mkRoom (code rm) (connections rm ++ [conn])).
      rewrite list_lookup_alter_eq, Hrm. split; [reflexivity|]. cbn. split.
      * destruct (decide (c' = c)) as [->|Hnec]; [exact Hcode|].
        destruct (Ha _ _ Hnec Hr') as (rm' & Hrm' & Hcode' & _). congruence.
      * intros Hnil. now apply app_eq_nil in Hnil as [_ [=]].
    + destruct (decide (c' = c)) as [->|Hnec]; [congruence|].
      destruct (Ha _ _ Hnec Hr') as (rm' & Hrm' & Hcode' & Hne').
      exists rm'. now rewrite list_lookup_alter_ne by congruence.
  - intros r' rm' Hrm' Hne'. destruct (decide (r' = r)) as [->|Hner].
    + rewrite list_lookup_alter_eq, Hrm in Hrm'. injection Hrm' as <-. cbn.
      now rewrite Hcode.
    + rewrite list_lookup_alter_ne in Hrm' by congruence. now apply Hb.
  - intros c0 x0 r0 Hx0 Hroom0. destruct (decide (c0 = conn)) as [->|Hnec].
    + rewrite list_lookup_alter_eq in Hx0.
      destruct (conn_store s !! conn) as [y|] eqn:Hy; [|discriminate].
      injection Hx0 as <-. cbn in Hroom0. injection Hroom0 as <-.
      exists (mkRoom (code rm) (connections rm ++ [conn])).
      rewrite list_lookup_alter_eq, Hrm. split; [reflexivity|]. cbn.
      rewrite elem_of_app, elem_of_cons. auto.
    + rewrite list_lookup_alter_ne in Hx0 by congruence.
      destruct (Hc _ _ _ Hx0 Hroom0) as (rm0 & Hrm0 & Hin0).
      destruct (decide (r0 = r)) as [->|Hner].
      * assert (rm0 = rm) as -> by congruence.
        exists (mkRoom (code rm) (connections rm ++ [conn])).
        rewrite list_lookup_alter_eq, Hrm. split; [reflexivity|]. cbn.
        rewrite elem_of_app. auto.
      * exists rm0. now rewrite list_lookup_alter_ne by congruence.
Qed.

(** The state the shared steps of ['leave'] and ['close'] leave. *)
Lemma rooms_ok_left (s : Server) (conn : nat) (this : Connection) (r : nat) (rm : Room) :
  rooms_ok s ->
  conn_store s !! conn = Some this ->
  room this = Some r ->
  room_store s !! r = Some rm ->
  rooms_ok (mkServer
              (if Z.of_nat (length (remove_first conn (connections rm))) <? 1
               then delete (code rm) (rooms s) else rooms s)
              (all_connections s) (connectionCount s)
              (alter (fun rm => mkRoom (code rm) (remove_first conn (connections rm))) r
                 (room_store s))
              (alter (set_room None) conn (conn_store s))
              (sockets s) (generated s)).
Proof.
  intros [Ha Hb Hc] Hthis Hroom Hr.
  destruct (Hc _ _ _ Hthis Hroom) as (rm' & Hrm' & Hin).
  assert (rm' = rm) as -> by congruence.
  assert (Hreg : rooms s !! code rm = Some r).
  { apply Hb; [exact Hr|]. intros Hnil. rewrite Hnil in Hin.
    now apply elem_of_nil in Hin. }
  set (rest := remove_first conn (connections rm)).
  assert (Hempty : (Z.of_nat (length rest) <? 1) = bool_decide (rest = [])).
  { destruct rest; [reflexivity|]. cbn [length].
    rewrite bool_decide_eq_false_2 by discriminate.
    destruct (Z.ltb_spec (Z.of_nat (S (length rest))) 1); [lia|reflexivity]. }
  rewrite Hempty. constructor; cbn.
  - intros c0 r0 Hr0.
    assert (Hr0' : rooms s !! c0 = Some r0 /\ (rest = [] -> c0 <> code rm)).
    { destruct (decide (rest = [])) as [Hnil|Hne].
      - rewrite bool_decide_eq_true_2 in Hr0 by exact Hnil.
        apply lookup_delete_Some in Hr0 as [Hne Hr0]. split; [exact Hr0|]. congruence.
      - rewrite bool_decide_eq_false_2 in Hr0 by exact Hne. split; [exact Hr0|].
        intros Hnil. contradiction. }
    destruct Hr0' as [Hr0' Hkey].
    destruct (Ha _ _ Hr0') as (rm0 & Hrm0 & Hcode0 & Hne0).
    destruct (decide (r0 = r)) as [->|Hner].
    + assert (rm0 = rm) as -> by congruence.
      exists (mkRoom (code rm) rest). rewrite list_lookup_alter_eq, Hr.
      split; [reflexivity|]. split; [exact Hcode0|]. cbn.
      intros Hnil. apply (Hkey Hnil). now symmetry.
    + exists rm0. now rewrite list_lookup_alter_ne by congruence.
  - intros r0 rm0 Hrm0 Hne0. destruct (decide (r0 = r)) as [->|Hner].
    + rewrite list_lookup_alter_eq, Hr in Hrm0. injection Hrm0 as <-. cbn in *.
      now rewrite bool_decide_eq_false_2 by exact Hne0.
    + rewrite list_lookup_alter_ne in Hrm0 by congruence.
      pose proof (Hb _ _ Hrm0 Hne0) as Hreg0.
      destruct (bool_decide (rest = [])); [|exact Hreg0].
      rewrite lookup_delete_ne; [exact Hreg0|]. intros Heq.
      rewrite <- Heq in Hreg0. congruence.
  - intros c0 x0 r0 Hx0 Hroom0. destruct (decide (c0 = conn)) as [->|Hnec].
    + rewrite list_lookup_alter_eq, Hthis in Hx0. injection Hx0 as <-. discriminate.
    + rewrite list_lookup_alter_ne in Hx0 by congruence.
      destruct (Hc _ _ _ Hx0 Hroom0) as (rm0 & Hrm0 & Hin0).
      destruct (decide (r0 = r)) as [->|Hner].
      * assert (rm0 = rm) as -> by congruence.
        exists (mkRoom (code rm) rest). rewrite list_lookup_alter_eq, Hr.
        split; [reflexivity|]. cbn. now apply elem_of_remove_first_ne.
      * exists rm0. now rewrite list_lookup_alter_ne by congruence.
Qed.

(** A member list that passes something through the filter is not
    empty. *)
Lemma hoare_Room_filter_members (P : Server -> Prop) (r : nat)
    (test : Connection -> bool) :
  hoare P (Room_filter r test)
        (fun members s =>
           P s /\ (members <> [] ->
                   exists rm, room_store s !! r = Some rm /\ connections rm <> [])).
Proof.
  unfold Room_filter. eapply hoare_bind; [apply hoare_the_room|]. intros this.
  destruct (connections this) as [|c0 refs] eqn:Hrefs.
  - cbn [mapM]. intros s a s' fx [Hr HP] Hrun. rewrite mret_bind in Hrun.
    injection Hrun as <- <- _. split; [exact HP|]. now intros [].
  - eapply hoare_bind with (R := fun _ s => room_store s !! r = Some this /\ P s).
    + apply hoare_mapM. intros c1. keep idtac.
    + intros members s a s' fx [Hr HP] Hrun. injection Hrun as _ <- _.
      split; [exact HP|]. intros _. exists this. split; [exact Hr|].
      rewrite Hrefs. discriminate.
Qed.

Lemma rooms_on_join k c pid cid : preserves rooms_ok (on_join k c pid cid).
Proof.
  set (W := fun (r : nat) (s : Server) =>
    rooms s !! c = Some r /\
    (exists rm, room_store s !! r = Some rm /\ code rm = c) /\
    (forall c' r', c' <> c -> rooms s !! c' = Some r' ->
       exists rm, room_store s !! r' = Some rm /\ code rm = c' /\ connections rm <> []) /\
    (forall r' rm, room_store s !! r' = Some rm -> connections rm <> [] ->
       rooms s !! code rm = Some r') /\
    (forall c0 x r0, conn_store s !! c0 = Some x -> room x = Some r0 ->
       exists rm, room_store s !! r0 = Some rm /\ c0 ∈ connections rm)).
  unfold on_join. apply preserves_bind; [keep idtac|]. intros sock.
  destruct (connection sock) as [conn|]; [|keep idtac].
  eapply hoare_bind with (R := fun _ => rooms_ok).
  { unfold update_socket. apply preserves_modify. intros s [Ha Hb Hc]. now constructor. }
  intros []. eapply hoare_bind; [apply hoare_get|]. intros s0.
  eapply hoare_bind with (R := W).
  { destruct (rooms s0 !! c) as [r|] eqn:Hr.
    - intros s a s' fx [-> [Ha Hb Hc]] Hrun. injection Hrun as <- <- _.
      unfold W. split; [exact Hr|]. split.
      { destruct (Ha _ _ Hr) as (rm & ? & ? & ?). eauto. }
      split; [intros c' r' _; apply Ha|]. now split.
    - intros s a s' fx [-> [Ha Hb Hc]] Hrun. cbn in Hrun. injection Hrun as <- <- _.
      unfold W. cbn.
      split; [apply lookup_insert_eq|].
      split.
      { exists (mkRoom c []). split; [now apply list_lookup_middle|reflexivity]. }
      split.
      { intros c' r' Hne Hr'. rewrite lookup_insert_ne in Hr' by congruence.
        destruct (Ha _ _ Hr') as (rm & Hrm & ? & ?). exists rm.
        split; [now apply lookup_app_l_Some|auto]. }
      split.
      { intros r' rm [[Hlt Hrm]|[-> <-]]%lookup_snoc_Some Hne; [|now cbn in Hne].
        pose proof (Hb _ _ Hrm Hne) as Hreg. rewrite lookup_insert_ne; [exact Hreg|].
        intros Heq. rewrite Heq in Hr. congruence. }
      intros c0 x r0 Hx Hroom. destruct (Hc _ _ _ Hx Hroom) as (rm & Hrm & Hin).
      exists rm. split; [now apply lookup_app_l_Some|exact Hin]. }
  intros r. eapply hoare_bind; [apply hoare_Room_filter_members|]. intros members.
  destruct (spoofs cid members) eqn:Hspoof.
  - intros s a s' fx [HW Hne] Hrun. injection Hrun as _ <- _.
    destruct members as [|m members]; [discriminate|].
    destruct (Hne ltac:(discriminate)) as (rm & Hrm & Hnonempty).
    destruct HW as (Hr & (rm' & Hrm' & Hcode) & Ha & Hb & Hc).
    assert (rm' = rm) as -> by congruence.
    constructor; [|exact Hb|exact Hc].
    intros c' r' Hr'. destruct (decide (c' = c)) as [->|Hneq]; [|now apply Ha].
    assert (r' = r) as -> by congruence. exists rm. auto.
  - unfold Connection_join, update_connection, Room_add, update_room.
    intros s a s' fx [HW _] Hrun. rewrite !modify_bind in Hrun.
    cbn [rooms all_connections connectionCount room_store conn_store sockets generated]
      in Hrun.
    rewrite list_alter_alter_eq in Hrun. unfold compose in Hrun.
    destruct HW as (Hr & Hroom & Ha & Hb & Hc).
    pose proof (rooms_ok_joined s c r conn pid Hr Hroom Ha Hb Hc) as Hjoined.
    match type of Hrun with
    | ?m ?s3 = _ =>
        assert (Hrest : preserves rooms_ok m) by keep idtac;
        exact (Hrest s3 a s' fx Hjoined Hrun)
    end.
Qed.

Lemma rooms_on_leave k : preserves rooms_ok (on_leave k).
Proof.
  unfold on_leave. apply preserves_bind; [keep idtac|]. intros sock.
  destruct (connection sock) as [conn|]; [|keep idtac].
  eapply hoare_bind; [apply hoare_the_connection|]. intros this.
  destruct (room this) as [r|] eqn:Hroom.
  2: { intros s a s' fx [_ Hok] Hrun. injection Hrun as _ <- _. exact Hok. }
  intros s a s' fx [Hthis Hok] Hrun.
  destruct (back_reference s Hok _ _ _ Hthis Hroom) as (rm & Hr & _).
  rewrite (leave_steps_run s conn this r rm Hthis Hroom Hr) in Hrun.
  injection Hrun as _ <- _. now apply rooms_ok_left with (this := this).
Qed.

Lemma rooms_on_close k : preserves rooms_ok (on_close k).
Proof.
  unfold on_close. eapply hoare_bind with (R := fun _ => rooms_ok).
  { unfold update_connectionCount. apply preserves_modify.
    intros s [Ha Hb Hc]. now constructor. }
  intros []. apply preserves_bind; [keep idtac|]. intros sock.
  destruct (connection sock) as [conn|]; [|keep idtac].
  eapply hoare_bind; [apply hoare_the_connection|]. intros this.
  intros s a s' fx [Hthis Hok] Hrun.
  destruct (room this) as [r|] eqn:Hroom.
  - destruct (back_reference s Hok _ _ _ Hthis Hroom) as (rm & Hr & _).
    cbn [from_option] in Hrun. rewrite <- mbind_assoc in Hrun.
    rewrite (mbind_Ok _ _ s _ _ _ (leave_steps_run s conn this r rm Hthis Hroom Hr))
      in Hrun.
    injection Hrun as _ <- _.
    destruct (rooms_ok_left s conn this r rm Hok Hthis Hroom Hr) as [Ha Hb Hc].
    now constructor.
  - unfold Connection_leave in Hrun. rewrite mbind_run in Hrun.
    rewrite (mbind_pure _ _ s this (the_connection_run _ _ _ Hthis)), Hroom in Hrun.
    discriminate.
Qed.

Lemma rooms_handle (e : event) : preserves rooms_ok (handle e).
Proof.
  assert (Hauth : forall k data, preserves rooms_ok (on_authenticate k data)).
  { intros k data. unfold on_authenticate.
    keep ltac:(intros s [Ha Hb Hc]; constructor; cbn; [exact Ha|exact Hb|];
               intros c0 x0 r0 [[_ Hx0]|[_ <-]]%lookup_snoc_Some Hroom0;
               [exact (Hc _ _ _ Hx0 Hroom0)|discriminate]). }
  destruct e; cbn [handle];
    try apply Hauth; try apply rooms_on_join; try apply rooms_on_leave;
    try apply rooms_on_close.
  all: try (apply preserves_on_message_from;
            try apply Hauth; try apply rooms_on_join; try apply rooms_on_leave;
            intros).
  all: unfold on_connection, update_connectionCount; unfold_handlers;
    keep ltac:(intros s Hs;
               first [ apply rooms_ok_alter; [reflexivity|exact Hs]
                     | destruct Hs as [Ha Hb Hc]; now constructor ]).
Qed.

Lemma rooms_run (es : list event) (s : Server) (fx : list effect) :
  run es initial = Ok tt s fx -> rooms_ok s.
Proof.
  intros Hrun.
  refine (hoare_forEach rooms_ok handle es rooms_handle initial tt s fx _ Hrun).
  constructor; cbn.
  - intros c r Hr. now rewrite lookup_empty in Hr.
  - intros r rm Hrm. discriminate.
  - intros c x r Hx. discriminate.
Qed.

(** X22: the room map and the rooms agree in every state a run reaches.
    A registered room carries the code it is registered under and has a
    member, so a room is unregistered as soon as its last member leaves or
    disconnects; a room with a member is registered under its code, so no
    two rooms with members share a code; and the room a connection
    refers to has the connection among its members and is registered. *)
Theorem rooms_stay_consistent (es : list event) (s : Server) (fx : list effect) :
  run es initial = Ok tt s fx ->
  (forall c r, rooms s !! c = Some r ->
     exists rm, room_store s !! r = Some rm /\ code rm = c /\ connections rm <> []) /\
  (forall r rm, room_store s !! r = Some rm -> connections rm <> [] ->
     rooms s !! code rm = Some r) /\
  (forall c x r, conn_store s !! c = Some x -> room x = Some r ->
     exists rm, room_store s !! r = Some rm /\ c ∈ connections rm /\
                rooms s !! code rm = Some r).
Proof.
  intros Hrun. destruct (rooms_run es s fx Hrun) as [Ha Hb Hc].
  split; [exact Ha|]. split; [exact Hb|].
  intros c x r Hx Hroom. destruct (Hc _ _ _ Hx Hroom) as (rm & Hrm & Hin).
  exists rm. split; [exact Hrm|]. split; [exact Hin|].
  apply Hb; [exact Hrm|]. intros Hnil. rewrite Hnil in Hin. now apply elem_of_nil in Hin.
Qed.

End Invariants.

(** ** Members that cannot leave *)

Lemma count_remove_first_eq (x : nat) (l : list nat) :
  count_occ Nat.eq_dec (remove_first x l) x = Nat.pred (count_occ Nat.eq_dec l x).
Proof.
  induction l as [|y l IH]; [reflexivity|]. cbn [remove_first].
  destruct (Nat.eqb_spec y x) as [->|Hne].
  - now rewrite count_occ_cons_eq.
  - rewrite !count_occ_cons_neq by exact Hne. exact IH.
Qed.

Lemma count_remove_first_ne (x y : nat) (l : list nat) :
  y <> x -> count_occ Nat.eq_dec (remove_first x l) y = count_occ Nat.eq_dec l y.
Proof.
  intros Hne. induction l as [|z l IH]; [reflexivity|]. cbn [remove_first].
  destruct (Nat.eqb_spec z x) as [->|Hzx].
  - now rewrite count_occ_cons_neq by congruence.
  - destruct (decide (z = y)) as [->|Hzy].
    + rewrite !count_occ_cons_eq by reflexivity. now rewrite IH.
    + rewrite !count_occ_cons_neq by exact Hzy. exact IH.
Qed.

Lemma ghosts_same (s s' : Server) (c r : nat) :
  from_option connections [] (room_store s' !! r)
  = from_option connections [] (room_store s !! r) ->
  conn_store s' !! c ≫= room = conn_store s !! c ≫= room ->
  ghosts s' c r = ghosts s c r.
Proof. intros Hr Hc. unfold ghosts, occurrences, is_in. now rewrite Hr, Hc. Qed.

Lemma members_new_room (l : list Room) (code : string) (r : nat) :
  from_option connections [] ((l ++ [mkRoom code []]) !! r)
  = from_option connections [] (l !! r).
Proof.
  destruct (lt_eq_lt_dec r (length l)) as [[Hlt| ->]|Hgt].
  - now rewrite lookup_app_l by exact Hlt.
  - rewrite (list_lookup_middle l [] _ _ eq_refl).
    now rewrite (proj2 (lookup_ge_None l (length l))) by lia.
  - rewrite (proj2 (lookup_ge_None l r)) by lia.
    rewrite (proj2 (lookup_ge_None _ r)); [reflexivity|].
    rewrite length_app. cbn. lia.
Qed.

Lemma room_new_connection (l : list Connection) (x : Connection) (c : nat) :
  room x = None -> (l ++ [x]) !! c ≫= room = l !! c ≫= room.
Proof.
  intros Hx. destruct (lt_eq_lt_dec c (length l)) as [[Hlt| ->]|Hgt].
  - now rewrite lookup_app_l by exact Hlt.
  - rewrite (list_lookup_middle l [] _ _ eq_refl).
    rewrite (proj2 (lookup_ge_None l (length l))) by lia. exact Hx.
  - rewrite (proj2 (lookup_ge_None l c)) by lia.
    rewrite (proj2 (lookup_ge_None _ c)); [reflexivity|].
    rewrite length_app. cbn. lia.
Qed.

Lemma ghosts_alter (s : Server) (c0 : nat) (f : Connection -> Connection) (c r : nat) :
  (forall y, room (f y) = room y) ->
  ghosts (mkServer (rooms s) (all_connections s) (connectionCount s)
            (room_store s) (alter f c0 (conn_store s)) (sockets s) (generated s)) c r
  = ghosts s c r.
Proof.
  intros Hf. apply ghosts_same; [reflexivity|]. cbn.
  destruct (decide (c = c0)) as [->|Hne].
  - rewrite list_lookup_alter_eq. destruct (conn_store s !! c0); [|reflexivity].
    cbn. apply Hf.
  - now rewrite list_lookup_alter_ne by congruence.
Qed.

(** [Connection.join] takes no ghost away. *)
Lemma ghosts_joined (s : Server) (conn rj : nat) (pid : value) (c r : nat) :
  (ghosts s c r
   <= ghosts (mkServer (rooms s) (all_connections s) (connectionCount s)
                (alter (fun rm => mkRoom (code rm) (connections rm ++ [conn])) rj
                   (room_store s))
                (alter (fun x => set_playerId pid (set_room (Some rj) x)) conn
                   (conn_store s))
                (sockets s) (generated s)) c r)%nat.
Proof.
  unfold ghosts, occurrences, is_in. cbn [room_store conn_store].
  destruct (decide (r = rj)) as [->|Hr]; destruct (decide (c = conn)) as [->|Hc].
  - rewrite !list_lookup_alter_eq.
    destruct (room_store s !! rj) as [rm|]; cbn [fmap option_fmap option_map from_option];
      [|cbn; lia].
    cbn [connections]. rewrite count_occ_app. cbn [count_occ].
    destruct (Nat.eq_dec conn conn) as [_|Hne]; [|contradiction].
    destruct (bool_decide _), (bool_decide _); lia.
  - rewrite list_lookup_alter_eq, (list_lookup_alter_ne _ _ conn c) by congruence.
    destruct (room_store s !! rj) as [rm|]; cbn [fmap option_fmap option_map from_option];
      [|cbn; lia].
    cbn [connections]. rewrite count_occ_app. cbn [count_occ].
    destruct (Nat.eq_dec conn c) as [Heq|_]; [congruence|].
    destruct (bool_decide _); lia.
  - rewrite (list_lookup_alter_ne _ _ rj r) by congruence. rewrite list_lookup_alter_eq.
    assert (Hout : bool_decide
                     (((fun x => set_playerId pid (set_room (Some rj) x))
                         <$> conn_store s !! conn) ≫= room = Some r) = false).
    { apply bool_decide_eq_false_2. destruct (conn_store s !! conn); cbn; congruence. }
    rewrite Hout. destruct (bool_decide _); lia.
  - rewrite (list_lookup_alter_ne _ _ rj r), (list_lookup_alter_ne _ _ conn c)
      by congruence.
    lia.
Qed.

(** The steps ['leave'] and ['close'] share take no ghost away. *)
Lemma ghosts_left (s : Server) (conn : nat) (this : Connection) (rl : nat) (rm : Room)
    (m : gmap string nat) (c r : nat) :
  conn_store s !! conn = Some this ->
  room this = Some rl ->
  room_store s !! rl = Some rm ->
  (ghosts s c r
   <= ghosts (mkServer m (all_connections s) (connectionCount s)
                (alter (fun rm => mkRoom (code rm) (remove_first conn (connections rm))) rl
                   (room_store s))
                (alter (set_room None) conn (conn_store s))
                (sockets s) (generated s)) c r)%nat.
Proof.
  intros Hthis Hroom Hrl.
  unfold ghosts, occurrences, is_in. cbn [room_store conn_store].
  destruct (decide (r = rl)) as [->|Hr]; destruct (decide (c = conn)) as [->|Hc].
  - rewrite !list_lookup_alter_eq, Hrl, Hthis.
    cbn [fmap option_fmap option_map from_option connections mbind option_bind room
         set_room].
    rewrite Hroom, count_remove_first_eq.
    rewrite bool_decide_eq_true_2 by reflexivity.
    rewrite bool_decide_eq_false_2 by discriminate. lia.
  - rewrite list_lookup_alter_eq, (list_lookup_alter_ne _ _ conn c) by congruence.
    rewrite Hrl. cbn [fmap option_fmap option_map from_option connections].
    rewrite count_remove_first_ne by exact Hc. lia.
  - rewrite (list_lookup_alter_ne _ _ rl r) by congruence.
    rewrite list_lookup_alter_eq, Hthis.
    cbn [fmap option_fmap option_map mbind option_bind room set_room].
    rewrite Hroom.
    rewrite (bool_decide_eq_false_2 (Some rl = Some r)) by congruence.
    rewrite bool_decide_eq_false_2 by discriminate. lia.
  - rewrite (list_lookup_alter_ne _ _ rl r), (list_lookup_alter_ne _ _ conn c)
      by congruence.
    lia.
Qed.

Section Ghosts.

Context `{Platform}.

#[local] Hint Resolve preserves_Connection_send preserves_Room_filter
  preserves_Room_broadcast preserves_Room_count preserves_Room_find
  preserves_Room_clients preserves_shorter_than preserves_index
  preserves_as_string : preserve.

Lemma ghosts_on_join k code pid cid (c r n : nat) :
  preserves (fun s => (n <= ghosts s c r)%nat) (on_join k code pid cid).
Proof.
  set (P := fun s => (n <= ghosts s c r)%nat).
  unfold on_join. apply preserves_bind; [keep idtac|]. intros sock.
  destruct (connection sock) as [conn|]; [|keep idtac].
  apply preserves_bind.
  { unfold update_socket. apply preserves_modify. intros s Hs. exact Hs. }
  intros []. apply preserves_bind; [keep idtac|]. intros s0.
  apply preserves_bind.
  { destruct (rooms s0 !! code) as [rj|]; [keep idtac|].
    apply preserves_bind; [|keep idtac].
    apply preserves_modify. intros s Hs. unfold P.
    erewrite ghosts_same; [exact Hs| |reflexivity]. cbn. apply members_new_room. }
  intros rj. apply preserves_bind; [keep idtac|]. intros members.
  destruct (spoofs cid members); [keep idtac|].
  unfold Connection_join, update_connection, Room_add, update_room.
  intros s a s' fx Hs Hrun. rewrite !modify_bind in Hrun.
  cbn [rooms all_connections connectionCount room_store conn_store sockets generated]
    in Hrun.
  rewrite list_alter_alter_eq in Hrun. unfold compose in Hrun.
  match type of Hrun with
  | ?m ?s3 = _ =>
      assert (Hrest : preserves P m) by keep idtac;
      refine (Hrest s3 a s' fx _ Hrun)
  end.
  unfold P in *. etransitivity; [exact Hs|apply ghosts_joined].
Qed.

Lemma ghosts_leave_steps (conn : nat) (this : Connection) (rl : nat) (c r n : nat) :
  room this = Some rl ->
  hoare (fun s => conn_store s !! conn = Some this /\
                  rooms_ok s /\ (n <= ghosts s c r)%nat)
        (Connection_leave conn;; delete_if_empty rl)
        (fun _ s => (n <= ghosts s c r)%nat).
Proof.
  intros Hroom s a s' fx (Hthis & Hok & Hs) Hrun.
  destruct (back_reference s Hok _ _ _ Hthis Hroom) as (rm & Hr & _).
  rewrite (leave_steps_run s conn this rl rm Hthis Hroom Hr) in Hrun.
  injection Hrun as _ <- _.
  etransitivity; [exact Hs|]. now apply ghosts_left with (this := this) (rm := rm).
Qed.

Lemma ghosts_on_leave k (c r n : nat) :
  hoare (fun s => rooms_ok s /\ (n <= ghosts s c r)%nat) (on_leave k)
        (fun _ s => (n <= ghosts s c r)%nat).
Proof.
  unfold on_leave. eapply hoare_bind; [apply hoare_the_socket|]. intros sock.
  destruct (connection sock) as [conn|].
  2: { intros s a s' fx (_ & _ & Hs) Hrun. injection Hrun as _ <- _. exact Hs. }
  eapply hoare_bind; [apply hoare_the_connection|]. intros this.
  destruct (room this) as [rl|] eqn:Hroom.
  2: { intros s a s' fx (_ & _ & _ & Hs) Hrun. injection Hrun as _ <- _. exact Hs. }
  eapply hoare_weaken; [apply (ghosts_leave_steps conn this rl c r n Hroom)| |auto].
  intros s (Hthis & _ & Hok & Hs). auto.
Qed.

Lemma ghosts_on_close k (c r n : nat) :
  hoare (fun s => rooms_ok s /\ (n <= ghosts s c r)%nat) (on_close k)
        (fun _ s => (n <= ghosts s c r)%nat).
Proof.
  set (P := fun s => rooms_ok s /\ (n <= ghosts s c r)%nat).
  unfold on_close. eapply hoare_bind with (R := fun _ => P).
  { unfold update_connectionCount. apply preserves_modify.
    intros s [[Ha Hb Hc] Hs]. split; [now constructor|exact Hs]. }
  intros []. eapply hoare_bind; [apply hoare_the_socket|]. intros sock.
  destruct (connection sock) as [conn|].
  2: { intros s a s' fx (_ & _ & Hs) Hrun. injection Hrun as _ <- _. exact Hs. }
  eapply hoare_bind; [apply hoare_the_connection|]. intros this.
  destruct (room this) as [rl|] eqn:Hroom.
  - cbn [from_option]. intros s a s' fx (Hthis & _ & Hok & Hs) Hrun.
    rewrite <- mbind_assoc in Hrun. rewrite mbind_run in Hrun.
    destruct ((Connection_leave conn;; delete_if_empty rl) s) as [[] s1 fx1| |] eqn:Hleave;
      [|discriminate..].
    pose proof (ghosts_leave_steps conn this rl c r n Hroom s tt s1 fx1
                  (conj Hthis (conj Hok Hs)) Hleave) as Hs1.
    cbn in Hrun. injection Hrun as _ <- _. exact Hs1.
  - intros s a s' fx (Hthis & _) Hrun.
    unfold Connection_leave in Hrun. rewrite mbind_run in Hrun.
    rewrite (mbind_pure _ _ s this (the_connection_run _ _ _ Hthis)), Hroom in Hrun.
    discriminate.
Qed.

Lemma ghosts_handle (e : event) (c r n : nat) :
  preserves (fun s => rooms_ok s /\ (n <= ghosts s c r)%nat) (handle e).
Proof.
  set (G := fun s => (n <= ghosts s c r)%nat).
  assert (Hboth : forall m : M unit,
            hoare (fun s => rooms_ok s /\ G s) m (fun _ => G) ->
            preserves rooms_ok m ->
            preserves (fun s => rooms_ok s /\ G s) m).
  { intros m HG Hok s a s' fx [Hs1 Hs2] Hrun. split.
    - exact (Hok s a s' fx Hs1 Hrun).
    - exact (HG s a s' fx (conj Hs1 Hs2) Hrun). }
  assert (Hweak : forall m : M unit,
            preserves G m -> hoare (fun s => rooms_ok s /\ G s) m (fun _ => G)).
  { intros m Hm. eapply hoare_weaken; [exact Hm|now intros s [_ Hs]|auto]. }
  apply Hboth; [|destruct e; apply rooms_handle].
  assert (Hauth : forall k data, preserves G (on_authenticate k data)).
  { intros k data. unfold on_authenticate.
    keep ltac:(intros s Hs; unfold G;
               erewrite ghosts_same; [exact Hs|reflexivity|];
               cbn; now apply room_new_connection). }
  assert (Hclient : forall k pid cid, preserves G (on_client k pid cid)).
  { intros k pid cid. unfold_handlers.
    keep ltac:(intros s Hs; unfold G; now rewrite ghosts_alter). }
  assert (Hsignal : forall k peer data, preserves G (on_signal k peer data)).
  { intros k peer data. unfold_handlers. keep idtac. }
  assert (Hmessage : forall k buf,
            hoare (fun s => rooms_ok s /\ G s) (on_message k buf) (fun _ => G)).
  { intros k buf.
    unfold on_message.
    eapply hoare_bind; [apply (preserves_the_socket (fun s => rooms_ok s /\ G s))|].
    intros sock.
    destruct (decode buf) as [| |type data];
      [now intros s a s' fx [_ Hs] [= _ <- _]|intros s a s' fx _ [=]|].
    repeat match goal with
           | |- hoare _ (if ?b then _ else _) _ => destruct b
           end.
    - now intros s a s' fx [_ Hs] [= _ <- _].
    - apply Hweak, Hauth.
    - eapply hoare_bind;
        [apply (preserves_shorter_than (fun s => rooms_ok s /\ G s))|].
      intros [|]; [now intros s a s' fx [_ Hs] [= _ <- _]|].
      eapply hoare_bind; [apply (preserves_index (fun s => rooms_ok s /\ G s))|].
      intros d0.
      eapply hoare_bind; [apply (preserves_index (fun s => rooms_ok s /\ G s))|].
      intros d1.
      eapply hoare_bind; [apply (preserves_index (fun s => rooms_ok s /\ G s))|].
      intros d2.
      eapply hoare_bind; [apply (preserves_as_string (fun s => rooms_ok s /\ G s))|].
      intros code. apply Hweak, ghosts_on_join.
    - apply ghosts_on_leave.
    - eapply hoare_bind;
        [apply (preserves_shorter_than (fun s => rooms_ok s /\ G s))|].
      intros [|]; [now intros s a s' fx [_ Hs] [= _ <- _]|].
      eapply hoare_bind; [apply (preserves_index (fun s => rooms_ok s /\ G s))|].
      intros d0.
      eapply hoare_bind; [apply (preserves_index (fun s => rooms_ok s /\ G s))|].
      intros d1. apply Hweak, Hclient.
    - eapply hoare_bind;
        [apply (preserves_shorter_than (fun s => rooms_ok s /\ G s))|].
      intros [|]; [now intros s a s' fx [_ Hs] [= _ <- _]|].
      eapply hoare_bind; [apply (preserves_index (fun s => rooms_ok s /\ G s))|].
      intros d0.
      eapply hoare_bind; [apply (preserves_index (fun s => rooms_ok s /\ G s))|].
      intros d1.
      eapply hoare_bind; [apply (preserves_as_string (fun s => rooms_ok s /\ G s))|].
      intros peer. apply Hweak, Hsignal.
    - now intros s a s' fx [_ Hs] [= _ <- _]. }
  destruct e; cbn [handle].
  - apply Hweak. unfold on_connection, update_connectionCount.
    keep ltac:(intros s Hs; exact Hs).
  - apply Hweak. unfold_handlers. keep idtac.
  - apply Hmessage.
  - apply Hweak, Hauth.
  - apply Hweak, ghosts_on_join.
  - apply ghosts_on_leave.
  - apply Hweak, Hclient.
  - apply Hweak, Hsignal.
  - apply ghosts_on_close.
  - apply Hweak. unfold_handlers.
    keep ltac:(intros s Hs; unfold G; now rewrite ghosts_alter).
  - apply Hweak. unfold_handlers.
    keep ltac:(intros s Hs; unfold G; now rewrite ghosts_alter).
Qed.

(** When [Connection.join] returns, the state is the one its three
    writes leave. *)
Lemma Connection_join_state (s s' : Server) (conn rj : nat) (pid : value)
    (fx : list effect) :
  Connection_join conn rj pid s = Ok tt s' fx ->
  s' = mkServer (rooms s) (all_connections s) (connectionCount s)
         (alter (fun rm => mkRoom (code rm) (connections rm ++ [conn])) rj (room_store s))
         (alter (fun x => set_playerId pid (set_room (Some rj) x)) conn (conn_store s))
         (sockets s) (generated s).
Proof.
  unfold Connection_join, update_connection, Room_add, update_room.
  intros Hrun. rewrite !modify_bind in Hrun.
  cbn [rooms all_connections connectionCount room_store conn_store sockets generated]
    in Hrun.
  rewrite list_alter_alter_eq in Hrun. unfold compose in Hrun.
  match type of Hrun with
  | ?m ?s3 = _ =>
      assert (Hrest : preserves (fun s1 => s1 = s3) m) by keep idtac;
      exact (Hrest s3 tt s' fx eq_refl Hrun)
  end.
Qed.

(** A connection that joins while it is in a room leaves an occurrence
    behind in that room. *)
Lemma ghosts_after_join (s : Server) (conn rj : nat) (pid : value) (this : Connection)
    (r : nat) :
  conn_store s !! conn = Some this ->
  room this = Some r ->
  (1 <= occurrences s conn r)%nat ->
  (1 <= ghosts (mkServer (rooms s) (all_connections s) (connectionCount s)
                  (alter (fun rm => mkRoom (code rm) (connections rm ++ [conn])) rj
                     (room_store s))
                  (alter (fun x => set_playerId pid (set_room (Some rj) x)) conn
                     (conn_store s))
                  (sockets s) (generated s)) conn r)%nat.
Proof.
  intros Hthis Hroom Hocc.
  unfold ghosts, occurrences, is_in in *. cbn [room_store conn_store].
  rewrite (list_lookup_alter_eq _ (conn_store s)), Hthis.
  cbn [fmap option_fmap option_map mbind option_bind room set_playerId set_room].
  destruct (decide (r = rj)) as [->|Hne].
  - rewrite list_lookup_alter_eq.
    destruct (room_store s !! rj) as [rm|]; [|cbn in Hocc; lia].
    cbn [fmap option_fmap option_map from_option connections] in *.
    rewrite count_occ_app. cbn [count_occ].
    destruct (Nat.eq_dec conn conn) as [_|Hne]; [|contradiction].
    destruct (bool_decide _); lia.
  - rewrite (list_lookup_alter_ne _ _ rj r) by congruence.
    rewrite (bool_decide_eq_false_2 (Some rj = Some r)) by congruence. lia.
Qed.

(** X29: how such an occurrence comes to be.  In a state that a run
    reaches, when a connection that is in a room sends a Join that is not
    turned away, for any code, it is left with an occurrence in the room
    it was in that its [room] field does not account for: [join] adds the
    connection to the room of the Join and never takes it out of the room
    it is in. *)
Theorem second_join_leaves_ghost (es : list event) (s s' : Server) (fx fx' : list effect)
    (k : nat) (sock : Socket) (conn : nat) (this : Connection) (r : nat)
    (code : string) (pid cid : value) :
  run es initial = Ok tt s fx ->
  sockets s !! k = Some sock ->
  connection sock = Some conn ->
  conn_store s !! conn = Some this ->
  room this = Some r ->
  on_join k code pid cid s = Ok tt s' fx' ->
  SocketTerminate k ∉ fx' ->
  (1 <= ghosts s' conn r)%nat.
Proof.
  intros Hrun Hk Hconn Hthis Hroom Hjoin Hkept.
  pose proof (run_wf es s fx Hrun) as Hwf.
  pose proof (rooms_run es s fx Hrun) as Hok.
  assert (Hocc : (1 <= occurrences s conn r)%nat).
  { destruct (back_reference s Hok _ _ _ Hthis Hroom) as (rm & Hr & Hin).
    unfold occurrences. rewrite Hr. cbn.
    apply list_elem_of_In, (count_occ_In Nat.eq_dec) in Hin. lia. }
  unfold on_join in Hjoin.
  rewrite (mbind_pure _ _ s sock (the_socket_run _ _ _ Hk)), Hconn in Hjoin.
  unfold update_socket in Hjoin. rewrite modify_bind in Hjoin.
  set (s1 := mkServer _ _ _ _ _ _ _) in Hjoin.
  rewrite get_bind in Hjoin. change (rooms s1) with (rooms s) in Hjoin.
  destruct (rooms s !! code) as [rj|] eqn:Hcode.
  - destruct (registered_room s Hok _ _ Hcode) as (rm & Hr & _).
    pose proof (wf_members_valid _ _ _ Hwf Hr) as Hrefs.
    rewrite mret_bind in Hjoin.
    rewrite (mbind_pure _ _ s1 _ (Room_filter_members s1 rj rm _ Hr Hrefs)) in Hjoin.
    destruct (spoofs cid _).
    { injection Hjoin as _ <-. exfalso. apply Hkept. constructor. }
    apply Connection_join_state in Hjoin. subst s'.
    exact (ghosts_after_join s1 conn rj pid this r Hthis Hroom Hocc).
  - rewrite mbind_assoc, modify_bind, mret_bind in Hjoin.
    set (s2 := mkServer _ _ _ _ _ _ _) in Hjoin.
    set (rj := length (room_store s1)) in Hjoin.
    assert (Hr : room_store s2 !! rj = Some (mkRoom code [])).
    { cbn. apply list_lookup_middle. reflexivity. }
    assert (Hrefs : Forall (fun x => is_Some (conn_store s2 !! x))
                      (connections (mkRoom code []))) by constructor.
    rewrite (mbind_pure _ _ s2 _ (Room_filter_members s2 rj _ _ Hr Hrefs)) in Hjoin.
    cbn [connections members_of omap list_omap List.filter spoofs existsb] in Hjoin.
    apply Connection_join_state in Hjoin. subst s'.
    apply (ghosts_after_join s2 conn rj pid this r Hthis Hroom).
    unfold occurrences in *. cbn [room_store s2]. now rewrite members_new_room.
Qed.

(** X28: members that cannot leave.  Count the occurrences of a
    connection in the member list of a room beyond the one its own [room]
    field accounts for.  No handler ever takes one away.  So in every
    state a run reaches, a room that holds such an occurrence keeps the
    connection among its members, and stays registered under its code,
    through every run that follows. *)
Theorem ghost_members_stay (es es' : list event) (s s' : Server) (fx fx' : list effect)
    (c r : nat) :
  run es initial = Ok tt s fx ->
  run es' s = Ok tt s' fx' ->
  (1 <= ghosts s c r)%nat ->
  (ghosts s c r <= ghosts s' c r)%nat /\
  exists rm, room_store s' !! r = Some rm /\ c ∈ connections rm /\
             rooms s' !! code rm = Some r.
Proof.
  intros Hrun Hrun' Hghost.
  pose proof (rooms_run es s fx Hrun) as Hok.
  destruct (hoare_forEach _ handle es' (fun e => ghosts_handle e c r (ghosts s c r))
              s tt s' fx' (conj Hok (le_n _)) Hrun') as [Hok' Hkept].
  split; [exact Hkept|].
  assert (Hocc : (1 <= occurrences s' c r)%nat) by (unfold ghosts in *; lia).
  unfold occurrences in Hocc.
  destruct (room_store s' !! r) as [rm|] eqn:Hr; [|cbn in Hocc; lia].
  cbn in Hocc. apply (count_occ_In Nat.eq_dec) in Hocc. apply list_elem_of_In in Hocc.
  exists rm. split; [reflexivity|]. split; [exact Hocc|].
  apply (occupied_room s' Hok' r rm Hr). intros Hnil. rewrite Hnil in Hocc.
  now apply elem_of_nil in Hocc.
Qed.

End Ghosts.

(** ** A second Authentication *)

Section Orphans.

Context `{Platform}.

#[local] Hint Resolve preserves_Connection_send preserves_Room_filter
  preserves_Room_broadcast preserves_Room_count preserves_Room_find
  preserves_Room_clients preserves_shorter_than preserves_index
  preserves_as_string : preserve.

Lemma owner_handle (e : event) : preserves owner_ok (handle e).
Proof.
  assert (Halter : forall s c0 f,
            (forall y, socket (f y) = socket y) -> owner_ok s ->
            owner_ok (mkServer (rooms s) (all_connections s) (connectionCount s)
                        (room_store s) (alter f c0 (conn_store s)) (sockets s)
                        (generated s))).
  { intros s c0 f Hf Hs k sock c Hk Hc. destruct (Hs k sock c Hk Hc) as (x & Hx & Hsock).
    cbn. destruct (decide (c = c0)) as [->|Hne].
    - exists (f x). rewrite list_lookup_alter_eq, Hx. split; [reflexivity|].
      now rewrite Hf.
    - exists x. now rewrite list_lookup_alter_ne by congruence. }
  assert (Hsockets : forall s k0 g,
            (forall y, connection (g y) = connection y) -> owner_ok s ->
            owner_ok (mkServer (rooms s) (all_connections s) (connectionCount s)
                        (room_store s) (conn_store s) (alter g k0 (sockets s))
                        (generated s))).
  { intros s k0 g Hg Hs k sock c Hk Hc. cbn in Hk. cbn.
    destruct (decide (k = k0)) as [->|Hne].
    - rewrite list_lookup_alter_eq in Hk.
      destruct (sockets s !! k0) as [sock0|] eqn:Hk0; [|discriminate].
      injection Hk as <-. rewrite Hg in Hc. exact (Hs k0 sock0 c Hk0 Hc).
    - rewrite list_lookup_alter_ne in Hk by congruence. exact (Hs k sock c Hk Hc). }
  assert (Hauth : forall k data, preserves owner_ok (on_authenticate k data)).
  { intros k0 data. unfold on_authenticate. apply preserves_bind; [keep idtac|].
    intros sock0. eapply hoare_bind; [apply hoare_get|]. intros s0.
    apply hoare_bind with (R := fun _ => owner_ok); [|keep idtac].
    intros s a s' fx [-> Hs] Hrun. injection Hrun as _ <- _.
    intros k sock c Hk Hc. cbn in Hk. cbn.
    destruct (decide (k = k0)) as [->|Hne].
    - rewrite list_lookup_alter_eq in Hk.
      destruct (sockets s !! k0) as [sock1|]; [|discriminate].
      injection Hk as <-. injection Hc as <-.
      eexists. split; [now apply list_lookup_middle|reflexivity].
    - rewrite list_lookup_alter_ne in Hk by congruence.
      destruct (Hs k sock c Hk Hc) as (x & Hx & Hsock).
      exists x. split; [now apply lookup_app_l_Some|exact Hsock]. }
  destruct e; cbn [handle]; try apply Hauth.
  all: try (apply preserves_on_message_from; try apply Hauth; intros).
  all: unfold on_connection, update_connectionCount; unfold_handlers;
    keep ltac:(intros s Hs;
               first [ apply Halter; [reflexivity|exact Hs]
                     | apply Hsockets; [reflexivity|exact Hs]
                     | exact Hs
                     | intros k1 sock1 c1 [[_ Hk1]|[_ <-]]%lookup_snoc_Some Hc1;
                       [exact (Hs k1 sock1 c1 Hk1 Hc1)|discriminate] ]).
Qed.

Lemma owner_run (es : list event) (s : Server) (fx : list effect) :
  run es initial = Ok tt s fx -> owner_ok s.
Proof.
  intros Hrun.
  refine (hoare_forEach owner_ok handle es owner_handle initial tt s fx _ Hrun).
  intros k sock c Hk. discriminate.
Qed.

Lemma on_authenticate_run (s : Server) (k : nat) (sock : Socket) (data : value)
    (buf : list byte) :
  sockets s !! k = Some sock ->
  send_buf (Events_code Authentication)
    [VObj [("id"%string, VStr (snowflake_generate (generated s)))]] = inr buf ->
  on_authenticate k data s
  = Ok tt
      (mkServer (rooms s) (all_connections s ++ [length (conn_store s)])
         (connectionCount s) (room_store s)
         (conn_store s
          ++ [mkConnection k (snowflake_generate (generated s))
                VUndefined VUndefined None None])
         (alter (fun sock => mkSocket (sock_code sock) false
                               (Some (length (conn_store s)))) k (sockets s))
         (S (generated s)))
      [SocketSend k buf].
Proof.
  intros Hk Hbuf. unfold on_authenticate.
  rewrite (mbind_pure _ _ s sock (the_socket_run _ _ _ Hk)).
  rewrite get_bind, modify_bind.
  set (s' := mkServer _ _ _ _ _ _ _). unfold Connection_send.
  assert (Hc : conn_store s' !! length (conn_store s)
               = Some (mkConnection k (snowflake_generate (generated s))
                         VUndefined VUndefined None None)).
  { cbn. now apply list_lookup_middle. }
  rewrite (mbind_pure _ _ s' _ (the_connection_run _ _ _ Hc)).
  now rewrite Hbuf.
Qed.

(** A socket authenticates again, then a sweep, pongs and the next sweep:
    the connection the socket had is still swept and no pong reaches it;
    the connection it has now is swept as well, and the pongs of the
    socket reach this one. *)
Lemma reauthenticated_sweeps (es : list event) (s : Server) (fx : list effect)
    (k : nat) (sock : Socket) (old : nat) (data : value) (buf : list byte)
    (ks : list nat) :
  run es initial = Ok tt s fx ->
  sockets s !! k = Some sock ->
  connection sock = Some old ->
  old ∈ all_connections s ->
  send_buf (Events_code Authentication)
    [VObj [("id"%string, VStr (snowflake_generate (generated s)))]] = inr buf ->
  Forall (fun k' => exists sock' c,
            sockets s !! k' = Some sock' /\ connection sock' = Some c) ks ->
  let c := length (conn_store s) in
  let new := mkConnection k (snowflake_generate (generated s))
               VUndefined VUndefined None None in
  exists s1 s2 s3 s4 x,
    on_authenticate k data s = Ok tt s1 [SocketSend k buf] /\
    ping s1 = Ok tt s2 (ping_effects s1 (all_connections s1)) /\
    run (EPong <$> ks) s2 = Ok tt s3 [] /\
    ping s3 = Ok tt s4 (ping_effects s3 (all_connections s3)) /\
    all_connections s1 = all_connections s ++ [c] /\
    all_connections s3 = all_connections s1 /\
    Forall (fun c' => is_Some (conn_store s1 !! c')) (all_connections s1) /\
    Forall (fun c' => is_Some (conn_store s3 !! c')) (all_connections s3) /\
    conn_store s1 !! c = Some new /\
    sockets s2 !! k = Some (mkSocket (sock_code sock) false (Some c)) /\
    sockets s3 = sockets s2 /\
    conn_store s3 !! c
    = Some (if answered s2 ks c then set_isAlive true (set_isAlive false new)
            else set_isAlive false new) /\
    socket x = k /\
    conn_store s3 !! old = Some (set_isAlive false x).
Proof.
  intros Hrun Hk Hold Hreg Hbuf Hks c new.
  pose proof (run_wf es s fx Hrun) as Hwf.
  pose proof (owner_run es s fx Hrun) as Hown.
  destruct (Hown k sock old Hk Hold) as (x & Hx & Hsock).
  pose proof (on_authenticate_run s k sock data buf Hk Hbuf) as Hrun1.
  set (s1 := mkServer _ _ _ _ _ _ _) in Hrun1.
  pose proof (preserves_on_authenticate k data s tt s1 _ Hwf Hrun1) as Hwf1.
  assert (Hx1 : conn_store s1 !! old = Some x) by (cbn; now apply lookup_app_l_Some).
  assert (Hnew1 : conn_store s1 !! c = Some new) by (cbn; now apply list_lookup_middle).
  assert (Hreg1 : old ∈ all_connections s1).
  { cbn. rewrite elem_of_app. now left. }
  assert (Hnew : c ∈ all_connections s1).
  { cbn. rewrite elem_of_app. right. constructor. }
  assert (Hfree : forall k' sock', sockets s1 !! k' = Some sock' ->
                                   connection sock' <> Some old).
  { intros k' sock' Hk' Hc'. cbn in Hk'. destruct (decide (k' = k)) as [->|Hne].
    - rewrite list_lookup_alter_eq, Hk in Hk'. injection Hk' as <-. cbn in Hc'.
      injection Hc' as Hlen. apply lookup_lt_Some in Hx. lia.
    - rewrite list_lookup_alter_ne in Hk' by congruence.
      destruct (Hown k' sock' old Hk' Hc') as (x' & Hx' & Hsock').
      congruence. }
  destruct (ping_run s1 (wf_nodup s1 Hwf1) (wf_registry_valid s1 Hwf1))
    as (s2 & Hrun2 & Hstore2 & Hall2 & Hsock2).
  destruct (pongs_run ks s2) as (s3 & Hrun3 & Hstore3 & Hall3 & Hsock3).
  { rewrite Hsock2. eapply Forall_impl; [exact Hks|]. cbn.
    intros k' (sock' & c' & Hk' & Hc'). destruct (decide (k' = k)) as [->|Hne].
    - rewrite list_lookup_alter_eq, Hk'. cbn. eauto.
    - rewrite list_lookup_alter_ne by congruence. eauto. }
  assert (Hquiet : answered s2 ks old = false).
  { unfold answered. apply not_true_is_false. intros (k' & _ & Hk')%existsb_exists.
    rewrite Hsock2 in Hk'. destruct (sockets s1 !! k') as [sock'|] eqn:Hs'; [|discriminate].
    apply bool_decide_eq_true_1 in Hk'. exact (Hfree k' sock' Hs' Hk'). }
  assert (Hx3 : conn_store s3 !! old = Some (set_isAlive false x)).
  { rewrite Hstore3, Hquiet, Hstore2, bool_decide_eq_true_2 by exact Hreg1.
    now rewrite Hx1. }
  assert (Hnew3 : conn_store s3 !! c
                  = Some (if answered s2 ks c then set_isAlive true (set_isAlive false new)
                          else set_isAlive false new)).
  { rewrite Hstore3, Hstore2, bool_decide_eq_true_2 by exact Hnew.
    rewrite Hnew1. now destruct (answered s2 ks c). }
  assert (Hvalid3 : Forall (fun c' => is_Some (conn_store s3 !! c')) (all_connections s3)).
  { rewrite Hall3, Hall2. eapply Forall_impl; [exact (wf_registry_valid s1 Hwf1)|].
    intros c' [x' Hx']. rewrite Hstore3, Hstore2, Hx'.
    destruct (answered s2 ks c'), (bool_decide (c' ∈ all_connections s1)); now eexists. }
  destruct (ping_run s3) as (s4 & Hrun4 & _); [|exact Hvalid3|].
  { rewrite Hall3, Hall2. exact (wf_nodup s1 Hwf1). }
  exists s1, s2, s3, s4, x.
  split; [exact Hrun1|]. split; [exact Hrun2|]. split; [exact Hrun3|].
  split; [exact Hrun4|]. split; [reflexivity|]. split; [congruence|].
  split; [exact (wf_registry_valid s1 Hwf1)|]. split; [exact Hvalid3|].
  split; [exact Hnew1|]. split.
  { rewrite Hsock2. cbn. now rewrite list_lookup_alter_eq, Hk. }
  split; [exact Hsock3|]. split; [exact Hnew3|]. split; [exact Hsock|exact Hx3].
Qed.

(** X25: a second Authentication costs the client its socket.  In a state
    that a run reaches, take a socket whose connection is still in the
    registry, and let the socket authenticate again.  The connection it
    had stays in the registry with the socket it was created for, and no
    socket refers to it any more, so no pong reaches it: whatever pongs
    come from authenticated sockets after the next sweep, this one
    included, the sweep after that terminates the socket. *)
Theorem second_authentication_is_fatal (es : list event) (s : Server) (fx : list effect)
    (k : nat) (sock : Socket) (old : nat) (data : value) (buf : list byte)
    (ks : list nat) :
  run es initial = Ok tt s fx ->
  sockets s !! k = Some sock ->
  connection sock = Some old ->
  old ∈ all_connections s ->
  send_buf (Events_code Authentication)
    [VObj [("id"%string, VStr (snowflake_generate (generated s)))]] = inr buf ->
  Forall (fun k' => exists sock' c,
            sockets s !! k' = Some sock' /\ connection sock' = Some c) ks ->
  exists s1 s2 fx2 s3 s4 fx4,
    on_authenticate k data s = Ok tt s1 [SocketSend k buf] /\
    ping s1 = Ok tt s2 fx2 /\
    run (EPong <$> ks) s2 = Ok tt s3 [] /\
    ping s3 = Ok tt s4 fx4 /\
    SocketTerminate k ∈ fx4.
Proof.
  intros Hrun Hk Hold Hreg Hbuf Hks.
  destruct (reauthenticated_sweeps es s fx k sock old data buf ks Hrun Hk Hold Hreg Hbuf Hks)
    as (s1 & s2 & s3 & s4 & x & Hrun1 & Hrun2 & Hrun3 & Hrun4 & Hall1 & Hall3 & _ & _
        & _ & _ & _ & _ & Hsock & Hx3).
  exists s1, s2, (ping_effects s1 (all_connections s1)), s3, s4,
    (ping_effects s3 (all_connections s3)).
  split; [exact Hrun1|]. split; [exact Hrun2|]. split; [exact Hrun3|].
  split; [exact Hrun4|].
  apply ping_effects_terminate. exists old, (set_isAlive false x).
  split; [rewrite Hall3, Hall1, elem_of_app; now left|]. split; [exact Hx3|]. now split.
Qed.

(** C9: a pong between two sweeps does not keep the second sweep from
    terminating the socket.  In a state that a run reaches, a socket whose
    connection is in the registry authenticates again; then come a sweep,
    pongs from authenticated sockets, this one among them, and the next
    sweep.  The connection of the socket is in the registry, the first
    sweep probes it, the pong sets its [isAlive] flag to [true], and the
    second sweep probes it again; the same sweep terminates the socket,
    on account of the connection the socket had before, which is still
    in the registry and which no pong reaches. *)
Theorem pong_does_not_save_socket (es : list event) (s : Server) (fx : list effect)
    (k : nat) (sock : Socket) (old : nat) (data : value) (buf : list byte)
    (ks : list nat) :
  run es initial = Ok tt s fx ->
  sockets s !! k = Some sock ->
  connection sock = Some old ->
  old ∈ all_connections s ->
  send_buf (Events_code Authentication)
    [VObj [("id"%string, VStr (snowflake_generate (generated s)))]] = inr buf ->
  Forall (fun k' => exists sock' c,
            sockets s !! k' = Some sock' /\ connection sock' = Some c) ks ->
  k ∈ ks ->
  exists s1 s2 fx2 s3 s4 fx4 sock3 c x i,
    on_authenticate k data s = Ok tt s1 [SocketSend k buf] /\
    ping s1 = Ok tt s2 fx2 /\
    run (EPong <$> ks) s2 = Ok tt s3 [] /\
    ping s3 = Ok tt s4 fx4 /\
    sockets s3 !! k = Some sock3 /\
    connection sock3 = Some c /\
    all_connections s3 !! i = Some c /\
    conn_store s3 !! c = Some x /\
    socket x = k /\
    isAlive x = Some true /\
    fx2 !! i = Some (SocketPing k) /\
    fx4 !! i = Some (SocketPing k) /\
    SocketTerminate k ∈ fx4.
Proof.
  intros Hrun Hk Hold Hreg Hbuf Hks Hin.
  destruct (reauthenticated_sweeps es s fx k sock old data buf ks Hrun Hk Hold Hreg Hbuf Hks)
    as (s1 & s2 & s3 & s4 & x & Hrun1 & Hrun2 & Hrun3 & Hrun4 & Hall1 & Hall3 & Hvalid1
        & Hvalid3 & Hnew1 & Hsock2 & Hsock3 & Hnew3 & Hsock & Hx3).
  set (c := length (conn_store s)) in *.
  set (new := mkConnection k _ VUndefined VUndefined None None) in *.
  assert (Hanswered : answered s2 ks c = true).
  { unfold answered. apply existsb_exists. exists k.
    split; [now apply list_elem_of_In|]. rewrite Hsock2.
    now apply bool_decide_eq_true_2. }
  rewrite Hanswered in Hnew3.
  assert (Hi1 : all_connections s1 !! length (all_connections s) = Some c).
  { rewrite Hall1. now apply list_lookup_middle. }
  exists s1, s2, (ping_effects s1 (all_connections s1)), s3, s4,
    (ping_effects s3 (all_connections s3)),
    (mkSocket (sock_code sock) false (Some c)), c,
    (set_isAlive true (set_isAlive false new)), (length (all_connections s)).
  split; [exact Hrun1|]. split; [exact Hrun2|]. split; [exact Hrun3|].
  split; [exact Hrun4|]. split; [now rewrite Hsock3|]. split; [reflexivity|].
  split; [now rewrite Hall3|]. split; [exact Hnew3|]. split; [reflexivity|].
  split; [reflexivity|].
  split; [exact (ping_effects_lookup s1 _ _ c new Hvalid1 Hi1 Hnew1)|].
  split.
  { rewrite (ping_effects_lookup s3 _ (length (all_connections s)) c
               (set_isAlive true (set_isAlive false new)) Hvalid3);
      [reflexivity|now rewrite Hall3|exact Hnew3]. }
  apply ping_effects_terminate. exists old, (set_isAlive false x).
  split; [rewrite Hall3, Hall1, elem_of_app; now left|]. split; [exact Hx3|]. now split.
Qed.

End Orphans.

(** ** How the handlers end *)

Lemma after_range_or_ok {A} (fx : list effect) (o : outcome A) :
  range_or_ok o -> range_or_ok (after fx o).
Proof. now destruct o. Qed.

Section Outcomes.

Context `{Platform}.

Lemma send_buf_error (ev : Z) (data : list value) (e : js_error) :
  send_buf ev data = inl e -> e = RangeError.
Proof.
  unfold send_buf.
  destruct (negb _); [congruence|]. destruct (negb _); [congruence|discriminate].
Qed.

Lemma Connection_send_outcome (s : Server) (c : nat) (x : Connection) (ev : Events)
    (data : list value) :
  conn_store s !! c = Some x -> range_or_ok (Connection_send c ev data s).
Proof.
  intros Hc. unfold Connection_send.
  rewrite (mbind_pure _ _ s x (the_connection_run _ _ _ Hc)).
  destruct (send_buf _ _) as [e|buf] eqn:Hbuf; [|exact I].
  exact (send_buf_error _ _ _ Hbuf).
Qed.

(** A broadcast returns in the state it started from, or throws the
    RangeError of its frame. *)
Lemma Room_broadcast_outcome (s : Server) (r : nat) (rm : Room) (test : Connection -> bool)
    (ev : Events) (args : list value) :
  room_store s !! r = Some rm ->
  Forall (fun c => is_Some (conn_store s !! c)) (connections rm) ->
  (exists fx, Room_broadcast r test ev args s = Ok tt s fx) \/
  (exists fx, Room_broadcast r test ev args s = Throw RangeError s fx).
Proof.
  intros Hr Hrefs. rewrite (Room_broadcast_run s r rm test ev args Hr Hrefs). cbn zeta.
  destruct (send_buf _ _) as [e|buf] eqn:Hbuf; [|left; eauto].
  rewrite (send_buf_error _ _ _ Hbuf). destruct (List.filter _ _); [left|right]; eauto.
Qed.

Lemma Connection_join_outcome (s : Server) (c r : nat) (this : Connection) (rm : Room)
    (pid : value) :
  conn_store s !! c = Some this ->
  room_store s !! r = Some rm ->
  Forall (fun c => is_Some (conn_store s !! c)) (connections rm) ->
  range_or_ok (Connection_join c r pid s).
Proof.
  intros Hc Hr Hrefs.
  unfold Connection_join, update_connection, Room_add, update_room.
  rewrite !modify_bind. cbn [rooms all_connections connectionCount room_store
                             conn_store sockets generated].
  rewrite list_alter_alter_eq. unfold compose.
  set (s' := mkServer _ _ _ _ _ _ _).
  assert (Hc' : conn_store s' !! c = Some (set_playerId pid (set_room (Some r) this))).
  { cbn. now rewrite list_lookup_alter_eq, Hc. }
  assert (Hr' : room_store s' !! r = Some (mkRoom (code rm) (connections rm ++ [c]))).
  { cbn. now rewrite list_lookup_alter_eq, Hr. }
  assert (Hrefs' : Forall (fun x => is_Some (conn_store s' !! x)) (connections rm ++ [c])).
  { apply Forall_app. split; [now apply alter_is_Some|].
    constructor; [now rewrite Hc'|constructor]. }
  rewrite (mbind_pure _ _ s' _ (the_connection_run _ _ _ Hc')).
  rewrite mbind_run.
  destruct (Room_broadcast_outcome s' r _
              (fun x => negb (String.eqb (id x)
                                (id (set_playerId pid (set_room (Some r) this)))))
              Join [VStr (id (set_playerId pid (set_room (Some r) this)));
                    playerId (set_playerId pid (set_room (Some r) this))] Hr' Hrefs')
    as [[fx ->]|[fx ->]]; [|reflexivity].
  apply after_range_or_ok.
  rewrite (mbind_pure _ _ s' _ (Room_clients_run s' r _ _ Hr' Hrefs')).
  exact (Connection_send_outcome s' c _ _ _ Hc').
Qed.

Lemma on_authenticate_outcome (s : Server) (k : nat) (sock : Socket) (data : value) :
  sockets s !! k = Some sock -> range_or_ok (on_authenticate k data s).
Proof.
  intros Hk. unfold on_authenticate.
  rewrite (mbind_pure _ _ s sock (the_socket_run _ _ _ Hk)).
  rewrite get_bind, modify_bind.
  apply Connection_send_outcome
    with (x := mkConnection k (snowflake_generate (generated s))
                 VUndefined VUndefined None None).
  cbn. now apply list_lookup_middle.
Qed.

Lemma on_join_outcome (s : Server) (k : nat) (sock : Socket) (c : string)
    (pid cid : value) :
  wf s -> rooms_ok s -> sockets s !! k = Some sock ->
  range_or_ok (on_join k c pid cid s).
Proof.
  intros Hwf Hrooms Hk. unfold on_join.
  rewrite (mbind_pure _ _ s sock (the_socket_run _ _ _ Hk)).
  destruct (connection sock) as [conn|] eqn:Hconn; [|exact I].
  assert (Hvalid : is_Some (conn_store s !! conn)).
  { apply lookup_lt_is_Some.
    exact (Forall_lookup_1 _ _ _ _ (wf_sockets s Hwf) Hk conn Hconn). }
  destruct Hvalid as [this Hthis].
  unfold update_socket. rewrite modify_bind.
  set (s1 := mkServer _ _ _ _ _ _ _).
  rewrite get_bind. change (rooms s1) with (rooms s).
  destruct (rooms s !! c) as [r|] eqn:Hc.
  - destruct (registered_room s Hrooms _ _ Hc) as (rm & Hr & _).
    pose proof (wf_members_valid _ _ _ Hwf Hr) as Hrefs.
    rewrite mret_bind.
    rewrite (mbind_pure _ _ s1 _ (Room_filter_members s1 r rm _ Hr Hrefs)).
    destruct (spoofs cid _); [exact I|].
    exact (Connection_join_outcome s1 conn r this rm pid Hthis Hr Hrefs).
  - rewrite mbind_assoc, modify_bind, mret_bind.
    set (s2 := mkServer _ _ _ _ _ _ _). set (r := length (room_store s1)).
    assert (Hr : room_store s2 !! r = Some (mkRoom c [])).
    { cbn. apply list_lookup_middle. reflexivity. }
    assert (Hrefs : Forall (fun x => is_Some (conn_store s2 !! x))
                      (connections (mkRoom c []))) by constructor.
    rewrite (mbind_pure _ _ s2 _ (Room_filter_members s2 r _ _ Hr Hrefs)).
    cbn [connections members_of omap list_omap List.filter spoofs existsb].
    exact (Connection_join_outcome s2 conn r this _ pid Hthis Hr Hrefs).
Qed.

Lemma on_leave_outcome (s : Server) (k : nat) (sock : Socket) :
  wf s -> rooms_ok s -> sockets s !! k = Some sock ->
  exists s' fx, on_leave k s = Ok tt s' fx.
Proof.
  intros Hwf Hrooms Hk. unfold on_leave.
  rewrite (mbind_pure _ _ s sock (the_socket_run _ _ _ Hk)).
  destruct (connection sock) as [conn|] eqn:Hconn; [|eexists _, _; reflexivity].
  assert (Hvalid : is_Some (conn_store s !! conn)).
  { apply lookup_lt_is_Some.
    exact (Forall_lookup_1 _ _ _ _ (wf_sockets s Hwf) Hk conn Hconn). }
  destruct Hvalid as [this Hthis].
  rewrite (mbind_pure _ _ s this (the_connection_run _ _ _ Hthis)).
  destruct (room this) as [r|] eqn:Hroom; [|eexists _, _; reflexivity].
  destruct (back_reference s Hrooms _ _ _ Hthis Hroom) as (rm & Hr & _).
  rewrite (leave_steps_run s conn this r rm Hthis Hroom Hr). eauto.
Qed.

Lemma on_client_outcome (s : Server) (k : nat) (sock : Socket) (pid cid : value) :
  wf s -> rooms_ok s -> sockets s !! k = Some sock ->
  range_or_ok (on_client k pid cid s).
Proof.
  intros Hwf Hrooms Hk. unfold on_client.
  rewrite (mbind_pure _ _ s sock (the_socket_run _ _ _ Hk)).
  destruct (connection sock) as [conn|] eqn:Hconn; [|exact I].
  assert (Hvalid : is_Some (conn_store s !! conn)).
  { apply lookup_lt_is_Some.
    exact (Forall_lookup_1 _ _ _ _ (wf_sockets s Hwf) Hk conn Hconn). }
  destruct Hvalid as [this Hthis].
  rewrite (mbind_pure _ _ s this (the_connection_run _ _ _ Hthis)).
  destruct (_ && _); [exact I|].
  unfold Connection_setId, update_connection. rewrite !modify_bind.
  cbn [rooms all_connections connectionCount room_store conn_store sockets generated].
  rewrite list_alter_alter_eq. unfold compose.
  set (s' := mkServer _ _ _ _ _ _ _).
  assert (Hc' : conn_store s' !! conn = Some (set_clientId cid (set_playerId pid this))).
  { cbn. now rewrite list_lookup_alter_eq, Hthis. }
  rewrite (mbind_pure _ _ s' _ (the_connection_run _ _ _ Hc')).
  cbn [room set_clientId set_playerId].
  destruct (room this) as [r|] eqn:Hroom; [|exact I].
  destruct (back_reference s Hrooms _ _ _ Hthis Hroom) as (rm & Hr & _).
  assert (Hrefs : Forall (fun x => is_Some (conn_store s' !! x)) (connections rm)).
  { apply alter_is_Some. now apply wf_members_valid with (r := r). }
  destruct (Room_broadcast_outcome s' r rm
              (fun x => negb (String.eqb (id x)
                                (id (set_clientId cid (set_playerId pid this)))))
              SetClient
              [VObj [("id"%string, playerId (set_clientId cid (set_playerId pid this)));
                     ("clientId"%string,
                      clientId (set_clientId cid (set_playerId pid this)))]]
              Hr Hrefs)
    as [[fx Hrun]|[fx Hrun]]; cbn in Hrun |- *; now rewrite Hrun.
Qed.

Lemma on_signal_outcome (s : Server) (k : nat) (sock : Socket) (peer : string)
    (data : value) :
  wf s -> rooms_ok s -> sockets s !! k = Some sock ->
  if roomless s k
  then on_signal k peer data s = Throw TypeError s []
  else range_or_ok (on_signal k peer data s).
Proof.
  intros Hwf Hrooms Hk. unfold roomless. rewrite Hk.
  destruct (connection sock) as [conn|] eqn:Hconn.
  2: { unfold on_signal.
       now rewrite (mbind_pure _ _ s sock (the_socket_run _ _ _ Hk)), Hconn. }
  assert (Hvalid : is_Some (conn_store s !! conn)).
  { apply lookup_lt_is_Some.
    exact (Forall_lookup_1 _ _ _ _ (wf_sockets s Hwf) Hk conn Hconn). }
  destruct Hvalid as [this Hthis]. rewrite Hthis.
  destruct (room this) as [r|] eqn:Hroom.
  - rewrite bool_decide_eq_false_2 by discriminate.
    destruct (back_reference s Hrooms _ _ _ Hthis Hroom) as (rm & Hr & _).
    rewrite (on_signal_run s k sock conn this r rm peer data Hk Hconn Hthis Hroom Hr
               (wf_members_valid _ _ _ Hwf Hr)).
    destruct (List.find _ _); [|exact I].
    destruct (send_buf _ _) as [e|buf] eqn:Hbuf; [|exact I].
    exact (send_buf_error _ _ _ Hbuf).
  - rewrite bool_decide_eq_true_2 by reflexivity. unfold on_signal.
    rewrite (mbind_pure _ _ s sock (the_socket_run _ _ _ Hk)), Hconn.
    now rewrite (mbind_pure _ _ s this (the_connection_run _ _ _ Hthis)), Hroom.
Qed.

Lemma on_close_outcome (s : Server) (k : nat) (sock : Socket) :
  wf s -> rooms_ok s -> sockets s !! k = Some sock ->
  if roomless s k
  then exists s', on_close k s = Throw TypeError s' []
  else exists s' fx, on_close k s = Ok tt s' fx.
Proof.
  intros Hwf Hrooms Hk. unfold roomless. rewrite Hk.
  unfold on_close, update_connectionCount. rewrite modify_bind.
  set (s0 := mkServer _ _ _ _ _ _ _).
  rewrite (mbind_pure _ _ s0 sock (the_socket_run k s0 _ Hk)).
  destruct (connection sock) as [conn|] eqn:Hconn; [|eexists _, _; reflexivity].
  assert (Hvalid : is_Some (conn_store s !! conn)).
  { apply lookup_lt_is_Some.
    exact (Forall_lookup_1 _ _ _ _ (wf_sockets s Hwf) Hk conn Hconn). }
  destruct Hvalid as [this Hthis]. rewrite Hthis.
  rewrite (mbind_pure _ _ s0 this (the_connection_run conn s0 _ Hthis)).
  destruct (room this) as [r|] eqn:Hroom.
  - rewrite bool_decide_eq_false_2 by discriminate.
    destruct (back_reference s Hrooms _ _ _ Hthis Hroom) as (rm & Hr & _).
    cbn [from_option]. rewrite <- mbind_assoc.
    rewrite (mbind_Ok _ _ s0 _ _ _ (leave_steps_run s0 conn this r rm Hthis Hroom Hr)).
    eexists _, _. reflexivity.
  - rewrite bool_decide_eq_true_2 by reflexivity.
    unfold Connection_leave. rewrite mbind_run.
    rewrite (mbind_pure _ _ s0 this (the_connection_run conn s0 _ Hthis)), Hroom.
    eexists. reflexivity.
Qed.

Lemma on_pong_outcome (s : Server) (k : nat) (sock : Socket) :
  sockets s !! k = Some sock ->
  if unauthenticated s k
  then on_pong k s = Throw TypeError s []
  else exists s' fx, on_pong k s = Ok tt s' fx.
Proof.
  intros Hk. unfold unauthenticated. rewrite Hk. unfold on_pong.
  rewrite (mbind_pure _ _ s sock (the_socket_run _ _ _ Hk)).
  destruct (connection sock) as [conn|].
  - rewrite bool_decide_eq_false_2 by discriminate. eexists _, _. reflexivity.
  - now rewrite bool_decide_eq_true_2 by reflexivity.
Qed.

(** X24: how the handlers of the local events end, in every state a run
    reaches and for every event on a socket that is open.  No handler
    follows a reference to a connection or a room that is not allocated.
    A TypeError is thrown in three cases and no other: a Signal and a
    close on a socket whose connection is in no room, and a pong on a
    socket that has not authenticated; nothing has been sent when it is
    thrown.  Every other exception is the RangeError of a frame that
    cannot be built. *)
Theorem local_events_end (es : list event) (s : Server) (fx : list effect) (e : event) :
  run es initial = Ok tt s fx ->
  (forall k, socket_of e = Some k -> is_Some (sockets s !! k)) ->
  is_message e = false ->
  match handle e s with
  | Ok _ _ _ => type_error s e = false
  | Throw err _ sent =>
      if type_error s e then err = TypeError /\ sent = [] else err = RangeError
  | Unmodelled => False
  end.
Proof.
  intros Hrun Hopen Hlocal.
  pose proof (run_wf es s fx Hrun) as Hwf.
  pose proof (rooms_run es s fx Hrun) as Hrooms.
  assert (Hrange : forall o : outcome unit,
            range_or_ok o ->
            match o with
            | Ok _ _ _ => false = false
            | Throw err _ sent => err = RangeError
            | Unmodelled => False
            end).
  { intros [] Ho; auto. }
  destruct e; try discriminate; cbn [handle type_error];
    try (destruct (Hopen k eq_refl) as [sock Hk]).
  - reflexivity.
  - unfold on_connectTimeout.
    rewrite (mbind_pure _ _ s sock (the_socket_run _ _ _ Hk)).
    now destruct (connectTimeout sock).
  - apply Hrange. now apply on_authenticate_outcome with (sock := sock).
  - apply Hrange. now apply on_join_outcome with (sock := sock).
  - destruct (on_leave_outcome s k sock Hwf Hrooms Hk) as (s' & fx' & ->). reflexivity.
  - apply Hrange. now apply on_client_outcome with (sock := sock).
  - pose proof (on_signal_outcome s k sock peer data Hwf Hrooms Hk) as Hout.
    destruct (roomless s k); [now rewrite Hout|now apply Hrange].
  - pose proof (on_close_outcome s k sock Hwf Hrooms Hk) as Hout.
    destruct (roomless s k).
    + destruct Hout as (s' & ->). now split.
    + destruct Hout as (s' & fx' & ->). reflexivity.
  - pose proof (on_pong_outcome s k sock Hk) as Hout.
    destruct (unauthenticated s k).
    + rewrite Hout. now split.
    + destruct Hout as (s' & fx' & ->). reflexivity.
  - destruct (ping_run s (wf_nodup s Hwf) (wf_registry_valid s Hwf)) as (s' & -> & _).
    reflexivity.
Qed.

End Outcomes.

(** ** Admission *)

Lemma string_app_cons (c : ascii) (s1 s2 : string) :
  (String c s1 ++ s2)%string = String c (s1 ++ s2)%string.
Proof. reflexivity. Qed.

Lemma string_app_nil (s : string) : (EmptyString ++ s)%string = s.
Proof. reflexivity. Qed.

Lemma string_app_assoc (s1 s2 s3 : string) :
  ((s1 ++ s2) ++ s3)%string = (s1 ++ (s2 ++ s3))%string.
Proof.
  induction s1 as [|c s1 IH]; [reflexivity|].
  rewrite !string_app_cons. now rewrite IH.
Qed.

Lemma literal_spec (lit s rest : string) :
  literal lit s = Some rest <-> s = (lit ++ rest)%string.
Proof.
  revert s. induction lit as [|c lit IH]; intros s; cbn [literal].
  - split; [now intros [= ->]|now intros ->].
  - rewrite string_app_cons. destruct s as [|d s]; [split; discriminate|].
    destruct (Ascii.eqb_spec c d) as [->|Hne].
    + rewrite IH. split; [now intros ->|now intros [= ->]].
    + split; [discriminate|]. intros [= ? _]. congruence.
Qed.

Lemma span_spec (p : ascii -> bool) (s run rest : string) :
  span p s = (run, rest) <->
  s = (run ++ rest)%string /\
  forallb p (list_ascii_of_string run) = true /\
  match rest with String c _ => p c = false | EmptyString => True end.
Proof.
  revert run. induction s as [|c s IH]; intros run; cbn [span].
  - split.
    + intros [= <- <-]. now repeat split.
    + intros (Hs & _ & _). destruct run; [|discriminate]. rewrite string_app_nil in Hs. now subst.
  - destruct (p c) eqn:Hc.
    + destruct (span p s) as [run' rest'] eqn:Hspan. split.
      * intros [= <- <-]. destruct (proj1 (IH run') eq_refl) as (-> & Hall & Hstop).
        rewrite string_app_cons. cbn. now rewrite Hc, Hall.
      * intros (Hs & Hall & Hstop). destruct run as [|d run].
        { rewrite string_app_nil in Hs. subst rest. congruence. }
        rewrite string_app_cons in Hs. injection Hs as <- ->.
        cbn in Hall. rewrite Hc in Hall. cbn in Hall.
        assert (Hrun : (run', rest') = (run, rest)).
        { apply IH. now repeat split. }
        now injection Hrun as -> ->.
    + split.
      * intros [= <- <-]. now repeat split.
      * intros (Hs & Hall & Hstop). destruct run as [|d run].
        { rewrite string_app_nil in Hs. now subst rest. }
        rewrite string_app_cons in Hs. injection Hs as <- ->.
        cbn in Hall. now rewrite Hc in Hall.
Qed.

Lemma plus_spec (p : ascii -> bool) (s run rest : string) :
  plus p s = Some (run, rest) <->
  s = (run ++ rest)%string /\ run <> EmptyString /\
  forallb p (list_ascii_of_string run) = true /\
  match rest with String c _ => p c = false | EmptyString => True end.
Proof.
  unfold plus. destruct (span p s) as [run' rest'] eqn:Hspan.
  apply span_spec in Hspan as (Hs & Hall & Hstop). split.
  - destruct run' as [|c run']; [discriminate|]. intros [= <- <-].
    split; [exact Hs|]. split; [discriminate|]. now split.
  - intros (Hs' & Hne & Hall' & Hstop').
    assert (Hrun : (run', rest') = (run, rest)).
    { transitivity (span p s); [symmetry|]; apply span_spec; now repeat split. }
    injection Hrun as -> ->. destruct run; [contradiction|reflexivity].
Qed.

(** X23: admission.  The upgrade handler hands the socket to the
    ['connection'] handler exactly when the user agent is
    [CrewLink/1.2.0 (<platform>)] with a platform of one or more letters,
    digits and underscores; every other request, one without the header
    included, has its socket closed with code 4000 and the text that
    lists the supported version. *)
Theorem upgrade_admits_supported (userAgent : option string) :
  (on_upgrade userAgent = EmitConnection <->
   exists platform,
     userAgent = Some ("CrewLink/1.2.0 (" ++ platform ++ ")")%string /\
     platform <> EmptyString /\
     forallb regex_word (list_ascii_of_string platform) = true) /\
  (on_upgrade userAgent = EmitConnection \/
   on_upgrade userAgent
   = CloseSocket 4000
       ("The voice server does not support your version of CrewLink."
        ++ String "010" "Supported versions: 1.2.0")).
Proof.
  split.
  2: { unfold on_upgrade. destruct (user_agent_exec _) as [[version platform]|]; [|now right].
       destruct (existsb _ _); [now left|now right]. }
  split.
  - destruct userAgent as [ua|]; [|intros Hnone; vm_compute in Hnone; discriminate].
    unfold on_upgrade. change (default "undefined"%string (Some ua)) with ua.
    destruct (user_agent_exec _) as [[version platform]|] eqn:Hexec; [|discriminate].
    destruct (existsb _ _) eqn:Hv; [|discriminate]. intros _.
    cbn in Hv. rewrite orb_false_r in Hv. apply String.eqb_eq in Hv. subst version.
    unfold user_agent_exec in Hexec.
    destruct (literal "CrewLink/" _) as [s1|] eqn:H1; [|discriminate].
    cbn [mbind option_bind] in Hexec.
    destruct (plus regex_digit s1) as [[major s2]|] eqn:H2; [|discriminate].
    cbn [mbind option_bind] in Hexec.
    destruct (literal "." s2) as [s3|] eqn:H3; [|discriminate].
    cbn [mbind option_bind] in Hexec.
    destruct (plus regex_digit s3) as [[minor s4]|] eqn:H4; [|discriminate].
    cbn [mbind option_bind] in Hexec.
    destruct (literal "." s4) as [s5|] eqn:H5; [|discriminate].
    cbn [mbind option_bind] in Hexec.
    destruct (plus regex_digit s5) as [[patch s6]|] eqn:H6; [|discriminate].
    cbn [mbind option_bind] in Hexec.
    destruct (literal " (" s6) as [s7|] eqn:H7; [|discriminate].
    cbn [mbind option_bind] in Hexec.
    destruct (plus regex_word s7) as [[platform' s8]|] eqn:H8; [|discriminate].
    cbn [mbind option_bind] in Hexec.
    destruct (literal ")" s8) as [s9|] eqn:H9; [|discriminate].
    cbn [mbind option_bind] in Hexec.
    destruct s9; [|discriminate]. injection Hexec as Hversion ->.
    apply literal_spec in H1, H3, H5, H7, H9.
    apply plus_spec in H2 as (-> & _), H4 as (-> & _), H6 as (-> & _),
      H8 as (-> & Hne & Hword & _).
    subst s2 s4 s6 s8.
    exists platform. split; [|now split].
    subst ua. f_equal.
    change ("CrewLink/1.2.0 (" ++ platform ++ ")")%string
      with ("CrewLink/" ++ ("1.2.0" ++ (" (" ++ (platform ++ ")"))))%string.
    rewrite <- Hversion. rewrite !string_app_assoc. reflexivity.
  - intros (platform & -> & Hne & Hword). unfold on_upgrade.
    change (default "undefined"%string (Some ?ua)) with ua.
    assert (Hexec : user_agent_exec ("CrewLink/1.2.0 (" ++ platform ++ ")")
                    = Some ("1.2.0"%string, platform)).
    { change ("CrewLink/1.2.0 (" ++ platform ++ ")")%string
        with ("CrewLink/" ++ ("1" ++ ("." ++ ("2" ++ ("." ++ ("0" ++ (" ("
                ++ (platform ++ (")" ++ EmptyString)))))))))%string.
      assert (Hlit : forall lit rest, literal lit (lit ++ rest) = Some rest).
      { intros lit rest. now apply literal_spec. }
      assert (Hplus : forall p run rest,
                run <> EmptyString ->
                forallb p (list_ascii_of_string run) = true ->
                match rest with String c _ => p c = false | EmptyString => True end ->
                plus p (run ++ rest) = Some (run, rest)).
      { intros p run rest Hrun Hall Hstop. now apply plus_spec. }
      unfold user_agent_exec.
      rewrite Hlit. cbn [mbind option_bind].
      rewrite (Hplus regex_digit "1"%string) by (try discriminate; reflexivity).
      cbn [mbind option_bind].
      rewrite Hlit. cbn [mbind option_bind].
      rewrite (Hplus regex_digit "2"%string) by (try discriminate; reflexivity).
      cbn [mbind option_bind].
      rewrite Hlit. cbn [mbind option_bind].
      rewrite (Hplus regex_digit "0"%string) by (try discriminate; reflexivity).
      cbn [mbind option_bind].
      rewrite Hlit. cbn [mbind option_bind].
      rewrite (Hplus regex_word platform) by (try assumption; reflexivity).
      cbn [mbind option_bind].
      rewrite Hlit. reflexivity. }
    rewrite Hexec. reflexivity.
Qed.

(** ** The scenarios of the rest of the engine *)

Section EngineExamples.

#[local] Existing Instance Reference.platform.

Lemma party_wf : wf party.
Proof. eapply (run_wf party_events). vm_compute. reflexivity. Qed.

Lemma broadcast_reaches_filtered_witness :
  Room_broadcast 0 (other_than "1") SetClient [VObj [("id"%string, VNum 7)]] party
  = Ok tt party [SocketSend 1 (byte_of_Z 3 :: writeUInt16BE 8
                                 ++ JSON_stringify (VObj [("id"%string, VNum 7)]))].
Proof.
  rewrite (broadcast_reaches_filtered party 0 (mkRoom "ABCD" [0%nat; 1%nat])).
  - vm_compute. reflexivity.
  - apply party_wf.
  - reflexivity.
Defined.

Lemma remove_takes_first_occurrence_witness :
  exists s',
    Room_remove 0 0 party = Ok tt s' [] /\
    room_store s' !! 0%nat = Some (mkRoom "ABCD" [1%nat]).
Proof.
  destruct (remove_takes_first_occurrence party 0 0 (mkRoom "ABCD" [0%nat; 1%nat]))
    as (s' & rest & Hrun & Hroom & _ & Hrest & _).
  - reflexivity.
  - exists s'. split; [exact Hrun|].
    now rewrite Hroom, (Hrest [] [1%nat] eq_refl (not_elem_of_nil _)).
Defined.

Lemma crossed_wf : wf crossed.
Proof. eapply (run_wf crossed_events). vm_compute. reflexivity. Qed.

Lemma clients_snapshot_witness :
  exists props,
    Room_clients 0 (other_than "3") crossed = Ok (VObj props) crossed [] /\
    props = [("1"%string, VObj [("id"%string, VNum 1); ("clientId"%string, VNum 100)]);
             ("2"%string, VObj [("id"%string, VNum 2); ("clientId"%string, VNum 200)])] /\
    js_ordered props.*1 = true /\
    (fun m => id m.2) <$> listed (other_than "3") (members_of crossed [1%nat; 0%nat])
    = ["2"%string; "1"%string].
Proof.
  destruct (clients_snapshot crossed 0 (mkRoom "ABCD" [1%nat; 0%nat]) (other_than "3"))
    as (props & Hrun & _ & Hord & _).
  - apply crossed_wf.
  - reflexivity.
  - apply (bool_decide_unpack _). vm_compute. reflexivity.
  - exists props. split; [exact Hrun|]. split; [|split; [exact Hord|reflexivity]].
    assert (Hval : Room_clients 0 (other_than "3") crossed
                   = Ok (VObj [("1"%string, VObj [("id"%string, VNum 1);
                                                  ("clientId"%string, VNum 100)]);
                               ("2"%string, VObj [("id"%string, VNum 2);
                                                  ("clientId"%string, VNum 200)])])
                        crossed [])
      by (vm_compute; reflexivity).
    rewrite Hrun in Hval. now injection Hval.
Defined.

Lemma signal_reaches_first_match_witness :
  on_signal 0 "2" (VStr "offer-sdp") party
  = Ok tt party [SocketSend 1 (byte_of_Z 5 :: writeUInt16BE 17
                                 ++ JSON_stringify (VArr [VStr "1"; VStr "offer-sdp"]))].
Proof.
  rewrite (signal_reaches_first_match party 0 (mkSocket (Some "ABCD"%string) false (Some 0%nat))
             0 (mkConnection 0 "1" (VNum 1) (VNum 100) (Some 0%nat) None)
             0 (mkRoom "ABCD" [0%nat; 1%nat])).
  - vm_compute. reflexivity.
  - apply party_wf.
  - reflexivity.
  - reflexivity.
  - reflexivity.
  - reflexivity.
  - reflexivity.
Defined.

Lemma authenticate_registers_witness :
  exists s',
    on_authenticate 0 VNull party
    = Ok tt s' [SocketSend 0 (byte_of_Z 0 :: writeUInt16BE 10
                                ++ JSON_stringify (VObj [("id"%string, VStr "4")]))] /\
    all_connections s' = [0; 1; 2; 3]%nat /\
    sockets s' !! 0%nat = Some (mkSocket (Some "ABCD"%string) false (Some 3%nat)) /\
    room_store s' = [mkRoom "ABCD" [0%nat; 1%nat]].
Proof.
  destruct (authenticate_registers party 0 (mkSocket (Some "ABCD"%string) false (Some 0%nat))
              VNull)
    as (s' & Hrun & _ & Hreg & Hsock & _ & _ & _ & Hrooms & _).
  - reflexivity.
  - exists s'. split; [exact Hrun|]. split; [exact Hreg|]. split; [exact Hsock|].
    exact Hrooms.
Defined.

Lemma join_enters_room_witness :
  exists fj fs s',
    on_join 2 "ABCD" (VNum 3) (VNum 300) party
    = Ok tt s' [SocketSend 0 fj; SocketSend 1 fj; SocketSend 2 fs] /\
    conn_store s' !! 2%nat
    = Some (mkConnection 2 "3" (VNum 3) VUndefined (Some 0%nat) None) /\
    room_store s' !! 0%nat = Some (mkRoom "ABCD" [0; 1; 2]%nat).
Proof.
  edestruct (join_enters_room party 2 (mkSocket None false (Some 2%nat)) 2
               (mkConnection 2 "3" VUndefined VUndefined None None)
               "ABCD" 0 (mkRoom "ABCD" [0%nat; 1%nat]) (VNum 3) (VNum 300))
    as (s' & Hrun & Hconn & _ & Hroom & _).
  - apply party_wf.
  - reflexivity.
  - reflexivity.
  - reflexivity.
  - vm_compute. reflexivity.
  - reflexivity.
  - reflexivity.
  - vm_compute. reflexivity.
  - vm_compute. reflexivity.
  - eexists _, _, s'. split; [exact Hrun|]. split; [exact Hconn|exact Hroom].
Defined.

Lemma join_creates_room_witness :
  exists s',
    on_join 2 "WXYZ" (VNum 3) (VNum 100) party
    = Ok tt s' [SocketSend 2 (byte_of_Z 4 :: writeUInt16BE 2 ++ JSON_stringify (VObj []))] /\
    room_store s' = [mkRoom "ABCD" [0%nat; 1%nat]; mkRoom "WXYZ" [2%nat]].
Proof.
  destruct (join_creates_room party 2 (mkSocket None false (Some 2%nat)) 2
              (mkConnection 2 "3" VUndefined VUndefined None None)
              "WXYZ" (VNum 3) (VNum 100)
              (byte_of_Z 4 :: writeUInt16BE 2 ++ JSON_stringify (VObj [])))
    as (s' & Hrun & _ & Hroom & _).
  - reflexivity.
  - reflexivity.
  - reflexivity.
  - vm_compute. reflexivity.
  - vm_compute. reflexivity.
  - exists s'. split; [exact Hrun|exact Hroom].
Defined.

Lemma client_rejects_change_witness :
  on_client 0 (VNum 5) (VNum 200) party = Ok tt party [SocketTerminate 0].
Proof.
  apply (client_rejects_change party 0 (mkSocket (Some "ABCD"%string) false (Some 0%nat)) 0
           (mkConnection 0 "1" (VNum 1) (VNum 100) (Some 0%nat) None)).
  - reflexivity.
  - reflexivity.
  - reflexivity.
  - reflexivity.
  - reflexivity.
Defined.

Lemma client_sets_ids_witness :
  exists s',
    conn_store s' !! 0%nat
    = Some (mkConnection 0 "1" (VNum 5) (VNum 100) (Some 0%nat) None) /\
    on_client 0 (VNum 5) (VNum 100) party
    = Ok tt s' [SocketSend 1
                  (byte_of_Z 3 :: writeUInt16BE 23
                     ++ JSON_stringify (VObj [("id"%string, VNum 5);
                                              ("clientId"%string, VNum 100)]))].
Proof.
  destruct (client_sets_ids party 0 (mkSocket (Some "ABCD"%string) false (Some 0%nat)) 0
              (mkConnection 0 "1" (VNum 1) (VNum 100) (Some 0%nat) None)
              (VNum 5) (VNum 100))
    as (s' & Hconns & _ & _ & _ & _ & Hrun).
  - apply party_wf.
  - reflexivity.
  - reflexivity.
  - reflexivity.
  - now right.
  - exists s'. split; [now rewrite Hconns|].
    now rewrite (Hrun (mkRoom "ABCD" [0%nat; 1%nat]) eq_refl).
Defined.

Lemma leave_in_room_witness :
  exists s',
    on_leave 0 party = Ok tt s' [] /\
    room_store s' = [mkRoom "ABCD" [1%nat]] /\
    rooms s' = rooms party /\
    all_connections s' = [0; 1; 2]%nat.
Proof.
  destruct (leave_in_room party 0 (mkSocket (Some "ABCD"%string) false (Some 0%nat)) 0
              (mkConnection 0 "1" (VNum 1) (VNum 100) (Some 0%nat) None)
              0 (mkRoom "ABCD" [0%nat; 1%nat]))
    as (s' & Hrun & _ & Hstore & Hrooms & Hreg & _).
  - reflexivity.
  - reflexivity.
  - reflexivity.
  - reflexivity.
  - reflexivity.
  - exists s'. split; [exact Hrun|]. split; [now rewrite Hstore|].
    split; [exact Hrooms|exact Hreg].
Defined.

Lemma close_is_leave_then_unregister_witness :
  exists s',
    on_close 0 party = Ok tt s' [] /\
    all_connections s' = [1; 2]%nat /\
    connectionCount s' = 2 /\
    room_store s' = [mkRoom "ABCD" [1%nat]].
Proof.
  eexists. split.
  - apply (close_is_leave_then_unregister party (state_of (on_leave 0 party)) 0
             (mkSocket (Some "ABCD"%string) false (Some 0%nat)) 0
             (mkConnection 0 "1" (VNum 1) (VNum 100) (Some 0%nat) None)
             0 (mkRoom "ABCD" [0%nat; 1%nat])).
    + reflexivity.
    + reflexivity.
    + reflexivity.
    + reflexivity.
    + reflexivity.
    + vm_compute. reflexivity.
  - split; [reflexivity|]. split; reflexivity.
Defined.

Lemma count_is_open_sockets_witness :
  connectionCount (state_after (party_events ++ [EClose 0])) = 2.
Proof.
  eapply (count_is_open_sockets (party_events ++ [EClose 0])).
  vm_compute. reflexivity.
Defined.

Lemma timeout_iff_unauthenticated_witness :
  on_connectTimeout 0 fresh = Ok tt fresh [SocketTerminate 0] /\
  on_connectTimeout 2 party = Ok tt party [].
Proof.
  split.
  - eapply (timeout_iff_unauthenticated [EConnection] fresh _ 0 (mkSocket None true None)).
    + vm_compute. reflexivity.
    + reflexivity.
  - eapply (timeout_iff_unauthenticated party_events party _ 2
              (mkSocket None false (Some 2%nat))).
    + vm_compute. reflexivity.
    + reflexivity.
Defined.

Lemma ids_are_distinct_witness :
  id (mkConnection 0 "1" (VNum 1) (VNum 100) (Some 0%nat) None)
  <> id (mkConnection 1 "2" (VNum 2) (VNum 200) (Some 0%nat) None).
Proof.
  eapply (ids_are_distinct party_events party _ 0 1).
  - intros m n Heq. cbn in Heq. unfold Reference.number in Heq.
    apply (inj pretty) in Heq. lia.
  - vm_compute. reflexivity.
  - reflexivity.
  - reflexivity.
  - lia.
Defined.

Lemma wf_is_kept_witness : wf (state_of (run [ELeave 0; EClose 1] party)).
Proof.
  eapply (wf_is_kept [ELeave 0; EClose 1] party).
  - apply party_wf.
  - vm_compute. reflexivity.
Defined.

Lemma connection_keeps_identity_witness :
  exists x',
    conn_store (state_of (run [EClient 0 (VNum 7) (VNum 100); ELeave 0] party)) !! 0%nat
    = Some x' /\
    socket x' = 0%nat /\ id x' = "1"%string /\
    (loose_neq_null (VNum 100) = true -> clientId x' = VNum 100).
Proof.
  eapply (connection_keeps_identity [EClient 0 (VNum 7) (VNum 100); ELeave 0] party _ _ 0
            (mkConnection 0 "1" (VNum 1) (VNum 100) (Some 0%nat) None)).
  - vm_compute. reflexivity.
  - reflexivity.
Defined.

Lemma rooms_stay_consistent_witness :
  (forall c r, rooms party !! c = Some r ->
     exists rm, room_store party !! r = Some rm /\ code rm = c /\ connections rm <> []) /\
  (forall r rm, room_store party !! r = Some rm -> connections rm <> [] ->
     rooms party !! code rm = Some r) /\
  (forall c x r, conn_store party !! c = Some x -> room x = Some r ->
     exists rm, room_store party !! r = Some rm /\ c ∈ connections rm /\
                rooms party !! code rm = Some r).
Proof.
  eapply (rooms_stay_consistent party_events). vm_compute. reflexivity.
Defined.

Lemma second_authentication_is_fatal_witness :
  exists s1 s2 fx2 s3 s4 fx4,
    on_authenticate 2 VNull party
    = Ok tt s1 [SocketSend 2 (byte_of_Z 0 :: writeUInt16BE 10
                                ++ JSON_stringify (VObj [("id"%string, VStr "4")]))] /\
    ping s1 = Ok tt s2 fx2 /\
    run (EPong <$> [2%nat; 0%nat]) s2 = Ok tt s3 [] /\
    ping s3 = Ok tt s4 fx4 /\
    SocketTerminate 2 ∈ fx4.
Proof.
  eapply (second_authentication_is_fatal party_events party _ 2
            (mkSocket None false (Some 2%nat)) 2 VNull _ [2%nat; 0%nat]).
  - vm_compute. reflexivity.
  - reflexivity.
  - reflexivity.
  - apply (bool_decide_unpack _). vm_compute. reflexivity.
  - vm_compute. reflexivity.
  - repeat constructor.
    + exists (mkSocket None false (Some 2%nat)), 2%nat. split; reflexivity.
    + exists (mkSocket (Some "ABCD"%string) false (Some 0%nat)), 0%nat. split; reflexivity.
Defined.

Lemma pong_does_not_save_socket_witness :
  exists s1 s2 fx2 s3 s4 fx4 sock3 c x i,
    on_authenticate 1 (VObj []) lobby
    = Ok tt s1 [SocketSend 1 (byte_of_Z 0 :: writeUInt16BE 10
                                ++ JSON_stringify (VObj [("id"%string, VStr "3")]))] /\
    ping s1 = Ok tt s2 fx2 /\
    run (EPong <$> [1%nat]) s2 = Ok tt s3 [] /\
    ping s3 = Ok tt s4 fx4 /\
    sockets s3 !! 1%nat = Some sock3 /\
    connection sock3 = Some c /\
    all_connections s3 !! i = Some c /\
    conn_store s3 !! c = Some x /\
    socket x = 1%nat /\
    isAlive x = Some true /\
    fx2 !! i = Some (SocketPing 1) /\
    fx4 !! i = Some (SocketPing 1) /\
    SocketTerminate 1 ∈ fx4.
Proof.
  eapply (pong_does_not_save_socket lobby_events lobby _ 1
            (mkSocket None false (Some 1%nat)) 1 (VObj []) _ [1%nat]).
  - vm_compute. reflexivity.
  - reflexivity.
  - reflexivity.
  - apply (bool_decide_unpack _). vm_compute. reflexivity.
  - vm_compute. reflexivity.
  - repeat constructor.
    exists (mkSocket None false (Some 1%nat)), 1%nat. split; reflexivity.
  - apply (bool_decide_unpack _). vm_compute. reflexivity.
Defined.

Lemma spoof_guard_exact_witness :
  spoofs (VNum 200) (members_of party [0%nat; 1%nat]) = true <->
  instanceof_Object (VNum 200) = false /\ VNum 200 <> VNull /\
  exists m x, m ∈ [0%nat; 1%nat] /\ conn_store party !! m = Some x /\
              clientId x = VNum 200.
Proof.
  apply (spoof_guard_exact party [0%nat; 1%nat] (VNum 200)).
  repeat constructor.
  - exists (mkConnection 0 "1" (VNum 1) (VNum 100) (Some 0%nat) None). reflexivity.
  - exists (mkConnection 1 "2" (VNum 2) (VNum 200) (Some 0%nat) None). reflexivity.
Defined.

Lemma ghost_members_stay_witness :
  (ghosts (state_after two_joins) 0 0
   <= ghosts (state_of (run [ELeave 0] (state_after two_joins))) 0 0)%nat /\
  exists rm,
    room_store (state_of (run [ELeave 0] (state_after two_joins))) !! 0%nat = Some rm /\
    0%nat ∈ connections rm /\
    rooms (state_of (run [ELeave 0] (state_after two_joins))) !! code rm = Some 0%nat.
Proof.
  eapply (ghost_members_stay two_joins [ELeave 0]).
  - vm_compute. reflexivity.
  - vm_compute. reflexivity.
  - vm_compute. lia.
Defined.

Lemma second_join_leaves_ghost_witness :
  (1 <= ghosts (state_of (on_join 0 "EFGH" (VNum 1) (VNum 100) party)) 0 0)%nat.
Proof.
  eapply (second_join_leaves_ghost party_events party _ _ _ 0
            (mkSocket (Some "ABCD"%string) false (Some 0%nat)) 0
            (mkConnection 0 "1" (VNum 1) (VNum 100) (Some 0%nat) None) 0
            "EFGH" (VNum 1) (VNum 100)).
  - vm_compute. reflexivity.
  - reflexivity.
  - reflexivity.
  - reflexivity.
  - reflexivity.
  - vm_compute. reflexivity.
  - apply not_elem_of_cons. split; [discriminate|apply not_elem_of_nil].
Defined.

Lemma local_events_end_witness :
  match handle (EClose 2) party with
  | Ok _ _ _ => type_error party (EClose 2) = false
  | Throw err _ sent =>
      if type_error party (EClose 2) then err = TypeError /\ sent = []
      else err = RangeError
  | Unmodelled => False
  end.
Proof.
  eapply (local_events_end party_events party _ (EClose 2)).
  - vm_compute. reflexivity.
  - intros k [= <-]. exists (mkSocket None false (Some 2%nat)). reflexivity.
  - reflexivity.
Defined.

End EngineExamples.
